(** * NovaBot newsletter bot (index.js): history stores, response extraction,
    digest rendering and the run cycle.

    The development embeds the functions of [index.js] that the
    specification talks about: [log], the handler of GET /api/data,
    [getPastHeadlines], [saveHeadlines], [fetchNews] with its extraction,
    [generateHtml], [sendEmail] and [runBot], together with the pieces of
    the JavaScript platform they call
    ([String.prototype.trim], [replace], [indexOf], [lastIndexOf],
    [substring], [JSON.parse], [JSON.stringify], array spread, template
    literals). *)

From Stdlib Require Import String Ascii List NArith ZArith Lia Bool.
Import ListNotations.

Set Warnings "-register-all".

(** ** JavaScript strings

    A JavaScript string is a sequence of UTF-16 code units. *)

Abbreviation char16 := N (only parsing).
Abbreviation jsstring := (list N) (only parsing).

Definition ch (a : ascii) : char16 := N_of_ascii a.

(** [js "text"] is the JavaScript string with the same (ASCII) characters. *)
Definition js (s : string) : jsstring := map ch (list_ascii_of_string s).
Arguments js s%_string.

Definition dquote : char16 := 34%N.      (* the double quote *)
Definition newline : char16 := 10%N.

Definition chr_eqb (a b : char16) : bool := N.eqb a b.

Fixpoint str_eqb (a b : jsstring) : bool :=
  match a, b with
  | [], [] => true
  | x :: a', y :: b' => chr_eqb x y && str_eqb a' b'
  | _, _ => false
  end.

(** [starts_with p s]: [p] is a prefix of [s] (String.prototype.startsWith). *)
Fixpoint starts_with (p s : jsstring) : bool :=
  match p, s with
  | [], _ => true
  | x :: p', y :: s' => chr_eqb x y && starts_with p' s'
  | _ :: _, [] => false
  end.

(** *** String.prototype.trim

    [trim] removes the WhiteSpace and LineTerminator code points of
    ECMA-262 from both ends. *)

Definition is_js_space (c : char16) : bool :=
  ((9 <=? c) && (c <=? 13) || (c =? 32) || (c =? 160) || (c =? 5760)
   || (8192 <=? c) && (c <=? 8202) || (c =? 8232) || (c =? 8233)
   || (c =? 8239) || (c =? 8287) || (c =? 12288) || (c =? 65279))%N.

Fixpoint trim_start (s : jsstring) : jsstring :=
  match s with
  | c :: s' => if is_js_space c then trim_start s' else s
  | [] => []
  end.

Definition trim_end (s : jsstring) : jsstring := rev (trim_start (rev s)).

Definition trim (s : jsstring) : jsstring := trim_end (trim_start s).

(** *** String.prototype.replace with a global literal pattern and the
    empty replacement: every match, found left to right and never
    overlapping an earlier one, is deleted.  [skip] counts the code units
    of the current match that are still to be dropped. *)

Fixpoint remove_from (pat : jsstring) (skip : nat) (s : jsstring) : jsstring :=
  match s with
  | [] => []
  | c :: s' =>
      match skip with
      | S k => remove_from pat k s'
      | O => if starts_with pat s then remove_from pat (length pat - 1) s'
             else c :: remove_from pat 0 s'
      end
  end.

Definition remove_all (pat s : jsstring) : jsstring := remove_from pat 0 s.

(** *** indexOf, lastIndexOf of one character; -1 when it is absent *)

Fixpoint indexOf (c : char16) (s : jsstring) : Z :=
  match s with
  | [] => -1
  | x :: s' => if chr_eqb x c then 0
               else let i := indexOf c s' in if (i <? 0)%Z then -1 else (i + 1)%Z
  end.

Fixpoint lastIndexOf (c : char16) (s : jsstring) : Z :=
  match s with
  | [] => -1
  | x :: s' => let i := lastIndexOf c s' in
               if (0 <=? i)%Z then (i + 1)%Z
               else if chr_eqb x c then 0 else -1
  end.

(** *** String.prototype.substring: both bounds are clamped to
    [0 .. length] and swapped when they come in the wrong order. *)

Definition clamp (len i : Z) : Z := Z.min (Z.max i 0) len.

Definition substring (s : jsstring) (from to : Z) : jsstring :=
  let len := Z.of_nat (length s) in
  let a := clamp len from in
  let b := clamp len to in
  let lo := Z.min a b in
  let hi := Z.max a b in
  firstn (Z.to_nat (hi - lo)) (skipn (Z.to_nat lo) s).

(** ** JavaScript values

    The values that occur in the program are those [JSON.parse] builds,
    plus [undefined] (a missing property).  A number is kept as the
    literal it was read from; what the engine does with the double it
    denotes is collected in the interface [Float64] below.  An object is
    the list of its own properties in the order [Object.keys] and
    [JSON.stringify] enumerate them. *)

Inductive jsval : Type :=
  | VUndefined
  | VNull
  | VBool (b : bool)
  | VNumber (literal : jsstring)
  | VString (s : jsstring)
  | VArray (elems : list jsval)
  | VObject (props : list (jsstring * jsval)).

Definition props := list (jsstring * jsval).

(** Operations on doubles that the program reaches only through the
    engine: [Number::toString], finiteness (JSON.stringify prints [null]
    for an infinite number) and [ToBoolean]. *)
Class Float64 := {
  Number_toString : jsstring -> jsstring;
  Number_isFinite : jsstring -> bool;
  Number_toBoolean : jsstring -> bool
}.

(** *** Own properties

    [get_own] is [Get] restricted to own properties.  It is used for the
    keys [news], [title], [summary], [type] and [toString] below; none of
    the first four is defined on [Object.prototype]. *)

Fixpoint get_own (o : props) (k : jsstring) : option jsval :=
  match o with
  | [] => None
  | (k', v) :: o' => if str_eqb k' k then Some v else get_own o' k
  end.

(** An array index is the canonical decimal form of an integer below
    2^32 - 1.  Such keys are enumerated first, in ascending order; the
    other keys follow in creation order. *)

Definition is_digit (c : char16) : bool := ((48 <=? c) && (c <=? 57))%N.

Fixpoint decimal_value (acc : N) (s : jsstring) : N :=
  match s with
  | [] => acc
  | c :: s' => decimal_value (10 * acc + (c - 48))%N s'
  end.

Definition array_index (k : jsstring) : option N :=
  match k with
  | [] => None
  | c :: k' =>
      if forallb is_digit k
         && (negb (chr_eqb c 48%N) || match k' with [] => true | _ => false end)
         && (length k <=? 10)%nat
         && (decimal_value 0 k <? 4294967295)%N
      then Some (decimal_value 0 k) else None
  end.

Definition comes_before (k k' : jsstring) : bool :=
  match array_index k, array_index k' with
  | Some i, Some j => (i <? j)%N
  | Some _, None => true
  | None, _ => false
  end.

Fixpoint obj_replace (o : props) (k : jsstring) (v : jsval) : props :=
  match o with
  | [] => []
  | (k', v') :: o' =>
      if str_eqb k' k then (k', v) :: o' else (k', v') :: obj_replace o' k v
  end.

Fixpoint obj_insert (o : props) (k : jsstring) (v : jsval) : props :=
  match o with
  | [] => [(k, v)]
  | (k', v') :: o' =>
      if comes_before k k' then (k, v) :: o else (k', v') :: obj_insert o' k v
  end.

(** CreateDataProperty: an existing key keeps its place and takes the new
    value, a new key is added at its place in the enumeration order. *)
Definition obj_set (o : props) (k : jsstring) (v : jsval) : props :=
  match get_own o k with
  | Some _ => obj_replace o k v
  | None => obj_insert o k v
  end.

Definition build_object (members : list (jsstring * jsval)) : props :=
  fold_left (fun o kv => obj_set o (fst kv) (snd kv)) members [].

(** ** JSON.parse

    A recursive-descent reader of the JSON grammar (ECMA-404, as
    [JSON.parse] applies it).  [fuel] bounds the number of nested calls;
    [JSON_parse] supplies enough of it for the whole text
    ([JSON_parse_fuel] below), so the last case of [JSON_parse] never
    arises. *)

Inductive parsed (A : Type) : Type :=
  | Parsed (a : A) (rest : jsstring)
  | SyntaxErr
  | OutOfFuel.
Arguments Parsed {A} a rest.
Arguments SyntaxErr {A}.
Arguments OutOfFuel {A}.

Definition is_json_space (c : char16) : bool :=
  ((c =? 9) || (c =? 10) || (c =? 13) || (c =? 32))%N.

Fixpoint skip_ws (s : jsstring) : jsstring :=
  match s with
  | c :: s' => if is_json_space c then skip_ws s' else s
  | [] => []
  end.

Definition hex_digit (c : char16) : option N :=
  if ((48 <=? c) && (c <=? 57))%N then Some (c - 48)%N
  else if ((65 <=? c) && (c <=? 70))%N then Some (c - 55)%N
  else if ((97 <=? c) && (c <=? 102))%N then Some (c - 87)%N
  else None.

Definition hex4 (a b c d : char16) : option char16 :=
  match hex_digit a, hex_digit b, hex_digit c, hex_digit d with
  | Some x, Some y, Some z, Some w => Some (4096 * x + 256 * y + 16 * z + w)%N
  | _, _, _, _ => None
  end.

(** The character after a backslash, for the two-character escapes. *)
Definition simple_escape (c : char16) : option char16 :=
  if (c =? 34)%N then Some 34%N            (* quote *)
  else if (c =? 92)%N then Some 92%N       (* backslash *)
  else if (c =? 47)%N then Some 47%N       (* slash *)
  else if (c =? 98)%N then Some 8%N        (* backspace *)
  else if (c =? 102)%N then Some 12%N      (* form feed *)
  else if (c =? 110)%N then Some 10%N      (* line feed *)
  else if (c =? 114)%N then Some 13%N      (* carriage return *)
  else if (c =? 116)%N then Some 9%N       (* tab *)
  else None.

(** The characters of a string literal, after its opening quote, up to
    and including the closing quote. *)
Fixpoint parse_chars (s : jsstring) : option (jsstring * jsstring) :=
  match s with
  | [] => None
  | c :: r =>
      if (c =? 34)%N then Some ([], r)
      else if (c =? 92)%N then
        match r with
        | [] => None
        | e :: r1 =>
            if (e =? 117)%N then                      (* u and four hex digits *)
              match r1 with
              | h1 :: h2 :: h3 :: h4 :: r2 =>
                  match hex4 h1 h2 h3 h4 with
                  | Some u =>
                      match parse_chars r2 with
                      | Some (str, rest) => Some (u :: str, rest)
                      | None => None
                      end
                  | None => None
                  end
              | _ => None
              end
            else
              match simple_escape e with
              | Some x =>
                  match parse_chars r1 with
                  | Some (str, rest) => Some (x :: str, rest)
                  | None => None
                  end
              | None => None
              end
        end
      else if (c <? 32)%N then None
      else
        match parse_chars r with
        | Some (str, rest) => Some (c :: str, rest)
        | None => None
        end
  end.

(** The longest run of decimal digits at the front. *)
Fixpoint digits (s : jsstring) : jsstring * jsstring :=
  match s with
  | c :: s' => if is_digit c then let (d, r) := digits s' in (c :: d, r)
               else ([], s)
  | [] => ([], [])
  end.

(** A number literal: an optional minus sign, an integer part (a single
    0, or a non-zero digit followed by digits), an optional fraction (a
    dot and at least one digit) and an optional exponent (e or E, an
    optional sign, at least one digit). *)
Definition parse_int (s : jsstring) : option (jsstring * jsstring) :=
  match s with
  | c :: r =>
      if (c =? 48)%N then Some ([c], r)
      else if is_digit c then let (d, r') := digits r in Some (c :: d, r')
      else None
  | [] => None
  end.

Definition parse_frac (s : jsstring) : option (jsstring * jsstring) :=
  match s with
  | c :: r =>
      if (c =? 46)%N then
        match digits r with
        | ([], _) => None
        | (d, r') => Some (c :: d, r')
        end
      else Some ([], s)
  | [] => Some ([], s)
  end.

Definition parse_exp (s : jsstring) : option (jsstring * jsstring) :=
  match s with
  | c :: r =>
      if ((c =? 101) || (c =? 69))%N then
        let (sign, r1) :=
          match r with
          | g :: r0 => if ((g =? 43) || (g =? 45))%N then ([g], r0) else ([], r)
          | [] => ([], r)
          end in
        match digits r1 with
        | ([], _) => None
        | (d, r') => Some (c :: sign ++ d, r')
        end
      else Some ([], s)
  | [] => Some ([], s)
  end.

Definition parse_number (s : jsstring) : option (jsstring * jsstring) :=
  let (sign, s1) :=
    match s with
    | c :: r => if (c =? 45)%N then ([c], r) else ([], s)
    | [] => ([], s)
    end in
  match parse_int s1 with
  | Some (i, s2) =>
      match parse_frac s2 with
      | Some (f, s3) =>
          match parse_exp s3 with
          | Some (e, s4) => Some (sign ++ i ++ f ++ e, s4)
          | None => None
          end
      | None => None
      end
  | None => None
  end.

(** A literal name ([true], [false], [null]) at the front. *)
Definition parse_literal (name : jsstring) (v : jsval) (s : jsstring) : parsed jsval :=
  if starts_with name s then Parsed v (skipn (length name) s) else SyntaxErr.

Fixpoint parse_value (fuel : nat) (s : jsstring) : parsed jsval :=
  match fuel with
  | O => OutOfFuel
  | S fuel' =>
      match skip_ws s with
      | [] => SyntaxErr
      | c :: r =>
          if (c =? 123)%N then                                  (* { *)
            match skip_ws r with
            | [] => SyntaxErr
            | c' :: r' =>
                if (c' =? 125)%N then Parsed (VObject []) r'
                else
                  match parse_members fuel' (c' :: r') with
                  | Parsed ms rest => Parsed (VObject (build_object ms)) rest
                  | SyntaxErr => SyntaxErr
                  | OutOfFuel => OutOfFuel
                  end
            end
          else if (c =? 91)%N then                              (* [ *)
            match skip_ws r with
            | [] => SyntaxErr
            | c' :: r' =>
                if (c' =? 93)%N then Parsed (VArray []) r'
                else
                  match parse_elements fuel' (c' :: r') with
                  | Parsed vs rest => Parsed (VArray vs) rest
                  | SyntaxErr => SyntaxErr
                  | OutOfFuel => OutOfFuel
                  end
            end
          else if (c =? 34)%N then
            match parse_chars r with
            | Some (str, rest) => Parsed (VString str) rest
            | None => SyntaxErr
            end
          else if (c =? 116)%N then parse_literal (js "true") (VBool true) (c :: r)
          else if (c =? 102)%N then parse_literal (js "false") (VBool false) (c :: r)
          else if (c =? 110)%N then parse_literal (js "null") VNull (c :: r)
          else
            match parse_number (c :: r) with
            | Some (lit, rest) => Parsed (VNumber lit) rest
            | None => SyntaxErr
            end
      end
  end

(** The elements of a non-empty array, after the opening bracket, up to
    and including the closing one. *)
with parse_elements (fuel : nat) (s : jsstring) : parsed (list jsval) :=
  match fuel with
  | O => OutOfFuel
  | S fuel' =>
      match parse_value fuel' s with
      | Parsed v r =>
          match skip_ws r with
          | [] => SyntaxErr
          | c :: r' =>
              if (c =? 44)%N then
                match parse_elements fuel' r' with
                | Parsed vs rest => Parsed (v :: vs) rest
                | SyntaxErr => SyntaxErr
                | OutOfFuel => OutOfFuel
                end
              else if (c =? 93)%N then Parsed [v] r'
              else SyntaxErr
          end
      | SyntaxErr => SyntaxErr
      | OutOfFuel => OutOfFuel
      end
  end

(** The members of a non-empty object, in the order of the text, after
    the opening brace, up to and including the closing one. *)
with parse_members (fuel : nat) (s : jsstring) : parsed (list (jsstring * jsval)) :=
  match fuel with
  | O => OutOfFuel
  | S fuel' =>
      match skip_ws s with
      | [] => SyntaxErr
      | q :: r0 =>
          if (q =? 34)%N then
            match parse_chars r0 with
            | None => SyntaxErr
            | Some (key, r1) =>
                match skip_ws r1 with
                | [] => SyntaxErr
                | colon :: r2 =>
                    if (colon =? 58)%N then
                      match parse_value fuel' r2 with
                      | Parsed v r3 =>
                          match skip_ws r3 with
                          | [] => SyntaxErr
                          | c :: r4 =>
                              if (c =? 44)%N then
                                match parse_members fuel' r4 with
                                | Parsed ms rest => Parsed ((key, v) :: ms) rest
                                | SyntaxErr => SyntaxErr
                                | OutOfFuel => OutOfFuel
                                end
                              else if (c =? 125)%N then Parsed [(key, v)] r4
                              else SyntaxErr
                          end
                      | SyntaxErr => SyntaxErr
                      | OutOfFuel => OutOfFuel
                      end
                    else SyntaxErr
                end
            end
          else SyntaxErr
      end
  end.

(** ** Completions: a computation returns normally or throws. *)

Inductive js_error : Type :=
  | SyntaxError                       (* JSON.parse on a text that is not JSON *)
  | TypeError                         (* property of null/undefined, call of a non-function, spread of a non-iterable *)
  | Error (message : jsstring)        (* throw new Error(message) *)
  | RequestError (status : option Z). (* axios rejects; error.response is set when a status came back *)

Inductive completion (A : Type) : Type :=
  | Normal (a : A)
  | Throw (e : js_error).
Arguments Normal {A} a.
Arguments Throw {A} e.

Definition JSON_parse (text : jsstring) : completion jsval :=
  match parse_value (2 * length text + 2) text with
  | Parsed v rest =>
      match skip_ws rest with
      | [] => Normal v
      | _ :: _ => Throw SyntaxError
      end
  | SyntaxErr => Throw SyntaxError
  | OutOfFuel => Throw SyntaxError
  end.

(** ** Operations of the language on values *)

(** [v.k], for the keys [news], [title], [summary], [type], [choices],
    [message] and [content]: none of them is defined on a built-in
    prototype, so a value other than an object with that own property
    yields [undefined], and [null] and [undefined] throw. *)
Definition get_prop (v : jsval) (k : jsstring) : completion jsval :=
  match v with
  | VUndefined | VNull => Throw TypeError
  | VObject o => Normal (match get_own o k with Some x => x | None => VUndefined end)
  | _ => Normal VUndefined
  end.

(** Array.isArray *)
Definition isArray (v : jsval) : bool :=
  match v with VArray _ => true | _ => false end.

Definition ToBoolean `{Float64} (v : jsval) : bool :=
  match v with
  | VUndefined | VNull => false
  | VBool b => b
  | VNumber n => Number_toBoolean n
  | VString s => match s with [] => false | _ :: _ => true end
  | VArray _ | VObject _ => true
  end.

Fixpoint join (sep : jsstring) (parts : list jsstring) : jsstring :=
  match parts with
  | [] => []
  | [p] => p
  | p :: rest => p ++ sep ++ join sep rest
  end.

Fixpoint sequence {A : Type} (l : list (completion A)) : completion (list A) :=
  match l with
  | [] => Normal []
  | Normal a :: l' =>
      match sequence l' with
      | Normal r => Normal (a :: r)
      | Throw e => Throw e
      end
  | Throw e :: _ => Throw e
  end.

(** ToString, as a template literal and [Array.prototype.join] apply it.
    An array prints its elements separated by commas, with [null] and
    [undefined] as the empty string.  An object has no callable
    [toString] of its own: with an own property of that name the
    conversion throws, without one [Object.prototype.toString] answers. *)
Fixpoint ToString `{Float64} (v : jsval) : completion jsstring :=
  match v with
  | VUndefined => Normal (js "undefined")
  | VNull => Normal (js "null")
  | VBool true => Normal (js "true")
  | VBool false => Normal (js "false")
  | VNumber n => Normal (Number_toString n)
  | VString s => Normal s
  | VArray l =>
      match sequence (map (fun x => match x with
                                    | VUndefined | VNull => Normal []
                                    | _ => ToString x
                                    end) l) with
      | Normal parts => Normal (join (js ",") parts)
      | Throw e => Throw e
      end
  | VObject o =>
      match get_own o (js "toString") with
      | Some _ => Throw TypeError
      | None => Normal (js "[object Object]")
      end
  end.

(** [a.join(sep)] where [a] is any value: only an array has the method. *)
Definition Array_join `{Float64} (a : jsval) (sep : jsstring) : completion jsstring :=
  match a with
  | VArray l =>
      match sequence (map (fun x => match x with
                                    | VUndefined | VNull => Normal []
                                    | _ => ToString x
                                    end) l) with
      | Normal parts => Normal (join sep parts)
      | Throw e => Throw e
      end
  | _ => Throw TypeError
  end.

Definition is_lead (c : char16) : bool := ((55296 <=? c) && (c <=? 56319))%N.
Definition is_trail (c : char16) : bool := ((56320 <=? c) && (c <=? 57343))%N.

(** The code points of a string, each as a string of one or two units. *)
Fixpoint code_points (s : jsstring) : list jsstring :=
  match s with
  | [] => []
  | c :: s' =>
      match s' with
      | d :: s'' => if is_lead c && is_trail d then [c; d] :: code_points s''
                    else [c] :: code_points s'
      | [] => [[c]]
      end
  end.

(** [[...v]]: an array gives its elements, a string its code points, and
    nothing else among these values is iterable. *)
Definition spread (v : jsval) : completion (list jsval) :=
  match v with
  | VArray l => Normal l
  | VString s => Normal (map VString (code_points s))
  | _ => Throw TypeError
  end.

(** [a.slice(start)] for [0 <= start]. *)
Definition slice {A : Type} (a : list A) (start : nat) : list A := skipn start a.

(** ** JSON.stringify(value, null, 2) *)

Definition hex_char (n : N) : char16 := (if n <? 10 then 48 + n else 87 + n)%N.

Definition unicode_escape (c : char16) : jsstring :=
  [92; 117; hex_char (c / 4096); hex_char ((c / 256) mod 16);
   hex_char ((c / 16) mod 16); hex_char (c mod 16)]%N.

Definition quote_unit (c : char16) : jsstring :=
  if (c =? 8)%N then js "\b"
  else if (c =? 9)%N then js "\t"
  else if (c =? 10)%N then js "\n"
  else if (c =? 12)%N then js "\f"
  else if (c =? 13)%N then js "\r"
  else if (c =? 34)%N then [92; 34]%N
  else if (c =? 92)%N then [92; 92]%N
  else if (c <? 32)%N || is_lead c || is_trail c then unicode_escape c
  else [c].

(** QuoteJSONString without the enclosing quotes: a surrogate pair is
    copied, a surrogate on its own is escaped. *)
Fixpoint quote_chars (s : jsstring) : jsstring :=
  match s with
  | [] => []
  | c :: s' =>
      match s' with
      | d :: s'' => if is_lead c && is_trail d then c :: d :: quote_chars s''
                    else quote_unit c ++ quote_chars s'
      | [] => quote_unit c
      end
  end.

Definition QuoteJSONString (s : jsstring) : jsstring :=
  dquote :: quote_chars s ++ [dquote].

Definition nl : jsstring := [newline].
Definition gap : jsstring := js "  ".

(** SerializeJSONProperty with the two-space gap; [None] is [undefined]
    (the value has no JSON text).  In an array such an element is
    printed as [null], in an object the property is left out. *)
Fixpoint serialize `{Float64} (indent : jsstring) (v : jsval) : option jsstring :=
  match v with
  | VUndefined => None
  | VNull => Some (js "null")
  | VBool true => Some (js "true")
  | VBool false => Some (js "false")
  | VNumber n => Some (if Number_isFinite n then Number_toString n else js "null")
  | VString s => Some (QuoteJSONString s)
  | VArray l =>
      let inner := indent ++ gap in
      match l with
      | [] => Some (js "[]")
      | _ :: _ =>
          Some (js "[" ++ nl ++ inner
                ++ join (js "," ++ nl ++ inner)
                     (map (fun x => match serialize inner x with
                                    | Some t => t
                                    | None => js "null"
                                    end) l)
                ++ nl ++ indent ++ js "]")
      end
  | VObject o =>
      let inner := indent ++ gap in
      match flat_map (fun kv => match serialize inner (snd kv) with
                                | Some t => [QuoteJSONString (fst kv) ++ js ": " ++ t]
                                | None => []
                                end) o with
      | [] => Some (js "{}")
      | members =>
          Some (js "{" ++ nl ++ inner
                ++ join (js "," ++ nl ++ inner) members
                ++ nl ++ indent ++ js "}")
      end
  end.

Definition JSON_stringify `{Float64} (v : jsval) : option jsstring := serialize [] v.

(** ** The process state and the monad of the program

    [World] holds what the program reads and writes: the two history
    files (the [utf8] text [fs.readFileSync] returns, [None] when
    [fs.existsSync] is false), the module variables [logs], [nextRunTime]
    and [currentGeneration], and the messages handed to the mail
    transporter.  The time stamp of a log entry and the console output are
    left out. *)

Inductive log_type : Type := TInfo | TError | TSuccess.

Inductive log_message : Type :=
  | Msg (text : jsstring)                          (* a fixed text *)
  | MsgError (text : jsstring) (e : js_error)      (* text + error.message *)
  | MsgValue (text : jsstring) (v : jsstring)      (* text + a string *)
  | MsgStatus (status : Z).                        (* API Status: and the status *)

Record LogEntry : Type := { message : log_message; type : log_type }.

Record World : Type := {
  history_file : option jsstring;       (* HISTORY_FILE, history.json *)
  dashboard_file : option jsstring;     (* DASHBOARD_FILE, dashboard_history.json *)
  logs : list LogEntry;
  nextRunTime : option Z;               (* null, or the milliseconds of the Date *)
  currentGeneration : jsval;
  outbox : list jsstring                (* the html of each transporter.sendMail call *)
}.

Definition M (A : Type) : Type := World -> completion A * World.

Definition ret {A : Type} (a : A) : M A := fun w => (Normal a, w).

Definition bind {A B : Type} (m : M A) (k : A -> M B) : M B :=
  fun w => match m w with
           | (Normal a, w') => k a w'
           | (Throw e, w') => (Throw e, w')
           end.

Definition lift {A : Type} (c : completion A) : M A := fun w => (c, w).

Definition read : M World := fun w => (Normal w, w).

(** try { body } catch (error) { handler } *)
Definition try_catch {A : Type} (body : M A) (handler : js_error -> M A) : M A :=
  fun w => match body w with
           | (Normal a, w') => (Normal a, w')
           | (Throw e, w') => handler e w'
           end.

Declare Scope js_scope.
Delimit Scope js_scope with js.
Notation "x <- m ;; k" := (bind m (fun x => k))
  (at level 61, m at next level, right associativity) : js_scope.
Notation "m ;;; k" := (bind m (fun _ => k))
  (at level 61, right associativity) : js_scope.
Open Scope js_scope.

Definition set_logs (l : list LogEntry) : M unit := fun w =>
  (Normal tt, {| history_file := history_file w; dashboard_file := dashboard_file w;
                 logs := l; nextRunTime := nextRunTime w;
                 currentGeneration := currentGeneration w; outbox := outbox w |}).

Definition set_nextRunTime (t : Z) : M unit := fun w =>
  (Normal tt, {| history_file := history_file w; dashboard_file := dashboard_file w;
                 logs := logs w; nextRunTime := Some t;
                 currentGeneration := currentGeneration w; outbox := outbox w |}).

Definition set_currentGeneration (g : jsval) : M unit := fun w =>
  (Normal tt, {| history_file := history_file w; dashboard_file := dashboard_file w;
                 logs := logs w; nextRunTime := nextRunTime w;
                 currentGeneration := g; outbox := outbox w |}).

Definition push_outbox (html : jsstring) : M unit := fun w =>
  (Normal tt, {| history_file := history_file w; dashboard_file := dashboard_file w;
                 logs := logs w; nextRunTime := nextRunTime w;
                 currentGeneration := currentGeneration w; outbox := outbox w ++ [html] |}).

Inductive file_name : Type := HISTORY_FILE | DASHBOARD_FILE.

Definition existsSync (f : file_name) : M bool := fun w =>
  (Normal (match f with
           | HISTORY_FILE => match history_file w with Some _ => true | None => false end
           | DASHBOARD_FILE => match dashboard_file w with Some _ => true | None => false end
           end), w).

(** fs.readFileSync(f, 'utf8') of a file that exists. *)
Definition readFileSync (f : file_name) : M jsstring := fun w =>
  (Normal (match f with
           | HISTORY_FILE => match history_file w with Some t => t | None => [] end
           | DASHBOARD_FILE => match dashboard_file w with Some t => t | None => [] end
           end), w).

(** fs.writeFileSync(f, data) on a disk that takes the write: the file
    now holds [data].  [undefined] for [data] is a TypeError. *)
Definition writeFileSync (f : file_name) (data : option jsstring) : M unit := fun w =>
  match data with
  | None => (Throw TypeError, w)
  | Some t =>
      (Normal tt,
       match f with
       | HISTORY_FILE =>
           {| history_file := Some t; dashboard_file := dashboard_file w;
              logs := logs w; nextRunTime := nextRunTime w;
              currentGeneration := currentGeneration w; outbox := outbox w |}
       | DASHBOARD_FILE =>
           {| history_file := history_file w; dashboard_file := Some t;
              logs := logs w; nextRunTime := nextRunTime w;
              currentGeneration := currentGeneration w; outbox := outbox w |}
       end)
  end.

(** ** index.js *)

(** log, index.js:30-39: push, then shift once the length exceeds 100. *)
Definition log (m : log_message) (t : log_type) : M unit :=
  w <- read ;;
  let l := logs w ++ [{| message := m; type := t |}] in
  set_logs (if (100 <? length l)%nat then tl l else l).

(** getPastHeadlines, index.js:81-91 *)
Definition getPastHeadlines : M jsval :=
  try_catch
    (ex <- existsSync HISTORY_FILE ;;
     if ex then
       data <- readFileSync HISTORY_FILE ;;
       lift (JSON_parse data)
     else ret (VArray []))
    (fun error =>
       log (MsgError (js "Error reading history file: ") error) TError ;;;
       ret (VArray [])).

(** The handler of GET /api/data, index.js:44-58: the [history] field of
    the answer. *)
Definition api_data_history : M jsval :=
  try_catch
    (ex <- existsSync DASHBOARD_FILE ;;
     if ex then
       data <- readFileSync DASHBOARD_FILE ;;
       lift (JSON_parse data)
     else ret (VArray []))
    (fun e => ret (VArray [])).

(** The answer of GET /api/data, index.js:52-57, as the object handed to
    [res.json]. *)
Record Answer : Type := {
  answer_logs : list LogEntry;
  answer_history : jsval;
  answer_nextRun : option Z;
  answer_currentGeneration : jsval
}.

(** The handler of GET /api/data, index.js:44-58. *)
Definition api_data : M Answer :=
  dashboardHistory <- api_data_history ;;
  w <- read ;;
  ret {| answer_logs := logs w; answer_history := dashboardHistory;
         answer_nextRun := nextRunTime w;
         answer_currentGeneration := currentGeneration w |}.

Definition cbind {A B : Type} (c : completion A) (k : A -> completion B) : completion B :=
  match c with
  | Normal a => k a
  | Throw e => Throw e
  end.

Notation "'let!' x ':=' c 'in' k" := (cbind c (fun x => k))
  (at level 10, x name, c at level 100, k at level 200).

(** [v === 'text'] *)
Definition is_string (text : jsstring) (v : jsval) : bool :=
  match v with
  | VString s => str_eqb s text
  | _ => false
  end.

(** [[a, b, c]] joined by double quotes: a"b"c. *)
Definition quoted (parts : list jsstring) : jsstring := join [dquote] parts.

(** createCard, index.js:220-225: the text before the colour, *)
Definition card_open : jsstring :=
  nl ++
  quoted [js "        <div style="; js "background: #fff; border-right: 4px solid "].

(** between the colour and the title, *)
Definition card_before_title : jsstring :=
  quoted [js "; padding: 15px; margin-bottom: 15px; border-radius: 8px; box-shadow: 0 2px 5px rgba(0,0,0,0.05);"; js ">"] ++ nl ++
  quoted [js "            <h3 style="; js "margin: 0 0 8px 0; color: #333; font-size: 18px;"; js ">"].

(** between the title and the summary, *)
Definition card_before_summary : jsstring :=
  js "</h3>" ++ nl ++
  quoted [js "            <p style="; js "margin: 0; color: #666; font-size: 14px; line-height: 1.5;"; js ">"].

(** and after the summary. *)
Definition card_close : jsstring :=
  js "</p>" ++ nl ++
  js "        </div>" ++ nl ++
  js "    ".

(** The document of generateHtml, index.js:227-269: the text before the logo address, *)
Definition doc_before_logo : jsstring :=
  nl ++
  js "        <!DOCTYPE html>" ++ nl ++
  quoted [js "        <html lang="; js "ur"; js " dir="; js "rtl"; js ">"] ++ nl ++
  js "        <head>" ++ nl ++
  quoted [js "            <meta charset="; js "UTF-8"; js ">"] ++ nl ++
  js "        </head>" ++ nl ++
  quoted [js "        <body style="; js "font-family: 'Arial', sans-serif; background-color: #f4f4f4; margin: 0; padding: 20px;"; js ">"] ++ nl ++
  quoted [js "            <div style="; js "max-width: 600px; margin: 0 auto; background: #ffffff; padding: 0; border-radius: 12px; box-shadow: 0 4px 15px rgba(0,0,0,0.1); overflow: hidden;"; js ">"] ++ nl ++
  js "                " ++ nl ++
  js "                <!-- Header with Logo -->" ++ nl ++
  quoted [js "                <div style="; js "background: linear-gradient(135deg, #1e3c72 0%, #2a5298 100%); padding: 30px 20px; text-align: center;"; js ">"] ++ nl ++
  quoted [js "                    <img src="; []].

(** between the logo address and the date, *)
Definition doc_before_date : jsstring :=
  quoted [[]; js " alt="; js "NovaBot Logo"; js " style="; js "width: 64px; height: 64px; margin-bottom: 10px; background: white; padding: 8px; border-radius: 50%;"; js ">"] ++ nl ++
  quoted [js "                    <h1 style="; js "color: #ffffff; margin: 0; font-size: 24px; font-weight: bold;"; js ">NovaBot News</h1>"] ++ nl ++
  quoted [js "                    <p style="; js "color: #aaccff; margin: 5px 0 0 0; font-size: 14px;"; js ">"].

(** between the date and the place of the good section, *)
Definition doc_before_good : jsstring :=
  js "</p>" ++ nl ++
  js "                </div>" ++ nl ++
  nl ++
  quoted [js "                <div style="; js "padding: 20px;"; js ">"] ++ nl ++
  quoted [js "                    <h2 style="; js "color: #333; text-align: center; margin-bottom: 25px; font-size: 18px; border-bottom: 1px solid #eee; padding-bottom: 10px;"; js ">" ++ [287; 376; 8220; 176]%N ++ js " " ++ [216; 170; 216; 167; 216; 178; 219]%N ++ js " " ++ [216; 170; 216; 177; 219; 338; 217; 8224]%N ++ js " " ++ [216; 174; 216; 168; 216; 177; 219; 338; 218; 186]%N ++ js " (Latest Updates)</h2>"] ++ nl ++
  nl ++
  js "                    ".

(** the heading of the good section, before its cards, *)
Definition good_heading : jsstring :=
  nl ++
  quoted [js "                        <h3 style="; js "color: #27ae60; margin-top: 10px; display: flex; align-items: center; gap: 10px;"; js ">"] ++ nl ++
  js "                            <span>" ++ [287; 376; 8217; 353]%N ++ js "</span> " ++ [216; 174; 217; 710; 216; 180; 216; 174; 216; 168; 216; 177; 219; 338]%N ++ js " (Good News)" ++ nl ++
  js "                        </h3>" ++ nl ++
  js "                        ".

(** the text that ends the good section, *)
Definition good_close : jsstring :=
  nl ++
  js "                    ".

(** the text between the places of the two sections, *)
Definition doc_between_sections : jsstring :=
  nl ++
  nl ++
  js "                    ".

(** the heading of the shocking section, before its cards, *)
Definition shocking_heading : jsstring :=
  nl ++
  quoted [js "                        <h3 style="; js "color: #c0392b; margin-top: 30px; display: flex; align-items: center; gap: 10px;"; js ">"] ++ nl ++
  js "                            <span>" ++ [226; 353; 160; 239; 184]%N ++ js "</span> " ++ [217; 8222; 216; 177; 216; 178; 219]%N ++ js " " ++ [216; 174; 219; 338; 216; 178]%N ++ js " " ++ [216; 174; 216; 168; 216; 177; 219; 338; 218; 186]%N ++ js " (Shocking News)" ++ nl ++
  js "                        </h3>" ++ nl ++
  js "                        ".

(** the text that ends the shocking section, *)
Definition shocking_close : jsstring :=
  nl ++
  js "                    ".

(** and the rest of the document, with the footer. *)
Definition doc_after_shocking : jsstring :=
  nl ++
  js "                </div>" ++ nl ++
  nl ++
  js "                <!-- Footer -->" ++ nl ++
  quoted [js "                <div style="; js "background: #f8f9fa; padding: 20px; text-align: center; border-top: 1px solid #eee; color: #888; font-size: 12px;"; js ">"] ++ nl ++
  quoted [js "                    <p style="; js "margin: 0;"; js ">Automated by <strong>NovaBot</strong></p>"] ++ nl ++
  quoted [js "                    <p style="; js "margin: 5px 0 0 0;"; js ">Powered by OpenRouter & Node.js</p>"] ++ nl ++
  js "                </div>" ++ nl ++
  js "            </div>" ++ nl ++
  js "        </body>" ++ nl ++
  js "        </html>" ++ nl ++
  js "    ".

Definition LOGO_URL : jsstring :=
  js "https://cdn-icons-png.flaticon.com/512/3208/3208726.png".

Section Engine.
Context `{F : Float64}.

(** saveHeadlines, index.js:93-115 *)
Definition saveHeadlines (newsItems : list jsval) : M unit :=
  try_catch
    (history <- getPastHeadlines ;;
     newTitles <- lift (sequence (map (fun n => get_prop n (js "title")) newsItems)) ;;
     old <- lift (spread history) ;;
     let history := old ++ newTitles in
     let history :=
       if (50 <? length history)%nat then slice history (length history - 50)
       else history in
     writeFileSync HISTORY_FILE (JSON_stringify (VArray history)) ;;;
     ex <- existsSync DASHBOARD_FILE ;;
     dashboardHistory <-
       (if ex then
          data <- readFileSync DASHBOARD_FILE ;;
          lift (JSON_parse data)
        else ret (VArray [])) ;;
     old <- lift (spread dashboardHistory) ;;
     let dashboardHistory := old ++ newsItems in
     let dashboardHistory :=
       if (20 <? length dashboardHistory)%nat
       then slice dashboardHistory (length dashboardHistory - 20)
       else dashboardHistory in
     writeFileSync DASHBOARD_FILE (JSON_stringify (VArray dashboardHistory)))
    (fun error => log (MsgError (js "Error saving history: ") error) TError).

(** What the call of the generator (axios.post, index.js:125-166) comes
    to: the promise rejects without a response, it rejects because the
    status is not 2xx, or it resolves with [response.data]. *)
Inductive generator_outcome : Type :=
  | NetworkFailure
  | HttpError (status : Z)
  | Response (data : jsval).

(** [v.length === 0] for a value that is neither null nor undefined. *)
Definition length_is_zero (v : jsval) : bool :=
  match v with
  | VArray l => match l with [] => true | _ :: _ => false end
  | VString s => match s with [] => true | _ :: _ => false end
  | VObject o =>
      match get_own o (js "length") with
      | Some (VNumber n) => negb (Number_toBoolean n)
      | _ => false
      end
  | _ => false
  end.

(** [v[0]] for a value that is neither null nor undefined. *)
Definition first_element (v : jsval) : jsval :=
  match v with
  | VArray l => match l with x :: _ => x | [] => VUndefined end
  | VString s => match s with c :: _ => VString [c] | [] => VUndefined end
  | VObject o => match get_own o (js "0") with Some x => x | None => VUndefined end
  | _ => VUndefined
  end.

(** index.js:168-172: the check of the envelope and
    [response.data.choices[0].message.content]. *)
Definition response_content (data : jsval) : completion jsval :=
  if negb (ToBoolean data)
  then Throw (Error (js "Invalid API response structure"))
  else
    let! choices := get_prop data (js "choices") in
    if negb (ToBoolean choices) || length_is_zero choices
    then Throw (Error (js "Invalid API response structure"))
    else
      let! message := get_prop (first_element choices) (js "message") in
      get_prop message (js "content").

(** index.js:177-188: the text that goes to JSON.parse. *)
Definition clean (fullContent : jsstring) : jsstring :=
  let jsonString := trim fullContent in
  let jsonString := remove_all (js "```") (remove_all (js "```json") jsonString) in
  let firstOpen := indexOf (ch "{") jsonString in
  let lastClose := lastIndexOf (ch "}") jsonString in
  if negb (firstOpen =? -1)%Z && negb (lastClose =? -1)%Z
  then substring jsonString firstOpen (lastClose + 1)
  else jsonString.

(** index.js:191-195, the body of the inner try block.  The last match
    only names the elements of the array the test has let through. *)
Definition parse_news (jsonString : jsstring) : completion (list jsval) :=
  let! parsed := JSON_parse jsonString in
  let! news := get_prop parsed (js "news") in
  if negb (ToBoolean news) || negb (isArray news)
  then Throw (Error (js "Missing 'news' array in JSON"))
  else match news with
       | VArray items => Normal items
       | _ => Throw TypeError
       end.

(** index.js:176-200: the extraction, with its catch block; [None] is
    the [null] the program returns. *)
Definition extract (fullContent : jsstring) : M (option (list jsval)) :=
  try_catch
    (items <- lift (parse_news (clean fullContent)) ;;
     ret (Some items))
    (fun e =>
       log (Msg ([226; 338]%N ++ js " JSON Parse Error. Raw Output:")) TError ;;;
       ret None).

(** fetchNews, index.js:118-210.  The result is [null] ([None]) or the
    array [parsed.news]. *)
Definition fetchNews (pastHeadlines : jsval) (g : generator_outcome)
  : M (option (list jsval)) :=
  try_catch
    (log (Msg (js "Fetching latest news from OpenRouter (Perplexity)...")) TInfo ;;;
     set_currentGeneration
       (VString (js "AI is thinking and searching for news... (Streaming disabled for stability)")) ;;;
     excludeList <- lift (Array_join pastHeadlines (js ", ")) ;;
     data <-
       match g with
       | NetworkFailure => lift (Throw (RequestError None))
       | HttpError status => lift (Throw (RequestError (Some status)))
       | Response data => ret data
       end ;;
     fullContent <- lift (response_content data) ;;
     set_currentGeneration fullContent ;;;
     log (Msg (js "AI Generation Complete.")) TInfo ;;;
     match fullContent with
     | VString text => extract text
     | _ => lift (Throw TypeError)          (* fullContent.trim is not a function *)
     end)
    (fun error =>
       log (MsgError (js "Error fetching news: ") error) TError ;;;
       match error with
       | RequestError (Some status) => log (MsgStatus status) TError
       | _ => ret tt
       end ;;;
       ret None).

(** The filter of generateHtml, index.js:214-215:
    [newsItems.filter(item => item.type === t)]. *)
Fixpoint filter_type (t : jsstring) (newsItems : list jsval) : completion (list jsval) :=
  match newsItems with
  | [] => Normal []
  | item :: rest =>
      let! ty := get_prop item (js "type") in
      let! kept := filter_type t rest in
      Normal (if is_string t ty then item :: kept else kept)
  end.

(** createCard, index.js:220-225 *)
Definition createCard (item : jsval) (color : jsstring) : completion jsstring :=
  let! title := get_prop item (js "title") in
  let! title := ToString title in
  let! summary := get_prop item (js "summary") in
  let! summary := ToString summary in
  Normal (card_open ++ color ++ card_before_title ++ title
          ++ card_before_summary ++ summary ++ card_close).

(** One of the two sections of the document, index.js:246-258: nothing
    for an empty list, else the heading, the cards in the order of the
    list and the closing text. *)
Definition section (heading close color : jsstring) (items : list jsval)
  : completion jsstring :=
  if (0 <? length items)%nat then
    let! cards := sequence (map (fun item => createCard item color) items) in
    Normal (heading ++ concat cards ++ close)
  else Normal [].

(** generateHtml, index.js:213-270; [date] is what
    [new Date().toLocaleString()] gives at the call. *)
Definition generateHtml (date : jsstring) (newsItems : list jsval) : completion jsstring :=
  let! goodNews := filter_type (js "good") newsItems in
  let! shockingNews := filter_type (js "shocking") newsItems in
  let! good := section good_heading good_close (js "#27ae60") goodNews in
  let! shocking := section shocking_heading shocking_close (js "#c0392b") shockingNews in
  Normal (doc_before_logo ++ LOGO_URL ++ doc_before_date ++ date ++ doc_before_good
          ++ good ++ doc_between_sections ++ shocking ++ doc_after_shocking).

(** What [transporter.sendMail] comes to. *)
Inductive mail_outcome : Type :=
  | Sent (messageId : jsstring)
  | SendFailed (e : js_error).

(** sendEmail, index.js:273-290 *)
Definition sendEmail (htmlContent : jsstring) (m : mail_outcome) : M unit :=
  match htmlContent with
  | [] => ret tt
  | _ :: _ =>
      try_catch
        (log (Msg (js "Sending email...")) TInfo ;;;
         push_outbox htmlContent ;;;
         match m with
         | Sent messageId =>
             log (MsgValue (js "Email sent successfully! ID: ") messageId) TSuccess
         | SendFailed e => lift (Throw e)
         end)
        (fun error => log (MsgError (js "Error sending email: ") error) TError)
  end.

(** What one cycle takes from outside: the answer of the generator, the
    date text of the document, the answer of the mail transport and the
    time [new Date().getTime()] at index.js:310. *)
Record Cycle : Type := {
  generator : generator_outcome;
  date : jsstring;
  mail : mail_outcome;
  now : Z
}.

(** runBot, index.js:293-313 *)
Definition runBot (c : Cycle) : M unit :=
  log (Msg (js "--------------------------------------------------")) TInfo ;;;
  log (Msg (js "Bot Routine Started")) TInfo ;;;
  pastHeadlines <- getPastHeadlines ;;
  newsItems <- fetchNews pastHeadlines (generator c) ;;
  match newsItems with
  | Some ((_ :: _) as newsItems) =>
      html <- lift (generateHtml (date c) newsItems) ;;
      sendEmail html (mail c) ;;;
      saveHeadlines newsItems ;;;
      log (Msg (js "Saved new headlines to history.")) TSuccess
  | _ =>
      log (Msg (js "No valid news found or API error.")) TInfo
  end ;;;
  set_nextRunTime (now c + 10 * 60000) ;;;
  log (Msg (js "Routine finished. Waiting for next schedule...")) TInfo.

End Engine.

(** An engine that prints a number as the literal it was read from, for
    the closed examples below; zero is a literal whose digits before the
    exponent are all 0. *)
Fixpoint mantissa_is_zero (n : jsstring) : bool :=
  match n with
  | [] => true
  | c :: n' =>
      if ((c =? 101) || (c =? 69))%N then true
      else (negb (is_digit c) || (c =? 48)%N) && mantissa_is_zero n'
  end.

Definition literal_numbers : Float64 :=
  {| Number_toString := fun n => n;
     Number_isFinite := fun _ => true;
     Number_toBoolean := fun n => negb (mantissa_is_zero n) |}.

(** The world of a first start: no history file, nothing logged. *)
Definition fresh : World :=
  {| history_file := None; dashboard_file := None; logs := [];
     nextRunTime := None; currentGeneration := VString []; outbox := [] |}.

(** * Notions used in the statements *)

(** What the extraction reads in the value JSON.parse returned (or in its
    exception): the [news] array of an object, else nothing. *)
Definition news_array (parsed : completion jsval) : option (list jsval) :=
  match parsed with
  | Normal (VObject o) =>
      match get_own o (js "news") with
      | Some (VArray items) => Some items
      | _ => None
      end
  | _ => None
  end.

(** The response of the specification's example: prose, a fence with the
    json tag, the object, the closing fence, prose. *)
Definition fenced_response : jsstring :=
  js "Sure! ```json" ++ nl
  ++ quoted [js "{"; js "news"; js ":[{"; js "title"; js ":"; js "A"; js ",";
             js "summary"; js ":"; js "B"; js ","; js "category"; js ":";
             js "good"; js "}]}"] ++ nl
  ++ js "```" ++ nl
  ++ js "Hope that helps!".

(** A response without any brace. *)
Definition no_json_here : jsstring := js "no json here".

(** A response that is an object without a [news] property. *)
Definition foo_object : jsstring := quoted [js "{"; js "foo"; js ": 1}"].

(** The test of the filters of generateHtml, [item.type === t], on an item
    whose properties can be read. *)
Definition has_type (t : jsstring) (item : jsval) : bool :=
  match get_prop item (js "type") with
  | Normal ty => is_string t ty
  | Throw _ => false
  end.

(** An item on which a property can be read: anything but null and
    undefined. *)
Definition readable (item : jsval) : bool :=
  match item with
  | VUndefined | VNull => false
  | _ => true
  end.

(** A computation that leaves both history files as they are. *)
Definition keeps_files {A : Type} (m : M A) : Prop :=
  forall w, history_file (snd (m w)) = history_file w
            /\ dashboard_file (snd (m w)) = dashboard_file w.

(** A computation that never throws. *)
Definition returns {A : Type} (m : M A) : Prop :=
  forall w, exists a, fst (m w) = Normal a.

(** The world after [log m t]. *)
Definition logged (m : log_message) (t : log_type) (w : World) : World :=
  snd (log m t w).

(** The first statements of runBot, index.js:294-298: what the cycle
    obtains from fetchNews. *)
Definition cycle_news `{Float64} (c : Cycle) : M (option (list jsval)) :=
  log (Msg (js "--------------------------------------------------")) TInfo ;;;
  log (Msg (js "Bot Routine Started")) TInfo ;;;
  pastHeadlines <- getPastHeadlines ;;
  fetchNews pastHeadlines (generator c).

(** The end of runBot, index.js:309-312. *)
Definition schedule_next (c : Cycle) : M unit :=
  set_nextRunTime (now c + 10 * 60000) ;;;
  log (Msg (js "Routine finished. Waiting for next schedule...")) TInfo.

(** The branch of runBot without news, index.js:305-307, and the end. *)
Definition skip_cycle (c : Cycle) : M unit :=
  log (Msg (js "No valid news found or API error.")) TInfo ;;;
  schedule_next c.

(** The branch with news, index.js:300-304, and the end. *)
Definition deliver `{Float64} (c : Cycle) (newsItems : list jsval) : M unit :=
  (html <- lift (generateHtml (date c) newsItems) ;;
   sendEmail html (mail c) ;;;
   saveHeadlines newsItems ;;;
   log (Msg (js "Saved new headlines to history.")) TSuccess) ;;;
  schedule_next c.

(** The result of fetchNews in terms of its inputs. *)
Definition fetched `{Float64} (pastHeadlines : jsval) (g : generator_outcome)
  : option (list jsval) :=
  match Array_join pastHeadlines (js ", "), g with
  | Normal _, Response data =>
      match response_content data with
      | Normal (VString text) => news_array (JSON_parse (clean text))
      | _ => None
      end
  | _, _ => None
  end.

(** The generator call failed: the request was rejected, or the answer
    has no text at [choices[0].message.content]. *)
Definition generator_failed `{Float64} (g : generator_outcome) : bool :=
  match g with
  | NetworkFailure | HttpError _ => true
  | Response data =>
      match response_content data with
      | Normal (VString _) => false
      | _ => true
      end
  end.

(** A news record as the prompt asks for it, index.js:147-151. *)
Definition news_record (title summary type : jsstring) : jsval :=
  VObject [(js "title", VString title);
           (js "summary", VString summary);
           (js "type", VString type)].

(** A world in which neither history file holds JSON. *)
Definition corrupt_stores : World :=
  {| history_file := Some (js "oops"); dashboard_file := Some (js "oops"); logs := [];
     nextRunTime := None; currentGeneration := VString []; outbox := [] |}.

(** String.prototype.includes *)
Fixpoint includes (pat s : jsstring) : bool :=
  starts_with pat s
  || match s with
     | [] => false
     | _ :: s' => includes pat s'
     end.

(** The last [n] elements of a list (all of it when it is shorter). *)
Definition lastn {A : Type} (n : nat) (l : list A) : list A :=
  skipn (length l - n) l.

(** What getPastHeadlines makes of the headline file. *)
Definition headlines_of (file : option jsstring) : jsval :=
  match file with
  | None => VArray []
  | Some t =>
      match JSON_parse t with
      | Normal v => v
      | Throw _ => VArray []
      end
  end.

(** What saveHeadlines makes of the digest file, index.js:104-107. *)
Definition digest_of (file : option jsstring) : completion jsval :=
  match file with
  | None => Normal (VArray [])
  | Some t => JSON_parse t
  end.

(** [item.title], [undefined] included. *)
Definition title_of (item : jsval) : jsval :=
  match get_prop item (js "title") with
  | Normal v => v
  | Throw _ => VUndefined
  end.

(** The two files after saveHeadlines, from the two files before and the
    items, index.js:93-115 read as a function. *)
Definition saved_files `{Float64} (h d : option jsstring) (items : list jsval)
  : option jsstring * option jsstring :=
  match sequence (map (fun n => get_prop n (js "title")) items) with
  | Throw _ => (h, d)
  | Normal titles =>
      match spread (headlines_of h) with
      | Throw _ => (h, d)
      | Normal old =>
          let h' := JSON_stringify (VArray (lastn 50 (old ++ titles))) in
          match cbind (digest_of d) spread with
          | Throw _ => (h', d)
          | Normal old' => (h', JSON_stringify (VArray (lastn 20 (old' ++ items))))
          end
      end
  end.

(** The items that have one of the two categories. *)
Definition categorised (item : jsval) : bool :=
  has_type (js "good") item || has_type (js "shocking") item.

(** A cycle in which the generator answers with one good record and the
    mail transport fails. *)
Definition example_content : jsstring :=
  quoted [js "{"; js "news"; js ":[{"; js "title"; js ":"; js "A"; js ",";
          js "summary"; js ":"; js "B"; js ","; js "type"; js ":";
          js "good"; js "}]}"].

(** A cycle in which the generator answers with [example_content] and the
    mail is sent. *)
Definition example_cycle : Cycle :=
  {| generator :=
       Response (VObject [(js "choices",
         VArray [VObject [(js "message",
           VObject [(js "content", VString example_content)])]])]);
     date := js "1/1/2026";
     mail := SendFailed (Error (js "connection refused"));
     now := 1000 |}.

Definition example_items : list jsval := [news_record (js "A") (js "B") (js "good")].

Definition example_html : jsstring :=
  match @generateHtml literal_numbers (js "1/1/2026") example_items with
  | Normal html => html
  | Throw _ => []
  end.

(** One more code unit in front of the text read by [parse_chars]. *)
Definition cons_parsed (c : char16) (r : option (jsstring * jsstring))
  : option (jsstring * jsstring) :=
  match r with
  | Some (str, rest) => Some (c :: str, rest)
  | None => None
  end.

(** The text JSON.stringify gives for a value at a given indentation. *)
Definition text_of `{Float64} (indent : jsstring) (v : jsval) : jsstring :=
  match serialize indent v with
  | Some t => t
  | None => js "null"
  end.

(** A value that a history file holds without loss: no [undefined], no
    number (its text depends on the engine), and in every object the
    properties in the order in which JSON.parse would create them. *)
Fixpoint storable (v : jsval) : Prop :=
  match v with
  | VNull | VBool _ | VString _ => True
  | VUndefined | VNumber _ => False
  | VArray l => fold_right (fun x P => storable x /\ P) True l
  | VObject o =>
      build_object o = o
      /\ fold_right (fun kv P => storable (snd kv) /\ P) True o
  end.

(** A bound on the nested calls the parser makes for a value. *)
Fixpoint weight (v : jsval) : nat :=
  match v with
  | VArray l => S (fold_right (fun x n => S (weight x + n)) 0 l)
  | VObject o => S (fold_right (fun kv n => S (weight (snd kv) + n)) 0 o)
  | _ => 1
  end.

(** A text of JSON white space only. *)
Definition is_space_text (s : jsstring) : Prop := forallb is_json_space s = true.

(** The text of one property of an object. *)
Definition member_text `{Float64} (inner : jsstring) (kv : jsstring * jsval) : jsstring :=
  QuoteJSONString (fst kv) ++ js ": " ++ text_of inner (snd kv).

(** The statement of the round trip for one value, as the lemmas on
    lists of values use it. *)
Definition reads_back `{Float64} (v : jsval) : Prop :=
  storable v ->
  forall indent rest f,
    is_space_text indent -> weight v <= f ->
    parse_value f (text_of indent v ++ rest) = Parsed v rest.

(** A news record of the data model: three texts. *)
Record NewsItem : Type := {
  item_title : jsstring;
  item_summary : jsstring;
  item_type : jsstring
}.

Definition item_value (n : NewsItem) : jsval :=
  news_record (item_title n) (item_summary n) (item_type n).

(** The card of a record. *)
Definition card (color : jsstring) (n : NewsItem) : jsstring :=
  card_open ++ color ++ card_before_title ++ item_title n
  ++ card_before_summary ++ item_summary n ++ card_close.

(** A section over records. *)
Definition section_of (heading close color : jsstring) (l : list NewsItem) : jsstring :=
  match l with
  | [] => []
  | _ :: _ => heading ++ concat (map (card color) l) ++ close
  end.

(** The records of one type. *)
Definition of_type (t : jsstring) (l : list NewsItem) : list NewsItem :=
  filter (fun n => str_eqb (item_type n) t) l.

(** The worlds after a sequence of calls of saveHeadlines, one per batch
    of records. *)
Definition save_all `{Float64} (batches : list (list NewsItem)) (w : World) : World :=
  fold_left (fun w b => snd (saveHeadlines (map item_value b) w)) batches w.

(** Both files read as the most recent part of what was appended. *)
Definition stores_hold (w : World) (appended : list NewsItem) : Prop :=
  headlines_of (history_file w)
  = VArray (map VString (lastn 50 (map item_title appended)))
  /\ digest_of (dashboard_file w)
     = Normal (VArray (map item_value (lastn 20 appended))).

(** A cycle whose request to the generator fails without an answer. *)
Definition failing_cycle : Cycle :=
  {| generator := NetworkFailure; date := js "1/1/2026";
     mail := Sent (js "id"); now := 1000 |}.

(** Two records of the shocking kind. *)
Definition shocking_items : list jsval :=
  [news_record (js "A") (js "B") (js "shocking");
   news_record (js "C") (js "D") (js "shocking")].

(** The inside of the object with an array of two numbers under news. *)
Definition clean_body : jsstring := quoted [[]; js "news"; js ":[1,2]"].

(** A good record, a record without type and a record of another type. *)
Definition mixed_items : list jsval :=
  [news_record (js "A") (js "B") (js "good");
   VObject [(js "title", VString (js "C")); (js "summary", VString (js "D"))];
   news_record (js "E") (js "F") (js "other")].

(** Sixty records, titled by the sixty one-letter texts from A on. *)
Definition sixty_records : list NewsItem :=
  map (fun i => {| item_title := [N.of_nat (65 + i)]; item_summary := js "s";
                   item_type := js "good" |}) (seq 0 60).

(** A cycle whose generator answers with the news list [null]. *)
Definition null_item_cycle : Cycle :=
  {| generator :=
       Response (VObject [(js "choices",
         VArray [VObject [(js "message",
           VObject [(js "content",
                     VString (quoted [js "{"; js "news"; js ":[null]}"]))])]])]);
     date := js "1/1/2026";
     mail := Sent (js "id");
     now := 1000 |}.

(** An object whose one news entry is a text with a fence inside. *)
Definition fence_in_string : jsstring :=
  quoted [js "{"; js "news"; js ":["; js "a```b"; js "]}"].

(** A computation all of whose runs relate the state before to the state
    after by [R]. *)
Definition respects {A : Type} (R : World -> World -> Prop) (m : M A) : Prop :=
  forall w, R w (snd (m w)).

(** The relations that pass through sequencing and try blocks. *)
Class Steady (R : World -> World -> Prop) : Prop := {
  steady_refl : forall w, R w w;
  steady_trans : forall w1 w2 w3, R w1 w2 -> R w2 w3 -> R w1 w3
}.

(** The log stays within its 100 entries. *)
Definition within_log_bound (w w' : World) : Prop :=
  length (logs w) <= 100 -> length (logs w') <= 100.

(** No mail is handed over and the schedule is not touched. *)
Definition same_mail (w w' : World) : Prop :=
  outbox w' = outbox w /\ nextRunTime w' = nextRunTime w.

#[export] Instance within_log_bound_steady : Steady within_log_bound.
Proof. split; unfold within_log_bound; auto. Qed.

#[export] Instance same_mail_steady : Steady same_mail.
Proof.
  split; unfold same_mail; [auto|].
  intros w1 w2 w3 [A1 A2] [B1 B2]. split; congruence.
Qed.

(** A world whose log is full: one hundred entries. *)
Definition full_log : World :=
  {| history_file := None; dashboard_file := None;
     logs := repeat {| message := Msg (js "old"); type := TInfo |} 100;
     nextRunTime := None; currentGeneration := VString []; outbox := [] |}.

(** The catch block of saveHeadlines, index.js:112-114. *)
Definition save_failed (e : js_error) : M unit :=
  log (MsgError (js "Error saving history: ") e) TError.

(** A world whose headline file holds an array and whose digest file does
    not hold JSON. *)
Definition corrupt_digest : World :=
  {| history_file := Some (js "[]"); dashboard_file := Some (js "oops"); logs := [];
     nextRunTime := None; currentGeneration := VString []; outbox := [] |}.

(** [s] does not contain the code unit [c]. *)
Definition lacks (c : char16) (s : jsstring) : bool :=
  forallb (fun x => negb (chr_eqb x c)) s.

(** The backtick, the character of a markdown fence. *)
Definition backtick : char16 := 96%N.

(** The text fetchNews shows while the request is on its way,
    index.js:121. *)
Definition thinking : jsval :=
  VString (js "AI is thinking and searching for news... (Streaming disabled for stability)").


(** A world whose headline file holds an object, not an array. *)
Definition object_history : World :=
  {| history_file := Some (js "{}"); dashboard_file := None; logs := [];
     nextRunTime := None; currentGeneration := VString []; outbox := [] |}.

(** An envelope whose content is a sentence, not JSON. *)
Definition prose_answer : jsval :=
  VObject [(js "choices",
    VArray [VObject [(js "message",
      VObject [(js "content", VString (js "sorry, no news"))])]])].

(** An entry of the kind info. *)
Definition info (text : jsstring) : LogEntry := {| message := Msg text; type := TInfo |}.




(** The entry sendEmail logs for what the transport answered,
    index.js:286-288. *)
Definition mail_entry (m : mail_outcome) : LogEntry :=
  match m with
  | Sent messageId =>
      {| message := MsgValue (js "Email sent successfully! ID: ") messageId;
         type := TSuccess |}
  | SendFailed e =>
      {| message := MsgError (js "Error sending email: ") e; type := TError |}
  end.

(** The calls of runBot that the start and the schedule make
    (index.js:316-326), one after the other, each ended before the next
    begins; a call that throws is the last one. *)
Fixpoint run_cycles `{Float64} (cycles : list Cycle) : M unit :=
  match cycles with
  | [] => ret tt
  | c :: rest => runBot c ;;; run_cycles rest
  end.

(** What the generator of a cycle has for fetchNews when the past
    headlines print: the records [b], or nothing at all ([b] is then
    empty). *)
Definition yields `{Float64} (c : Cycle) (b : list NewsItem) : Prop :=
  fetched (VArray []) (generator c) = Some (map item_value b)
  \/ (fetched (VArray []) (generator c) = None /\ b = []).

(** The record of [example_content]. *)
Definition example_record : NewsItem :=
  {| item_title := js "A"; item_summary := js "B"; item_type := js "good" |}.

(** The two texts a card prints for an item, index.js:222-223:
    [item.title] and [item.summary] as the template literal converts
    them. *)
Definition card_texts `{Float64} (item : jsval) : completion (jsstring * jsstring) :=
  let! title := get_prop item (js "title") in
  let! title := ToString title in
  let! summary := get_prop item (js "summary") in
  let! summary := ToString summary in
  Normal (title, summary).

(** The records of [shocking_items]. *)
Definition shocking_records : list NewsItem :=
  [{| item_title := js "A"; item_summary := js "B"; item_type := js "shocking" |};
   {| item_title := js "C"; item_summary := js "D"; item_type := js "shocking" |}].

(** A record without [type]. *)
Definition untyped_record : jsval :=
  VObject [(js "title", VString (js "C")); (js "summary", VString (js "D"))].

(** * Properties *)

(** ** Extraction *)

Lemma parse_news_spec `{Float64} (text : jsstring) :
  match parse_news text with
  | Normal items => news_array (JSON_parse text) = Some items
  | Throw _ => news_array (JSON_parse text) = None
  end.
Proof.
  unfold parse_news, news_array.
  destruct (JSON_parse text) as [v|e]; simpl; [|reflexivity].
  destruct v as [| |b|n|s|l|o]; simpl; try reflexivity.
  destruct (get_own o (js "news")) as [x|]; simpl; [|reflexivity].
  destruct x as [| |b|n|s|l|o']; simpl; try reflexivity.
  - destruct b; reflexivity.
  - destruct (Number_toBoolean n); reflexivity.
  - destruct s; reflexivity.
Qed.

Lemma extract_spec `{Float64} (text : jsstring) (w : World) :
  fst (extract text w) = Normal (news_array (JSON_parse (clean text))).
Proof.
  unfold extract, try_catch, bind, lift, ret.
  pose proof (parse_news_spec (clean text)) as P.
  destruct (parse_news (clean text)); simpl; rewrite P; reflexivity.
Qed.

Lemma fetchNews_returns `{Float64} (p : jsval) (g : generator_outcome) (w : World) :
  exists r, fst (fetchNews p g w) = Normal r.
Proof.
  unfold fetchNews, try_catch.
  match goal with |- context [match ?b w with _ => _ end] => destruct (b w) as [[r|e] w'] end.
  - exists r. reflexivity.
  - exists None. destruct e as [| | m | [st|]]; reflexivity.
Qed.

(** C4. The response "Sure!", a json fence around the object with one
    news record of title A, "Hope that helps!": the extraction returns
    the array of that one record, whose title is A. *)
Theorem extract_fenced_response `{Float64} (w : World) :
  fst (extract fenced_response w)
  = Normal (Some [VObject [(js "title", VString (js "A"));
                           (js "summary", VString (js "B"));
                           (js "category", VString (js "good"))]]).
Proof. rewrite extract_spec. vm_compute. reflexivity. Qed.

(** C5. The extraction returns the array only when JSON.parse gave an
    object whose [news] property is an array; in every other case (the
    parse throws, the value is not an object, [news] is missing or not an
    array) it returns the sentinel [null], and fetchNews as a whole never
    throws to its caller.  In particular "no json here" and the object
    with the only key foo give the sentinel. *)
Theorem extract_failure_sentinel `{Float64} :
  (forall text w, fst (extract text w) = Normal (news_array (JSON_parse (clean text))))
  /\ (forall p g w, exists r, fst (fetchNews p g w) = Normal r)
  /\ (forall w, fst (extract no_json_here w) = Normal None)
  /\ (forall w, fst (extract foo_object w) = Normal None).
Proof.
  split; [exact extract_spec|].
  split; [exact fetchNews_returns|].
  split; intros w; rewrite extract_spec; vm_compute; reflexivity.
Qed.

(** ** Rendering *)

Lemma get_prop_readable (item : jsval) (k : jsstring) :
  readable item = true -> exists v, get_prop item k = Normal v.
Proof. destruct item; simpl; intros E; try discriminate; eauto. Qed.

Lemma filter_type_readable (t : jsstring) (items : list jsval) :
  forallb readable items = true ->
  filter_type t items = Normal (filter (has_type t) items).
Proof.
  induction items as [|item rest IH]; simpl; intros E; [reflexivity|].
  apply andb_prop in E as [E1 E2].
  unfold has_type.
  destruct (get_prop_readable item (js "type") E1) as [ty ->].
  cbn [cbind]. rewrite (IH E2). cbn [cbind].
  destruct (is_string t ty); reflexivity.
Qed.

Lemma section_nil (heading close color : jsstring) `{Float64} :
  section heading close color [] = Normal [].
Proof. reflexivity. Qed.

Lemma section_cons (heading close color : jsstring) `{Float64}
      (item : jsval) (rest : list jsval) :
  section heading close color (item :: rest)
  = let! cards := sequence (map (fun i => createCard i color) (item :: rest)) in
    Normal (heading ++ concat cards ++ close).
Proof. reflexivity. Qed.

Lemma createCard_texts `{Float64} (item : jsval) (color : jsstring) :
  createCard item color
  = let! ts := card_texts item in
    Normal (card_open ++ color ++ card_before_title ++ fst ts
            ++ card_before_summary ++ snd ts ++ card_close).
Proof.
  unfold createCard, card_texts.
  destruct (get_prop item (js "title")) as [t|e]; [|reflexivity]. cbn [cbind].
  destruct (ToString t) as [title|e]; [|reflexivity]. cbn [cbind].
  destruct (get_prop item (js "summary")) as [u|e]; [|reflexivity]. cbn [cbind].
  destruct (ToString u) as [summary|e]; reflexivity.
Qed.

Lemma cards_texts `{Float64} (color : jsstring) (items : list jsval) :
  sequence (map (fun item => createCard item color) items)
  = let! texts := sequence (map card_texts items) in
    Normal (map (fun ts => card_open ++ color ++ card_before_title ++ fst ts
                           ++ card_before_summary ++ snd ts ++ card_close) texts).
Proof.
  induction items as [|item rest IH]; [reflexivity|].
  cbn [map sequence]. rewrite createCard_texts, IH.
  destruct (card_texts item) as [ts|e]; [|reflexivity]. cbn [cbind].
  destruct (sequence (map card_texts rest)) as [texts|e]; reflexivity.
Qed.

Lemma sequence_each {A B : Type} (f : A -> completion B) (l : list A) (r : list B) :
  sequence (map f l) = Normal r -> Forall2 (fun a b => f a = Normal b) l r.
Proof.
  revert r. induction l as [|a l IH]; intros r E.
  - injection E as <-. constructor.
  - cbn [map sequence] in E. destruct (f a) as [b|e] eqn:F; [|discriminate E].
    destruct (sequence (map f l)) as [r'|e]; [|discriminate E].
    injection E as <-. constructor; [exact F|exact (IH r' eq_refl)].
Qed.

Lemma card_texts_record `{Float64} (l : list NewsItem) :
  sequence (map card_texts (map item_value l))
  = Normal (map (fun n => (item_title n, item_summary n)) l).
Proof.
  induction l as [|n l IH]; [reflexivity|].
  cbn [map sequence]. cbn [map] in IH. rewrite IH. reflexivity.
Qed.

(** C7. A list of items that all have the category shocking (their
    [type] is the string shocking) renders as the document with nothing
    at the place of the good section, and at the place of the shocking
    section its heading followed by one card per item, in the order of
    the list: the card of an item is the card markup in the colour of the
    section around the text of its title and the text of its summary.
    (The document is an equation of completions: when a title or a
    summary has no text, neither side is a document.)  For records whose
    fields are texts the document is always there, with the cards of the
    records. *)
Theorem generateHtml_shocking_only `{Float64} (date : jsstring) (items : list jsval) :
  items <> [] ->
  Forall (fun item => get_prop item (js "type") = Normal (VString (js "shocking"))) items ->
  filter_type (js "good") items = Normal []
  /\ filter_type (js "shocking") items = Normal items
  /\ generateHtml date items
     = (let! texts := sequence (map card_texts items) in
        Normal (doc_before_logo ++ LOGO_URL ++ doc_before_date ++ date ++ doc_before_good
                ++ doc_between_sections
                ++ (shocking_heading
                    ++ concat (map (fun ts => card_open ++ js "#c0392b" ++ card_before_title
                                              ++ fst ts ++ card_before_summary ++ snd ts
                                              ++ card_close) texts)
                    ++ shocking_close)
                ++ doc_after_shocking))
  /\ (forall texts,
        sequence (map card_texts items) = Normal texts ->
        Forall2 (fun item ts => card_texts item = Normal ts) items texts)
  /\ (forall records,
        items = map item_value records ->
        generateHtml date items
        = Normal (doc_before_logo ++ LOGO_URL ++ doc_before_date ++ date ++ doc_before_good
                  ++ doc_between_sections
                  ++ (shocking_heading ++ concat (map (card (js "#c0392b")) records)
                      ++ shocking_close)
                  ++ doc_after_shocking)).
Proof.
  intros Hne Hall.
  assert (G : filter_type (js "good") items = Normal []).
  { clear Hne. induction Hall as [|item rest Hi _ IH]; [reflexivity|].
    cbn [filter_type]. rewrite Hi. cbn [cbind]. rewrite IH. reflexivity. }
  assert (S : filter_type (js "shocking") items = Normal items).
  { clear Hne G. induction Hall as [|item rest Hi _ IH]; [reflexivity|].
    cbn [filter_type]. rewrite Hi. cbn [cbind]. rewrite IH. reflexivity. }
  assert (E : generateHtml date items
              = let! texts := sequence (map card_texts items) in
                Normal (doc_before_logo ++ LOGO_URL ++ doc_before_date ++ date
                        ++ doc_before_good ++ doc_between_sections
                        ++ (shocking_heading
                            ++ concat (map (fun ts => card_open ++ js "#c0392b"
                                                      ++ card_before_title ++ fst ts
                                                      ++ card_before_summary ++ snd ts
                                                      ++ card_close) texts)
                            ++ shocking_close)
                        ++ doc_after_shocking)).
  { unfold generateHtml. rewrite G, S. cbn [cbind].
    rewrite section_nil. cbn [cbind].
    destruct items as [|item rest]; [contradiction|].
    rewrite section_cons, cards_texts.
    destruct (sequence (map card_texts (item :: rest))); reflexivity. }
  split; [exact G|]. split; [exact S|]. split; [exact E|].
  split; [intros texts; apply sequence_each|].
  intros records ->. rewrite E, card_texts_record. cbn [cbind].
  rewrite map_map. reflexivity.
Qed.

Lemma generateHtml_shocking_only_witness :
  shocking_items <> []
  /\ Forall (fun item => get_prop item (js "type") = Normal (VString (js "shocking")))
            shocking_items
  /\ @filter_type (js "good") shocking_items = Normal []
  /\ @filter_type (js "shocking") shocking_items = Normal shocking_items
  /\ @generateHtml literal_numbers (js "1/1/2026") shocking_items
     = Normal (doc_before_logo ++ LOGO_URL ++ doc_before_date ++ js "1/1/2026"
               ++ doc_before_good ++ doc_between_sections
               ++ (shocking_heading
                   ++ concat (map (card (js "#c0392b")) shocking_records)
                   ++ shocking_close)
               ++ doc_after_shocking).
Proof.
  assert (H1 : shocking_items <> []) by discriminate.
  assert (H2 : Forall (fun item => get_prop item (js "type")
                                   = Normal (VString (js "shocking"))) shocking_items)
    by (repeat constructor).
  destruct (@generateHtml_shocking_only literal_numbers (js "1/1/2026")
              shocking_items H1 H2) as (G & S & _ & _ & R).
  exact (conj H1 (conj H2 (conj G (conj S (R shocking_records eq_refl))))).
Defined.

(** ** The run cycle *)

Lemma keeps_files_bind {A B : Type} (m : M A) (k : A -> M B) :
  keeps_files m -> (forall a, keeps_files (k a)) -> keeps_files (bind m k).
Proof.
  intros Hm Hk w. unfold bind. specialize (Hm w).
  destruct (m w) as [[a|e] w1]; simpl in *.
  - destruct (Hk a w1) as [H1 H2]. destruct Hm as [H3 H4].
    split; congruence.
  - exact Hm.
Qed.

Lemma keeps_files_try_catch {A : Type} (m : M A) (h : js_error -> M A) :
  keeps_files m -> (forall e, keeps_files (h e)) -> keeps_files (try_catch m h).
Proof.
  intros Hm Hh w. unfold try_catch. specialize (Hm w).
  destruct (m w) as [[a|e] w1]; simpl in *.
  - exact Hm.
  - destruct (Hh e w1) as [H1 H2]. destruct Hm as [H3 H4].
    split; congruence.
Qed.

Lemma keeps_files_ret {A : Type} (a : A) : keeps_files (ret a).
Proof. intros w. split; reflexivity. Qed.

Lemma keeps_files_lift {A : Type} (c : completion A) : keeps_files (lift c).
Proof. intros w. split; reflexivity. Qed.

Lemma keeps_files_log (m : log_message) (t : log_type) : keeps_files (log m t).
Proof. intros w. split; reflexivity. Qed.

Lemma keeps_files_set_currentGeneration (g : jsval) :
  keeps_files (set_currentGeneration g).
Proof. intros w. split; reflexivity. Qed.

Lemma keeps_files_set_nextRunTime (t : Z) : keeps_files (set_nextRunTime t).
Proof. intros w. split; reflexivity. Qed.

Lemma keeps_files_push_outbox (html : jsstring) : keeps_files (push_outbox html).
Proof. intros w. split; reflexivity. Qed.

Lemma keeps_files_existsSync (f : file_name) : keeps_files (existsSync f).
Proof. intros w. split; reflexivity. Qed.

Lemma keeps_files_readFileSync (f : file_name) : keeps_files (readFileSync f).
Proof. intros w. split; reflexivity. Qed.

Create HintDb frame.
#[export] Hint Resolve keeps_files_ret keeps_files_lift keeps_files_log
  keeps_files_set_currentGeneration keeps_files_set_nextRunTime
  keeps_files_push_outbox keeps_files_existsSync keeps_files_readFileSync : frame.

Ltac frame :=
  repeat first
    [ solve [auto with frame]
    | apply keeps_files_bind; [|intros ?; cbv beta]
    | apply keeps_files_try_catch; [|intros ?; cbv beta]
    | match goal with
      | |- keeps_files (if ?b then _ else _) => destruct b
      | |- keeps_files (match ?x with _ => _ end) => destruct x
      end ].

Lemma keeps_files_getPastHeadlines : keeps_files getPastHeadlines.
Proof. unfold getPastHeadlines. frame. Qed.

Lemma keeps_files_extract `{Float64} (text : jsstring) : keeps_files (extract text).
Proof. unfold extract. frame. Qed.

Lemma keeps_files_fetchNews `{Float64} (p : jsval) (g : generator_outcome) :
  keeps_files (fetchNews p g).
Proof. unfold fetchNews. frame. Qed.

Lemma keeps_files_sendEmail (html : jsstring) (m : mail_outcome) :
  keeps_files (sendEmail html m).
Proof. unfold sendEmail. frame. Qed.

(** What getPastHeadlines comes to in each state of the history file. *)
Lemma getPastHeadlines_spec (w : World) :
  getPastHeadlines w
  = match history_file w with
    | None => (Normal (VArray []), w)
    | Some t =>
        match JSON_parse t with
        | Normal v => (Normal v, w)
        | Throw e =>
            (Normal (VArray []),
             snd (log (MsgError (js "Error reading history file: ") e) TError w))
        end
    end.
Proof.
  unfold getPastHeadlines, try_catch, bind, existsSync, readFileSync, lift.
  destruct (history_file w) as [t|] eqn:E; simpl; [|reflexivity].
  rewrite E. destruct (JSON_parse t); reflexivity.
Qed.

Lemma getPastHeadlines_returns : returns getPastHeadlines.
Proof.
  intros w. rewrite getPastHeadlines_spec.
  destruct (history_file w) as [t|]; [|eexists; reflexivity].
  destruct (JSON_parse t); eexists; reflexivity.
Qed.

Lemma log_spec (m : log_message) (t : log_type) (w : World) :
  log m t w = (Normal tt, logged m t w).
Proof. reflexivity. Qed.

Lemma bind_log {B : Type} (m : log_message) (t : log_type) (k : unit -> M B) (w : World) :
  bind (log m t) k w = k tt (logged m t w).
Proof. reflexivity. Qed.

Lemma logged_frame (m : log_message) (t : log_type) (w : World) :
  history_file (logged m t w) = history_file w
  /\ dashboard_file (logged m t w) = dashboard_file w
  /\ nextRunTime (logged m t w) = nextRunTime w
  /\ currentGeneration (logged m t w) = currentGeneration w
  /\ outbox (logged m t w) = outbox w.
Proof. repeat split. Qed.

Lemma runBot_split `{Float64} (c : Cycle) (w : World) :
  runBot c w
  = match cycle_news c w with
    | (Normal (Some ((_ :: _) as newsItems)), w1) => deliver c newsItems w1
    | (Normal _, w1) => skip_cycle c w1
    | (Throw e, w1) => (Throw e, w1)
    end.
Proof.
  unfold runBot, cycle_news.
  rewrite !bind_log.
  set (w2 := logged _ _ (logged _ _ w)).
  unfold bind.
  destruct (getPastHeadlines w2) as [[p|e] w3]; [|reflexivity].
  destruct (fetchNews p (generator c) w3) as [[[[|x l]|]|e] w4]; reflexivity.
Qed.

#[export] Hint Resolve keeps_files_getPastHeadlines keeps_files_sendEmail : frame.
#[export] Hint Extern 1 (keeps_files (fetchNews _ _)) => apply keeps_files_fetchNews : frame.
#[export] Hint Extern 1 (keeps_files (extract _)) => apply keeps_files_extract : frame.

Lemma keeps_files_cycle_news `{Float64} (c : Cycle) : keeps_files (cycle_news c).
Proof. unfold cycle_news. frame. Qed.

Lemma fetchNews_result `{Float64} (p : jsval) (g : generator_outcome) (w : World) :
  fst (fetchNews p g w) = Normal (fetched p g).
Proof.
  unfold fetchNews, fetched, try_catch. rewrite bind_log.
  unfold bind at 1. cbn [set_currentGeneration].
  unfold bind at 1. cbn [lift].
  destruct (Array_join p (js ", ")) as [ex|e].
  2:{ destruct e as [| | m | [st|]]; reflexivity. }
  destruct g as [| st | data]; try reflexivity.
  unfold bind at 1. cbn [ret].
  unfold bind at 1. cbn [lift].
  destruct (response_content data) as [v|e].
  2:{ destruct e as [| | m | [st|]]; reflexivity. }
  unfold bind at 1. cbn [set_currentGeneration].
  rewrite bind_log.
  destruct v as [| |b|n|text|l|o]; try reflexivity.
  match goal with |- context [extract text ?w'] =>
    pose proof (extract_spec text w') as E; destruct (extract text w') as [[r|e] w''] end.
  - simpl in E. simpl. exact E.
  - simpl in E. discriminate E.
Qed.

Lemma fetched_failed `{Float64} (p : jsval) (g : generator_outcome) :
  generator_failed g = true -> fetched p g = None.
Proof.
  unfold fetched, generator_failed.
  destruct (Array_join p (js ", ")); [|reflexivity].
  destruct g as [| st | data]; try reflexivity.
  destruct (response_content data) as [v|e]; [|reflexivity].
  destruct v; try reflexivity. discriminate.
Qed.

Lemma cycle_news_result `{Float64} (c : Cycle) (w : World) :
  exists p, fst (cycle_news c w) = Normal (fetched p (generator c)).
Proof.
  unfold cycle_news. rewrite !bind_log. unfold bind.
  match goal with |- context [getPastHeadlines ?w2] =>
    destruct (getPastHeadlines_returns w2) as [p Hp];
    destruct (getPastHeadlines w2) as [[p'|e] w3]; simpl in Hp; [|discriminate Hp] end.
  exists p'. apply fetchNews_result.
Qed.

Lemma skip_cycle_spec (c : Cycle) (w : World) :
  fst (skip_cycle c w) = Normal tt
  /\ history_file (snd (skip_cycle c w)) = history_file w
  /\ dashboard_file (snd (skip_cycle c w)) = dashboard_file w
  /\ nextRunTime (snd (skip_cycle c w)) = Some (now c + 10 * 60000)%Z.
Proof. repeat split. Qed.

(** A cycle without news: the files stay and the next run is scheduled. *)
Lemma runBot_skips `{Float64} (c : Cycle) (w : World) :
  fst (cycle_news c w) = Normal None \/ fst (cycle_news c w) = Normal (Some []) ->
  fst (runBot c w) = Normal tt
  /\ history_file (snd (runBot c w)) = history_file w
  /\ dashboard_file (snd (runBot c w)) = dashboard_file w
  /\ nextRunTime (snd (runBot c w)) = Some (now c + 10 * 60000)%Z.
Proof.
  intros Hn. rewrite runBot_split.
  destruct (keeps_files_cycle_news c w) as [K1 K2].
  destruct (cycle_news c w) as [[r|e] w1]; simpl in *.
  - destruct (skip_cycle_spec c w1) as (S1 & S2 & S3 & S4).
    assert (R : r = None \/ r = Some []) by (destruct Hn as [E|E]; inversion E; auto).
    destruct R as [-> | ->]; repeat split; congruence.
  - destruct Hn as [E|E]; discriminate E.
Qed.

(** C2. When the generator call fails (the request is rejected, with or
    without a status, or the envelope has no text content), or the
    extraction gives nothing or an empty list, the cycle ends normally,
    both history files are what they were, and nextRunTime is the time
    read at the end of the cycle plus ten minutes. *)
Theorem runBot_failed_generation `{Float64} (c : Cycle) (w : World) :
  generator_failed (generator c) = true
  \/ fst (cycle_news c w) = Normal None
  \/ fst (cycle_news c w) = Normal (Some []) ->
  fst (runBot c w) = Normal tt
  /\ history_file (snd (runBot c w)) = history_file w
  /\ dashboard_file (snd (runBot c w)) = dashboard_file w
  /\ nextRunTime (snd (runBot c w)) = Some (now c + 10 * 60000)%Z.
Proof.
  intros [Hg | Hn]; apply runBot_skips; [|exact Hn].
  left. destruct (cycle_news_result c w) as [p ->].
  rewrite (fetched_failed p _ Hg). reflexivity.
Qed.

Lemma runBot_failed_generation_witness :
  (@generator_failed literal_numbers (generator failing_cycle) = true
   \/ fst (@cycle_news literal_numbers failing_cycle fresh) = Normal None
   \/ fst (@cycle_news literal_numbers failing_cycle fresh) = Normal (Some []))
  /\ (fst (@runBot literal_numbers failing_cycle fresh) = Normal tt
      /\ history_file (snd (@runBot literal_numbers failing_cycle fresh))
         = history_file fresh
      /\ dashboard_file (snd (@runBot literal_numbers failing_cycle fresh))
         = dashboard_file fresh
      /\ nextRunTime (snd (@runBot literal_numbers failing_cycle fresh))
         = Some (now failing_cycle + 10 * 60000)%Z).
Proof.
  assert (H : @generator_failed literal_numbers (generator failing_cycle) = true
              \/ fst (@cycle_news literal_numbers failing_cycle fresh) = Normal None
              \/ fst (@cycle_news literal_numbers failing_cycle fresh) = Normal (Some []))
    by (left; reflexivity).
  exact (conj H (@runBot_failed_generation literal_numbers failing_cycle fresh H)).
Defined.

(** An item on which no property can be read stops the cycle in
    generateHtml, outside every try block: runBot throws, nothing is
    mailed or persisted and nextRunTime keeps its value. *)
Lemma runBot_null_item `{Float64} :
  fst (cycle_news null_item_cycle fresh) = Normal (Some [VNull])
  /\ fst (runBot null_item_cycle fresh) = Throw TypeError
  /\ history_file (snd (runBot null_item_cycle fresh)) = None
  /\ dashboard_file (snd (runBot null_item_cycle fresh)) = None
  /\ outbox (snd (runBot null_item_cycle fresh)) = []
  /\ nextRunTime (snd (runBot null_item_cycle fresh)) = None.
Proof. vm_compute. repeat split. Qed.

(** ** Reading a history file that does not parse *)

(** C3. With history files that do not parse, getPastHeadlines answers
    with the empty history and so does the reader of the dashboard;
    saveHeadlines takes the headline history as empty and writes the new
    title, but its own read of the digest file throws into the catch
    block: the new item is not added to the digest history and the file
    keeps its unparsable text. *)
Theorem saveHeadlines_corrupt_digest `{Float64} :
  let item := news_record (js "A") (js "B") (js "good") in
  let w := snd (saveHeadlines [item] corrupt_stores) in
  fst (getPastHeadlines corrupt_stores) = Normal (VArray [])
  /\ fst (api_data_history corrupt_stores) = Normal (VArray [])
  /\ fst (saveHeadlines [item] corrupt_stores) = Normal tt
  /\ history_file w = JSON_stringify (VArray [VString (js "A")])
  /\ dashboard_file w = Some (js "oops")
  /\ dashboard_file w <> JSON_stringify (VArray [item])
  /\ map type (logs w) = [TError; TError].
Proof. vm_compute. repeat split. discriminate. Qed.

(** ** Extraction of a text that is already clean *)

Lemma starts_with_app (p q s : jsstring) :
  starts_with (p ++ q) s = true -> starts_with p s = true.
Proof.
  revert s. induction p as [|x p IH]; intros s E; [reflexivity|].
  destruct s as [|y s]; simpl in *; [discriminate|].
  apply andb_prop in E as [E1 E2]. rewrite E1. exact (IH _ E2).
Qed.

Lemma includes_longer (p q s : jsstring) :
  includes p s = false -> includes (p ++ q) s = false.
Proof.
  induction s as [|c s IH]; simpl; intros E.
  - apply orb_false_elim in E as [E _].
    destruct (starts_with (p ++ q) []) eqn:S; [|reflexivity].
    apply starts_with_app in S. congruence.
  - apply orb_false_elim in E as [E1 E2].
    destruct (starts_with (p ++ q) (c :: s)) eqn:S.
    + apply starts_with_app in S. congruence.
    + simpl. exact (IH E2).
Qed.

Lemma remove_all_absent (pat s : jsstring) :
  includes pat s = false -> remove_all pat s = s.
Proof.
  unfold remove_all. induction s as [|c s IH]; intros E; [reflexivity|].
  cbn [includes] in E. apply orb_false_elim in E as [E1 E2].
  cbn [remove_from]. rewrite E1. f_equal. exact (IH E2).
Qed.

Lemma trim_start_head (c : char16) (s : jsstring) :
  is_js_space c = false -> trim_start (c :: s) = c :: s.
Proof. intros E. simpl. rewrite E. reflexivity. Qed.

Lemma trim_enclosed (c d : char16) (body : jsstring) :
  is_js_space c = false -> is_js_space d = false ->
  trim (c :: body ++ [d]) = c :: body ++ [d].
Proof.
  intros Hc Hd. unfold trim, trim_end.
  rewrite (trim_start_head _ _ Hc).
  change (c :: body ++ [d]) with ((c :: body) ++ [d]).
  rewrite rev_app_distr. cbn [rev app].
  rewrite (trim_start_head _ _ Hd).
  change (d :: rev body ++ [c]) with ([d] ++ rev (c :: body)).
  rewrite rev_app_distr, rev_involutive. reflexivity.
Qed.

Lemma indexOf_head (c : char16) (s : jsstring) : indexOf c (c :: s) = 0%Z.
Proof. simpl. unfold chr_eqb. rewrite N.eqb_refl. reflexivity. Qed.

Lemma lastIndexOf_last (c : char16) (s : jsstring) :
  lastIndexOf c (s ++ [c]) = Z.of_nat (length s).
Proof.
  induction s as [|x s IH].
  - simpl. unfold chr_eqb. rewrite N.eqb_refl. reflexivity.
  - cbn [app lastIndexOf]. rewrite IH.
    destruct (0 <=? Z.of_nat (length s))%Z eqn:E.
    + cbn [length]. rewrite Nat2Z.inj_succ. reflexivity.
    + apply Z.leb_gt in E. pose proof (Nat2Z.is_nonneg (length s)). lia.
Qed.

Lemma substring_all (s : jsstring) :
  substring s 0 (Z.of_nat (length s)) = s.
Proof.
  unfold substring, clamp.
  set (len := Z.of_nat (length s)).
  assert (L : (0 <= len)%Z) by apply Nat2Z.is_nonneg.
  replace (Z.min (Z.max 0 0) len) with 0%Z by lia.
  replace (Z.min (Z.max len 0) len) with len by lia.
  replace (Z.min 0 len) with 0%Z by lia.
  replace (Z.max 0 len - 0)%Z with len by lia.
  unfold len. rewrite Nat2Z.id. simpl. apply firstn_all.
Qed.

Lemma clean_enclosed (body : jsstring) :
  includes (js "```") (ch "{" :: body ++ [ch "}"]) = false ->
  clean (ch "{" :: body ++ [ch "}"]) = ch "{" :: body ++ [ch "}"].
Proof.
  intros Hf. unfold clean. rewrite trim_enclosed by reflexivity.
  rewrite (remove_all_absent (js "```json"))
    by (exact (includes_longer (js "```") (js "json") _ Hf)).
  rewrite (remove_all_absent _ _ Hf).
  rewrite indexOf_head.
  change (ch "{" :: body ++ [ch "}"]) with ((ch "{" :: body) ++ [ch "}"]).
  rewrite lastIndexOf_last.
  assert (L : (Z.of_nat (length (ch "{" :: body)) + 1)%Z
              = Z.of_nat (length ((ch "{" :: body) ++ [ch "}"]))).
  { rewrite length_app, Nat2Z.inj_add. reflexivity. }
  rewrite L.
  assert (E : (Z.of_nat (length (ch "{" :: body)) =? -1)%Z = false).
  { apply Z.eqb_neq. pose proof (Nat2Z.is_nonneg (length (ch "{" :: body))). lia. }
  rewrite E. cbn [Z.eqb negb andb].
  apply substring_all.
Qed.

(** C8, amended. A text that is exactly a JSON object (it opens with the brace
    and closes with the brace of the object that JSON.parse reads), with
    no fence in it and with a [news] array: the cleaning steps leave the
    text as it is, and the extraction returns that array. *)
Theorem extract_clean_object `{Float64} (body : jsstring) (o : props)
        (items : list jsval) (w : World) :
  let text := ch "{" :: body ++ [ch "}"] in
  includes (js "```") text = false ->
  JSON_parse text = Normal (VObject o) ->
  get_own o (js "news") = Some (VArray items) ->
  clean text = text /\ fst (extract text w) = Normal (Some items).
Proof.
  intros text Hf Hp Hn.
  pose proof (clean_enclosed body Hf) as C. fold text in C.
  split; [exact C|].
  rewrite extract_spec, C, Hp. simpl. rewrite Hn. reflexivity.
Qed.

Lemma extract_clean_object_witness :
  includes (js "```") (ch "{" :: clean_body ++ [ch "}"]) = false
  /\ JSON_parse (ch "{" :: clean_body ++ [ch "}"])
     = Normal (VObject [(js "news", VArray [VNumber (js "1"); VNumber (js "2")])])
  /\ fst (@extract literal_numbers (ch "{" :: clean_body ++ [ch "}"]) fresh)
     = Normal (Some [VNumber (js "1"); VNumber (js "2")]).
Proof.
  assert (H1 : includes (js "```") (ch "{" :: clean_body ++ [ch "}"]) = false)
    by reflexivity.
  assert (H2 : JSON_parse (ch "{" :: clean_body ++ [ch "}"])
               = Normal (VObject [(js "news",
                                   VArray [VNumber (js "1"); VNumber (js "2")])]))
    by reflexivity.
  exact (conj H1 (conj H2
           (proj2 (@extract_clean_object literal_numbers clean_body _ _ fresh
                     H1 H2 eq_refl)))).
Defined.

(** C8, as the claim words it, fails.  The text of the object whose
    [news] array holds the one string with three backticks in it is
    exactly a valid JSON object with a [news] array, with nothing before
    or after it; the replace of index.js:180 deletes the backticks inside
    the string, so the cleaned text is another text and the extraction
    returns the array of the string without them, not the array of the
    text. *)
Lemma extract_clean_object_counterexample :
  fence_in_string
  = ch "{" :: quoted [[]; js "news"; js ":["; js "a```b"; js "]"] ++ [ch "}"]
  /\ JSON_parse fence_in_string
     = Normal (VObject [(js "news", VArray [VString (js "a```b")])])
  /\ clean fence_in_string = quoted [js "{"; js "news"; js ":["; js "ab"; js "]}"]
  /\ clean fence_in_string <> fence_in_string
  /\ fst (@extract literal_numbers fence_in_string fresh)
     = Normal (Some [VString (js "ab")])
  /\ fst (@extract literal_numbers fence_in_string fresh)
     <> Normal (Some [VString (js "a```b")]).
Proof. vm_compute. repeat split; discriminate. Qed.


(** The replace of index.js:180 also deletes a fence inside a string
    value: the array that comes back is not the one of the text. *)
Lemma extract_fence_in_string `{Float64} (w : World) :
  news_array (JSON_parse fence_in_string) = Some [VString (js "a```b")]
  /\ fst (extract fence_in_string w) = Normal (Some [VString (js "ab")]).
Proof. split; [reflexivity|]. rewrite extract_spec. reflexivity. Qed.

(** ** Persistence *)

Lemma keep_last {A : Type} (n : nat) (l : list A) :
  (if (n <? length l)%nat then slice l (length l - n) else l) = lastn n l.
Proof.
  unfold lastn, slice. destruct (n <? length l)%nat eqn:E; [reflexivity|].
  apply Nat.ltb_ge in E. replace (length l - n)%nat with 0%nat by lia. reflexivity.
Qed.

Lemma lastn_length {A : Type} (n : nat) (l : list A) :
  length (lastn n l) = Nat.min n (length l).
Proof. unfold lastn. rewrite length_skipn. lia. Qed.

Lemma lastn_suffix {A : Type} (n : nat) (l : list A) :
  exists dropped, l = dropped ++ lastn n l.
Proof.
  exists (firstn (length l - n) l). unfold lastn.
  symmetry. apply firstn_skipn.
Qed.

Lemma getPastHeadlines_value (w : World) :
  fst (getPastHeadlines w) = Normal (headlines_of (history_file w)).
Proof.
  rewrite getPastHeadlines_spec. unfold headlines_of.
  destruct (history_file w) as [t|]; [|reflexivity].
  destruct (JSON_parse t); reflexivity.
Qed.

Lemma titles_readable (items : list jsval) :
  forallb readable items = true ->
  sequence (map (fun n => get_prop n (js "title")) items) = Normal (map title_of items).
Proof.
  induction items as [|item rest IH]; intros E; [reflexivity|].
  cbn [forallb] in E. apply andb_prop in E as [E1 E2].
  cbn [map sequence]. unfold title_of at 1.
  destruct (get_prop_readable item (js "title") E1) as [v ->].
  rewrite (IH E2). reflexivity.
Qed.

Lemma JSON_stringify_array `{Float64} (l : list jsval) :
  exists t, JSON_stringify (VArray l) = Some t.
Proof. destruct l; eexists; reflexivity. Qed.

Lemma saveHeadlines_files `{Float64} (items : list jsval) (w : World) :
  exists l,
    saveHeadlines items w
    = (Normal tt,
       {| history_file := fst (saved_files (history_file w) (dashboard_file w) items);
          dashboard_file := snd (saved_files (history_file w) (dashboard_file w) items);
          logs := l; nextRunTime := nextRunTime w;
          currentGeneration := currentGeneration w; outbox := outbox w |}).
Proof.
  unfold saveHeadlines, saved_files, try_catch.
  unfold bind at 1.
  pose proof (getPastHeadlines_value w) as V.
  pose proof (keeps_files_getPastHeadlines w) as [K1 K2].
  pose proof (getPastHeadlines_spec w) as S.
  destruct (getPastHeadlines w) as [[h|e] w1]; simpl in V, K1, K2;
    [|discriminate V].
  injection V as ->.
  assert (N : nextRunTime w1 = nextRunTime w /\ outbox w1 = outbox w
              /\ currentGeneration w1 = currentGeneration w).
  { destruct (history_file w) as [t|]; [|inversion S; auto].
    destruct (JSON_parse t); inversion S; auto. }
  destruct N as (N1 & N2 & N3).
  unfold bind at 1. cbn [lift].
  destruct (sequence (map (fun n => get_prop n (js "title")) items)) as [titles|e].
  2:{ eexists. unfold log, bind, read, set_logs. cbn [fst snd].
      rewrite K1, K2, N1, N2, N3. reflexivity. }
  unfold bind at 1. cbn [lift].
  destruct (spread (headlines_of (history_file w))) as [old|e].
  2:{ eexists. unfold log, bind, read, set_logs. cbn [fst snd].
      rewrite K1, K2, N1, N2, N3. reflexivity. }
  rewrite keep_last.
  destruct (JSON_stringify_array (lastn 50 (old ++ titles))) as [t1 E1].
  rewrite E1.
  unfold bind at 1. cbn [writeFileSync].
  unfold bind at 1. cbn [existsSync dashboard_file].
  unfold bind at 1.
  rewrite K2. unfold digest_of.
  destruct (dashboard_file w) as [t|] eqn:D.
  - unfold bind at 1. cbn [readFileSync lift dashboard_file].
    destruct (JSON_parse t) as [dv|e]; cbn [cbind].
    2:{ eexists. unfold log, bind, read, set_logs. cbn [fst snd].
        rewrite N1, N2, N3. reflexivity. }
    unfold bind at 1. cbn [lift].
    destruct (spread dv) as [old'|e].
    2:{ eexists. unfold log, bind, read, set_logs. cbn [fst snd].
        rewrite N1, N2, N3. reflexivity. }
    rewrite keep_last.
    destruct (JSON_stringify_array (lastn 20 (old' ++ items))) as [t2 E2].
    rewrite E2. cbn [writeFileSync fst snd]. exists (logs w1).
    rewrite N1, N2, N3. reflexivity.
  - cbn [ret cbind spread].
    unfold bind at 1. cbn [lift spread].
    rewrite keep_last.
    destruct (JSON_stringify_array (lastn 20 ([] ++ items))) as [t2 E2].
    rewrite E2. cbn [writeFileSync fst snd]. exists (logs w1).
    rewrite N1, N2, N3. reflexivity.
Qed.

(** saveHeadlines on stores that read as arrays, for items on which
    [title] can be read: both files are written, each with the old
    elements followed by the new ones, cut to the last 50 and 20. *)
Lemma saveHeadlines_appends `{Float64} (items oldH oldD : list jsval) (w : World) :
  forallb readable items = true ->
  headlines_of (history_file w) = VArray oldH ->
  digest_of (dashboard_file w) = Normal (VArray oldD) ->
  fst (saveHeadlines items w) = Normal tt
  /\ history_file (snd (saveHeadlines items w))
     = JSON_stringify (VArray (lastn 50 (oldH ++ map title_of items)))
  /\ dashboard_file (snd (saveHeadlines items w))
     = JSON_stringify (VArray (lastn 20 (oldD ++ items)))
  /\ nextRunTime (snd (saveHeadlines items w)) = nextRunTime w
  /\ outbox (snd (saveHeadlines items w)) = outbox w.
Proof.
  intros Hr Hh Hd. destruct (saveHeadlines_files items w) as [l ->].
  unfold saved_files. rewrite (titles_readable items Hr), Hh, Hd.
  repeat split.
Qed.

(** saveHeadlines when the digest file does not parse: the headline file
    is written and the digest file is left as it is. *)
Lemma saveHeadlines_unparsable_digest `{Float64} (items oldH : list jsval) (w : World)
      (text : jsstring) (e : js_error) :
  forallb readable items = true ->
  headlines_of (history_file w) = VArray oldH ->
  dashboard_file w = Some text ->
  JSON_parse text = Throw e ->
  history_file (snd (saveHeadlines items w))
  = JSON_stringify (VArray (lastn 50 (oldH ++ map title_of items)))
  /\ dashboard_file (snd (saveHeadlines items w)) = Some text.
Proof.
  intros Hr Hh Hd He. destruct (saveHeadlines_files items w) as [l ->].
  unfold saved_files. rewrite (titles_readable items Hr), Hh, Hd.
  cbn [digest_of spread]. rewrite He. split; reflexivity.
Qed.

Lemma sendEmail_spec (html : jsstring) (m : mail_outcome) (w : World) :
  fst (sendEmail html m w) = Normal tt
  /\ history_file (snd (sendEmail html m w)) = history_file w
  /\ dashboard_file (snd (sendEmail html m w)) = dashboard_file w
  /\ outbox (snd (sendEmail html m w))
     = match html with [] => outbox w | _ :: _ => outbox w ++ [html] end.
Proof.
  destruct html as [|c html]; [repeat split|].
  destruct m as [id|e]; repeat split.
Qed.



(** The branch with news, when the document is rendered: the files are
    those saveHeadlines leaves, whatever the mail transport answers. *)
Lemma deliver_files `{Float64} (c : Cycle) (items : list jsval) (html : jsstring)
      (w : World) :
  generateHtml (date c) items = Normal html ->
  fst (deliver c items w) = Normal tt
  /\ history_file (snd (deliver c items w))
     = fst (saved_files (history_file w) (dashboard_file w) items)
  /\ dashboard_file (snd (deliver c items w))
     = snd (saved_files (history_file w) (dashboard_file w) items)
  /\ nextRunTime (snd (deliver c items w)) = Some (now c + 10 * 60000)%Z.
Proof.
  intros Hg.
  remember (deliver c items w) as R eqn:ER.
  unfold deliver in ER. unfold bind at 1 2 in ER. cbn [lift] in ER. rewrite Hg in ER.
  unfold bind at 1 in ER.
  destruct (sendEmail_spec html (mail c) w) as (M1 & M2 & M3 & _).
  destruct (sendEmail html (mail c) w) as [[u|e] w2]; simpl in M1, M2, M3;
    [|discriminate M1].
  unfold bind at 1 in ER.
  destruct (saveHeadlines_files items w2) as [l S].
  rewrite S, M2, M3 in ER. subst R. repeat split.
Qed.

Lemma cycle_news_value `{Float64} (c : Cycle) (w : World) :
  fst (cycle_news c w) = Normal (fetched (headlines_of (history_file w)) (generator c)).
Proof.
  unfold cycle_news. rewrite !bind_log. unfold bind.
  match goal with |- context [getPastHeadlines ?w2] =>
    pose proof (getPastHeadlines_value w2) as V;
    destruct (getPastHeadlines w2) as [[p|e] w3] end;
    simpl in V; [|discriminate V].
  injection V as ->. apply fetchNews_result.
Qed.






Lemma filter_narrow {A : Type} (p q : A -> bool) (l : list A) :
  (forall x, p x = true -> q x = true) ->
  filter p (filter q l) = filter p l.
Proof.
  intros Hpq. induction l as [|x l IH]; [reflexivity|].
  cbn [filter]. destruct (q x) eqn:Q.
  - cbn [filter]. rewrite IH. reflexivity.
  - destruct (p x) eqn:P; [rewrite (Hpq x P) in Q; discriminate|exact IH].
Qed.

Lemma forallb_filter {A : Type} (p q : A -> bool) (l : list A) :
  forallb p l = true -> forallb p (filter q l) = true.
Proof.
  induction l as [|x l IH]; [reflexivity|].
  cbn [forallb filter]. intros E. apply andb_prop in E as [E1 E2].
  destruct (q x); [cbn [forallb]; rewrite E1|]; auto.
Qed.

(** C10, amended. For a list of items on which properties can be read, an item
    whose category ([type]) is neither good nor shocking, or is absent,
    is in neither of the two lists the sections are made of, and the
    document is the one rendered from the list without such items; yet
    saveHeadlines adds the title of every item of the list to the
    headline file and every item to the digest file. *)
Theorem uncategorised_items `{Float64} (date : jsstring) (items oldH oldD : list jsval)
        (w : World) :
  forallb readable items = true ->
  headlines_of (history_file w) = VArray oldH ->
  digest_of (dashboard_file w) = Normal (VArray oldD) ->
  filter_type (js "good") items = Normal (filter (has_type (js "good")) items)
  /\ filter_type (js "shocking") items = Normal (filter (has_type (js "shocking")) items)
  /\ generateHtml date items = generateHtml date (filter categorised items)
  /\ history_file (snd (saveHeadlines items w))
     = JSON_stringify (VArray (lastn 50 (oldH ++ map title_of items)))
  /\ dashboard_file (snd (saveHeadlines items w))
     = JSON_stringify (VArray (lastn 20 (oldD ++ items))).
Proof.
  intros Hr Hh Hd.
  pose proof (filter_type_readable (js "good") items Hr) as G.
  pose proof (filter_type_readable (js "shocking") items Hr) as S.
  split; [exact G|]. split; [exact S|]. split.
  - unfold generateHtml. rewrite G, S.
    pose proof (forallb_filter readable categorised items Hr) as Hr'.
    rewrite (filter_type_readable (js "good") _ Hr').
    rewrite (filter_type_readable (js "shocking") _ Hr').
    rewrite !filter_narrow; [reflexivity| |];
      intros x E; unfold categorised; rewrite E; auto using orb_true_r.
  - destruct (saveHeadlines_appends items oldH oldD w Hr Hh Hd) as (_ & S2 & S3 & _).
    split; assumption.
Qed.

Lemma uncategorised_items_witness :
  forallb readable mixed_items = true
  /\ @generateHtml literal_numbers (js "1/1/2026") mixed_items
     = @generateHtml literal_numbers (js "1/1/2026")
         [news_record (js "A") (js "B") (js "good")]
  /\ history_file (snd (@saveHeadlines literal_numbers mixed_items fresh))
     = @JSON_stringify literal_numbers
         (VArray [VString (js "A"); VString (js "C"); VString (js "E")])
  /\ dashboard_file (snd (@saveHeadlines literal_numbers mixed_items fresh))
     = @JSON_stringify literal_numbers (VArray mixed_items).
Proof.
  assert (H1 : forallb readable mixed_items = true) by reflexivity.
  destruct (@uncategorised_items literal_numbers (js "1/1/2026") mixed_items [] []
              fresh H1 eq_refl eq_refl) as (_ & _ & R & S & D).
  exact (conj H1 (conj R (conj S D))).
Defined.

(** C10, as the claim words it, fails.  In the list of a record without
    type and a null entry, the null entry makes generateHtml throw (no
    document) and makes saveHeadlines end in its catch block before the
    first write: the title of the record without type is in no store.
    With a digest file that does not parse, saveHeadlines adds the title
    of that record to the headline file and leaves the digest file as it
    is; with a headline file that holds an object, it writes neither
    file. *)
Lemma uncategorised_items_counterexample :
  @generateHtml literal_numbers (js "1/1/2026") [untyped_record; VNull] = Throw TypeError
  /\ fst (@saveHeadlines literal_numbers [untyped_record; VNull] fresh) = Normal tt
  /\ history_file (snd (@saveHeadlines literal_numbers [untyped_record; VNull] fresh))
     = None
  /\ dashboard_file (snd (@saveHeadlines literal_numbers [untyped_record; VNull] fresh))
     = None
  /\ history_file (snd (@saveHeadlines literal_numbers [untyped_record] corrupt_digest))
     = @JSON_stringify literal_numbers (VArray [VString (js "C")])
  /\ dashboard_file (snd (@saveHeadlines literal_numbers [untyped_record] corrupt_digest))
     = Some (js "oops")
  /\ history_file (snd (@saveHeadlines literal_numbers [untyped_record] object_history))
     = Some (js "{}")
  /\ dashboard_file (snd (@saveHeadlines literal_numbers [untyped_record] object_history))
     = None.
Proof. vm_compute. repeat split. Qed.


(** ** JSON.parse reads back what JSON.stringify wrote *)

Lemma hex_digit_hex_char (n : N) :
  (n < 16)%N -> hex_digit (hex_char n) = Some n.
Proof.
  intros L. unfold hex_char, hex_digit.
  destruct (N.ltb_spec n 10).
  - replace ((48 <=? 48 + n) && (48 + n <=? 57))%N with true.
    + f_equal. lia.
    + symmetry. apply andb_true_intro. split; apply N.leb_le; lia.
  - replace ((48 <=? 87 + n) && (87 + n <=? 57))%N with false.
    + replace ((65 <=? 87 + n) && (87 + n <=? 70))%N with false.
      * replace ((97 <=? 87 + n) && (87 + n <=? 102))%N with true.
        -- f_equal. lia.
        -- symmetry. apply andb_true_intro. split; apply N.leb_le; lia.
      * symmetry. apply andb_false_intro2. apply N.leb_gt. lia.
    + symmetry. apply andb_false_intro2. apply N.leb_gt. lia.
Qed.

Lemma hex4_unicode (c : char16) :
  (c < 65536)%N ->
  hex4 (hex_char (c / 4096)) (hex_char ((c / 256) mod 16))
       (hex_char ((c / 16) mod 16)) (hex_char (c mod 16)) = Some c.
Proof.
  intros L. unfold hex4.
  rewrite !hex_digit_hex_char.
  - f_equal.
    assert (E1 : (c = 16 * (c / 16) + c mod 16)%N)
      by (apply N.div_mod; discriminate).
    assert (E2 : (c / 16 = 16 * (c / 256) + (c / 16) mod 16)%N).
    { replace (c / 256)%N with (c / 16 / 16)%N
        by (rewrite N.Div0.div_div; reflexivity).
      apply N.div_mod. discriminate. }
    assert (E3 : (c / 256 = 16 * (c / 4096) + (c / 256) mod 16)%N).
    { replace (c / 4096)%N with (c / 256 / 16)%N
        by (rewrite N.Div0.div_div; reflexivity).
      apply N.div_mod. discriminate. }
    lia.
  - apply N.mod_lt. discriminate.
  - apply N.mod_lt. discriminate.
  - apply N.mod_lt. discriminate.
  - apply N.Div0.div_lt_upper_bound. exact L.
Qed.

Lemma parse_chars_plain (c : char16) (more : jsstring) :
  (c =? 34)%N = false -> (c =? 92)%N = false -> (c <? 32)%N = false ->
  parse_chars (c :: more) = cons_parsed c (parse_chars more).
Proof.
  intros E1 E2 E3. cbn [parse_chars]. rewrite E1, E2, E3. reflexivity.
Qed.

Lemma surrogate_plain (c : char16) :
  is_lead c || is_trail c = true ->
  (c =? 34)%N = false /\ (c =? 92)%N = false /\ (c <? 32)%N = false.
Proof.
  unfold is_lead, is_trail. intros E.
  assert (L : (55296 <= c)%N).
  { apply orb_prop in E as [E|E]; apply andb_prop in E as [E _];
      apply N.leb_le in E; lia. }
  repeat split; [apply N.eqb_neq | apply N.eqb_neq | apply N.ltb_ge]; lia.
Qed.

Lemma parse_chars_quote_unit (c : char16) (more : jsstring) :
  parse_chars (quote_unit c ++ more) = cons_parsed c (parse_chars more).
Proof.
  unfold quote_unit.
  destruct (N.eqb_spec c 8); [subst; reflexivity|].
  destruct (N.eqb_spec c 9); [subst; reflexivity|].
  destruct (N.eqb_spec c 10); [subst; reflexivity|].
  destruct (N.eqb_spec c 12); [subst; reflexivity|].
  destruct (N.eqb_spec c 13); [subst; reflexivity|].
  destruct (N.eqb_spec c 34); [subst; reflexivity|].
  destruct (N.eqb_spec c 92); [subst; reflexivity|].
  destruct ((c <? 32)%N || is_lead c || is_trail c) eqn:E.
  - assert (L : (c < 65536)%N).
    { unfold is_lead, is_trail in E.
      apply orb_prop in E as [E|E]; [apply orb_prop in E as [E|E]|].
      - apply N.ltb_lt in E. lia.
      - apply andb_prop in E as [_ E]. apply N.leb_le in E. lia.
      - apply andb_prop in E as [_ E]. apply N.leb_le in E. lia. }
    unfold unicode_escape. cbn [app parse_chars N.eqb Pos.eqb].
    rewrite (hex4_unicode c L). reflexivity.
  - apply orb_false_elim in E as [E _]. apply orb_false_elim in E as [E _].
    cbn [app]. apply parse_chars_plain; [apply N.eqb_neq | apply N.eqb_neq |]; assumption.
Qed.

Lemma list_pair_ind {A : Type} (P : list A -> Prop) :
  P [] -> (forall x, P [x]) ->
  (forall x y l, P l -> P (y :: l) -> P (x :: y :: l)) ->
  forall l, P l.
Proof.
  intros H0 H1 H2 l.
  enough (Q : P l /\ forall x, P (x :: l)) by exact (proj1 Q).
  induction l as [|y l [IH1 IH2]]; split; auto.
Qed.

Lemma quote_chars_pair (x y : char16) (l : jsstring) :
  quote_chars (x :: y :: l)
  = if is_lead x && is_trail y then x :: y :: quote_chars l
    else quote_unit x ++ quote_chars (y :: l).
Proof. reflexivity. Qed.

Lemma parse_chars_quoted (s rest : jsstring) :
  parse_chars (quote_chars s ++ dquote :: rest) = Some (s, rest).
Proof.
  induction s as [|x|x y l IH1 IH2] using list_pair_ind.
  - reflexivity.
  - cbn [quote_chars]. rewrite parse_chars_quote_unit. reflexivity.
  - rewrite quote_chars_pair. destruct (is_lead x && is_trail y) eqn:E.
    + apply andb_prop in E as [Ex Ey].
      destruct (surrogate_plain x) as (X1 & X2 & X3); [rewrite Ex; reflexivity|].
      destruct (surrogate_plain y) as (Y1 & Y2 & Y3);
        [rewrite Ey; apply orb_true_r|].
      cbn [app]. rewrite (parse_chars_plain x _ X1 X2 X3).
      rewrite (parse_chars_plain y _ Y1 Y2 Y3). rewrite IH1. reflexivity.
    + rewrite <- app_assoc, parse_chars_quote_unit, IH2. reflexivity.
Qed.

Lemma jsval_induction (P : jsval -> Prop) :
  P VUndefined -> P VNull -> (forall b, P (VBool b)) ->
  (forall n, P (VNumber n)) -> (forall s, P (VString s)) ->
  (forall l, Forall P l -> P (VArray l)) ->
  (forall o, Forall (fun kv => P (snd kv)) o -> P (VObject o)) ->
  forall v, P v.
Proof.
  intros Hu Hn Hb Hnum Hs Ha Ho.
  fix IH 1. intros [| |b|n|s|l|o];
    [exact Hu | exact Hn | apply Hb | apply Hnum | apply Hs | | ].
  - apply Ha. revert l. fix IHl 1. intros [|x l]; constructor; [apply IH|apply IHl].
  - apply Ho. revert o. fix IHo 1. intros [|[k x] o]; constructor; [apply IH|apply IHo].
Qed.

Lemma skip_ws_app (ws s : jsstring) :
  is_space_text ws -> skip_ws (ws ++ s) = skip_ws s.
Proof.
  unfold is_space_text. induction ws as [|c ws IH]; intros E; [reflexivity|].
  cbn [forallb] in E. apply andb_prop in E as [E1 E2].
  cbn [app skip_ws]. rewrite E1. exact (IH E2).
Qed.

Lemma skip_ws_head (c : char16) (s : jsstring) :
  is_json_space c = false -> skip_ws (c :: s) = c :: s.
Proof. intros E. cbn [skip_ws]. rewrite E. reflexivity. Qed.

Lemma parse_value_ws (f : nat) (ws s : jsstring) :
  is_space_text ws -> parse_value f (ws ++ s) = parse_value f s.
Proof.
  intros E. destruct f; [reflexivity|].
  cbn [parse_value]. rewrite (skip_ws_app ws s E). reflexivity.
Qed.

Lemma parse_elements_ws (f : nat) (ws s : jsstring) :
  is_space_text ws -> parse_elements f (ws ++ s) = parse_elements f s.
Proof.
  intros E. destruct f; [reflexivity|].
  cbn [parse_elements]. rewrite (parse_value_ws f ws s E). reflexivity.
Qed.

Lemma parse_members_ws (f : nat) (ws s : jsstring) :
  is_space_text ws -> parse_members f (ws ++ s) = parse_members f s.
Proof.
  intros E. destruct f; [reflexivity|].
  cbn [parse_members]. rewrite (skip_ws_app ws s E). reflexivity.
Qed.

Lemma is_space_text_app (a b : jsstring) :
  is_space_text a -> is_space_text b -> is_space_text (a ++ b).
Proof.
  unfold is_space_text. intros A B. rewrite forallb_app, A, B. reflexivity.
Qed.

Lemma is_space_text_inner (indent : jsstring) :
  is_space_text indent -> is_space_text (nl ++ indent ++ gap).
Proof.
  intros E. apply is_space_text_app; [reflexivity|].
  apply is_space_text_app; [exact E|reflexivity].
Qed.

Lemma serialize_defined `{Float64} (indent : jsstring) (v : jsval) :
  v <> VUndefined -> serialize indent v = Some (text_of indent v).
Proof.
  intros N. unfold text_of.
  destruct (serialize indent v) eqn:E; [reflexivity|].
  destruct v as [| |[|]|n|s|[|x l]|o]; try discriminate E; try contradiction.
  cbn [serialize] in E.
  destruct (flat_map _ o); discriminate E.
Qed.

Lemma storable_defined (v : jsval) : storable v -> v <> VUndefined.
Proof. intros S E. subst. exact S. Qed.

Lemma members_all `{Float64} (inner : jsstring) (o : props) :
  fold_right (fun kv P => storable (snd kv) /\ P) True o ->
  flat_map (fun kv => match serialize inner (snd kv) with
                      | Some t => [QuoteJSONString (fst kv) ++ js ": " ++ t]
                      | None => []
                      end) o
  = map (member_text inner) o.
Proof.
  induction o as [|kv o IH]; intros S; [reflexivity|].
  destruct S as [S1 S2]. cbn [flat_map map].
  rewrite (serialize_defined inner _ (storable_defined _ S1)).
  rewrite (IH S2). reflexivity.
Qed.

Lemma text_of_array `{Float64} (indent : jsstring) (x : jsval) (l : list jsval) :
  text_of indent (VArray (x :: l))
  = 91%N :: (nl ++ indent ++ gap)
      ++ join (44%N :: nl ++ indent ++ gap) (map (text_of (indent ++ gap)) (x :: l))
      ++ (nl ++ indent) ++ 93%N :: [].
Proof.
  unfold text_of at 1. cbn [serialize].
  change (js "[") with [91%N]. change (js ",") with [44%N]. change (js "]") with [93%N].
  cbn [app]. rewrite <- !app_assoc. reflexivity.
Qed.

Lemma text_of_object `{Float64} (indent : jsstring) (kv : jsstring * jsval) (o : props) :
  fold_right (fun kv P => storable (snd kv) /\ P) True (kv :: o) ->
  text_of indent (VObject (kv :: o))
  = 123%N :: (nl ++ indent ++ gap)
      ++ join (44%N :: nl ++ indent ++ gap) (map (member_text (indent ++ gap)) (kv :: o))
      ++ (nl ++ indent) ++ 125%N :: [].
Proof.
  intros S. unfold text_of at 1. cbn [serialize].
  rewrite (members_all (indent ++ gap) (kv :: o) S). cbn [map].
  change (js "{") with [123%N]. change (js ",") with [44%N]. change (js "}") with [125%N].
  cbn [app]. rewrite <- !app_assoc. reflexivity.
Qed.

(** The first character of the text of a storable value starts a value
    and is no space. *)
Lemma text_head `{Float64} (indent : jsstring) (v : jsval) :
  storable v ->
  exists c t, text_of indent v = c :: t
              /\ is_json_space c = false
              /\ (c =? 93)%N = false /\ (c =? 125)%N = false.
Proof.
  intros S. destruct v as [| |[|]|n|s|[|x l]|o]; try contradiction;
    try (eexists; eexists; split; [reflexivity|repeat split]).
  unfold text_of. cbn [serialize].
  destruct (flat_map _ o); eexists; eexists; (split; [reflexivity|repeat split]).
Qed.

Lemma parse_elements_joined `{Float64} (l : list jsval) (inner close : jsstring) :
  Forall reads_back l ->
  fold_right (fun x P => storable x /\ P) True l ->
  l <> [] ->
  is_space_text inner -> is_space_text close ->
  forall f rest,
    fold_right (fun x n => S (weight x + n)) 0 l <= f ->
    parse_elements f
      (join (44%N :: nl ++ inner) (map (text_of inner) l) ++ close ++ 93%N :: rest)
    = Parsed l rest.
Proof.
  intros HF. induction HF as [|x l Hx _ IH]; intros S Hne Hi Hc f rest Hf;
    [contradiction|].
  destruct S as [Sx Sl]. cbn [fold_right] in Hf.
  destruct f as [|f]; [lia|].
  cbn [parse_elements].
  destruct l as [|y l].
  - cbn [map join].
    rewrite (Hx Sx inner _ f Hi) by lia.
    rewrite (skip_ws_app close _ Hc), skip_ws_head by reflexivity.
    reflexivity.
  - change (join (44%N :: nl ++ inner) (map (text_of inner) (x :: y :: l)))
      with (text_of inner x
            ++ (44%N :: nl ++ inner)
            ++ join (44%N :: nl ++ inner) (map (text_of inner) (y :: l))).
    rewrite <- !app_assoc.
    rewrite (Hx Sx inner _ f Hi) by lia.
    cbn [app]. rewrite skip_ws_head by reflexivity.
    cbn [N.eqb Pos.eqb].
    rewrite <- app_assoc.
    rewrite parse_elements_ws by reflexivity.
    rewrite parse_elements_ws by exact Hi.
    rewrite (IH Sl ltac:(discriminate) Hi Hc f rest) by lia.
    reflexivity.
Qed.

Lemma parse_members_joined `{Float64} (o : props) (inner close : jsstring) :
  Forall (fun kv => reads_back (snd kv)) o ->
  fold_right (fun kv P => storable (snd kv) /\ P) True o ->
  o <> [] ->
  is_space_text inner -> is_space_text close ->
  forall f rest,
    fold_right (fun kv n => S (weight (snd kv) + n)) 0 o <= f ->
    parse_members f
      (join (44%N :: nl ++ inner) (map (member_text inner) o) ++ close ++ 125%N :: rest)
    = Parsed o rest.
Proof.
  intros HF. induction HF as [|[k x] o Hx _ IH]; intros S Hne Hi Hc f rest Hf;
    [contradiction|].
  destruct S as [Sx So]. cbn [fold_right snd] in Hf. cbn [snd] in Hx, Sx.
  destruct f as [|f]; [lia|].
  assert (M : forall more,
             member_text inner (k, x) ++ more
             = dquote :: quote_chars k
                 ++ dquote :: 58%N :: [32%N] ++ text_of inner x ++ more).
  { intros more. unfold member_text, QuoteJSONString. cbn [fst snd].
    change (js ": ") with [58%N; 32%N]. cbn [app].
    rewrite <- !app_assoc. reflexivity. }
  cbn [parse_members].
  destruct o as [|kv o].
  - cbn [map join]. rewrite M.
    rewrite skip_ws_head by reflexivity. cbn [N.eqb Pos.eqb dquote].
    change 34%N with dquote. rewrite parse_chars_quoted.
    rewrite skip_ws_head by reflexivity. cbn [N.eqb Pos.eqb].
    rewrite parse_value_ws by reflexivity.
    rewrite (Hx Sx inner _ f Hi) by lia.
    rewrite (skip_ws_app close _ Hc), skip_ws_head by reflexivity.
    reflexivity.
  - change (join (44%N :: nl ++ inner) (map (member_text inner) ((k, x) :: kv :: o)))
      with (member_text inner (k, x)
            ++ (44%N :: nl ++ inner)
            ++ join (44%N :: nl ++ inner) (map (member_text inner) (kv :: o))).
    rewrite <- !app_assoc. rewrite M.
    rewrite skip_ws_head by reflexivity. cbn [N.eqb Pos.eqb dquote].
    change 34%N with dquote. rewrite parse_chars_quoted.
    rewrite skip_ws_head by reflexivity. cbn [N.eqb Pos.eqb].
    rewrite parse_value_ws by reflexivity.
    rewrite (Hx Sx inner _ f Hi) by lia.
    cbn [app]. rewrite skip_ws_head by reflexivity.
    cbn [N.eqb Pos.eqb].
    rewrite <- app_assoc.
    rewrite parse_members_ws by reflexivity.
    rewrite parse_members_ws by exact Hi.
    rewrite (IH So ltac:(discriminate) Hi Hc f rest) by lia.
    reflexivity.
Qed.

Lemma nl_space : is_space_text nl.
Proof. reflexivity. Qed.

Lemma gap_space : is_space_text gap.
Proof. reflexivity. Qed.

Lemma parse_serialized `{Float64} (v : jsval) : reads_back v.
Proof.
  induction v as [| |b|n|s|l IH|o IH] using jsval_induction;
    intros St indent rest f Hi Hf; try contradiction.
  - destruct f; [cbn [weight] in Hf; lia|reflexivity].
  - destruct f; [cbn [weight] in Hf; lia|]. destruct b; reflexivity.
  - destruct f; [cbn [weight] in Hf; lia|].
    unfold text_of. cbn [serialize]. unfold QuoteJSONString.
    cbn [app parse_value]. rewrite skip_ws_head by reflexivity.
    cbn [N.eqb Pos.eqb dquote].
    rewrite <- app_assoc. cbn [app]. change 34%N with dquote.
    rewrite parse_chars_quoted. reflexivity.
  - destruct f as [|f]; [cbn [weight] in Hf; lia|].
    destruct l as [|x l]; [reflexivity|].
    rewrite text_of_array. cbn [weight] in Hf. cbn [storable] in St.
    destruct (text_head (indent ++ gap) x (proj1 St)) as (c & t & E & C1 & C2 & _).
    cbn [app parse_value]. rewrite skip_ws_head by reflexivity.
    cbn [N.eqb Pos.eqb].
    rewrite <- !app_assoc.
    rewrite skip_ws_app by reflexivity.
    rewrite skip_ws_app by exact Hi.
    rewrite skip_ws_app by reflexivity.
    assert (J : exists t', join (44%N :: nl ++ indent ++ gap)
                             (map (text_of (indent ++ gap)) (x :: l)) = c :: t').
    { cbn [map]. rewrite E. destruct (map (text_of (indent ++ gap)) l);
        cbn [join app]; eexists; reflexivity. }
    destruct J as [t' J].
    pose proof (parse_elements_joined (x :: l) (indent ++ gap) (nl ++ indent)
                  IH St ltac:(discriminate)
                  (is_space_text_app _ _ Hi gap_space)
                  (is_space_text_app _ _ nl_space Hi) f rest ltac:(lia)) as P.
    rewrite <- !app_assoc in P.
    rewrite J in *. cbn [app] in *.
    rewrite skip_ws_head by exact C1. rewrite C2, P. reflexivity.
  - destruct f as [|f]; [cbn [weight] in Hf; lia|].
    destruct St as [B St].
    destruct o as [|kv o]; [reflexivity|].
    rewrite (text_of_object indent kv o St). cbn [weight] in Hf.
    cbn [app parse_value]. rewrite skip_ws_head by reflexivity.
    cbn [N.eqb Pos.eqb].
    rewrite <- !app_assoc.
    rewrite skip_ws_app by reflexivity.
    rewrite skip_ws_app by exact Hi.
    rewrite skip_ws_app by reflexivity.
    assert (J : exists t', join (44%N :: nl ++ indent ++ gap)
                             (map (member_text (indent ++ gap)) (kv :: o))
                           = dquote :: t').
    { cbn [map]. unfold member_text at 1, QuoteJSONString.
      destruct (map (member_text (indent ++ gap)) o);
        cbn [join app]; eexists; reflexivity. }
    destruct J as [t' J].
    pose proof (parse_members_joined (kv :: o) (indent ++ gap) (nl ++ indent)
                  IH St ltac:(discriminate)
                  (is_space_text_app _ _ Hi gap_space)
                  (is_space_text_app _ _ nl_space Hi) f rest ltac:(lia)) as P.
    rewrite <- !app_assoc in P.
    rewrite J in *. cbn [app] in *.
    rewrite skip_ws_head by reflexivity. cbn [N.eqb Pos.eqb dquote].
    change 34%N with dquote. rewrite P, B. reflexivity.
Qed.

Lemma join_weight {A : Type} (wt : A -> nat) (tx : A -> jsstring) (sep : jsstring)
      (l : list A) :
  1 <= length sep ->
  Forall (fun a => wt a <= length (tx a)) l ->
  fold_right (fun a n => S (wt a + n)) 0 l <= length (join sep (map tx l)) + 1.
Proof.
  intros Hs HF. induction HF as [|a l Ha _ IH]; [cbn; lia|].
  destruct l as [|b l].
  - cbn [fold_right map join]. lia.
  - change (join sep (map tx (a :: b :: l)))
      with (tx a ++ sep ++ join sep (map tx (b :: l))).
    rewrite !length_app.
    change (fold_right (fun a n => S (wt a + n)) 0 (a :: b :: l))
      with (S (wt a + fold_right (fun a n => S (wt a + n)) 0 (b :: l))).
    lia.
Qed.

Lemma Forall_storable (P : jsval -> Prop) (l : list jsval) :
  Forall (fun v => storable v -> P v) l ->
  fold_right (fun x Q => storable x /\ Q) True l ->
  Forall P l.
Proof.
  induction l as [|x l IH]; intros HF St; [constructor|].
  inversion HF as [|? ? Hx Hl]; subst. destruct St as [S1 S2].
  constructor; [exact (Hx S1)|exact (IH Hl S2)].
Qed.

Lemma Forall_storable_props (P : jsstring * jsval -> Prop) (o : props) :
  Forall (fun kv => storable (snd kv) -> P kv) o ->
  fold_right (fun kv Q => storable (snd kv) /\ Q) True o ->
  Forall P o.
Proof.
  induction o as [|x o IH]; intros HF St; [constructor|].
  inversion HF as [|? ? Hx Hl]; subst. destruct St as [S1 S2].
  constructor; [exact (Hx S1)|exact (IH Hl S2)].
Qed.

Lemma weight_le_length `{Float64} (v : jsval) :
  storable v -> forall indent, weight v <= length (text_of indent v).
Proof.
  induction v as [| |b|n|s|l IH|o IH] using jsval_induction;
    intros St indent; try contradiction.
  - cbn. lia.
  - destruct b; cbn; lia.
  - unfold text_of. cbn [serialize weight]. unfold QuoteJSONString.
    cbn [length]. lia.
  - destruct l as [|x l]; [cbn; lia|].
    rewrite text_of_array. cbn [weight length]. rewrite !length_app.
    assert (HF : Forall (fun v => weight v <= length (text_of (indent ++ gap) v)) (x :: l)).
    { apply Forall_storable; [|exact St].
      apply (Forall_impl _ (P := fun v => storable v ->
                                 forall indent, weight v <= length (text_of indent v)));
        [|exact IH].
      intros v Hv Sv. exact (Hv Sv _). }
    pose proof (join_weight weight (text_of (indent ++ gap))
                  (44%N :: nl ++ indent ++ gap) (x :: l)
                  ltac:(cbn [length]; lia) HF) as J.
    change (length nl) with 1. cbn [length]. lia.
  - destruct St as [_ St].
    destruct o as [|kv o]; [cbn; lia|].
    rewrite (text_of_object indent kv o St). cbn [weight length]. rewrite !length_app.
    assert (HF : Forall (fun kv => weight (snd kv)
                                   <= length (member_text (indent ++ gap) kv)) (kv :: o)).
    { apply Forall_storable_props; [|exact St].
      apply (Forall_impl _ (P := fun kv => storable (snd kv) ->
                                 forall indent, weight (snd kv)
                                                <= length (text_of indent (snd kv))));
        [|exact IH].
      intros y Hy Sy. unfold member_text. rewrite !length_app.
      specialize (Hy Sy (indent ++ gap)). lia. }
    pose proof (join_weight (fun kv => weight (snd kv)) (member_text (indent ++ gap))
                  (44%N :: nl ++ indent ++ gap) (kv :: o)
                  ltac:(cbn [length]; lia) HF) as J.
    change (length nl) with 1. cbn [length]. lia.
Qed.

(** JSON.parse(JSON.stringify(v, null, 2)) is [v] for a storable value. *)
Lemma JSON_parse_stringify `{Float64} (v : jsval) :
  storable v ->
  exists t, JSON_stringify v = Some t /\ JSON_parse t = Normal v.
Proof.
  intros St. exists (text_of [] v). split.
  - apply serialize_defined. exact (storable_defined v St).
  - unfold JSON_parse.
    pose proof (weight_le_length v St []) as W.
    pose proof (parse_serialized v St [] [] (2 * length (text_of [] v) + 2)
                  eq_refl ltac:(lia)) as P.
    rewrite app_nil_r in P. rewrite P. reflexivity.
Qed.

(** ** The history stores keep the most recent entries *)

Lemma lastn_app {A : Type} (n : nat) (a b : list A) :
  lastn n (lastn n a ++ b) = lastn n (a ++ b).
Proof.
  unfold lastn. rewrite !length_app, length_skipn.
  destruct (le_lt_dec (length a) n) as [L|L].
  - replace (length a - n) with 0 by lia. cbn [skipn]. f_equal. lia.
  - replace (length a + length b - n) with (length b + (length a - n)) by lia.
    rewrite <- skipn_skipn, (skipn_app (length a - n) a b).
    replace (length a - n - length a) with 0 by lia. cbn [skipn].
    f_equal. lia.
Qed.

Lemma lastn_map {A B : Type} (f : A -> B) (n : nat) (l : list A) :
  map f (lastn n l) = lastn n (map f l).
Proof. unfold lastn. rewrite length_map. symmetry. apply skipn_map. Qed.

Lemma storable_item (n : NewsItem) : storable (item_value n).
Proof. split; [reflexivity|repeat split]. Qed.

Lemma storable_items (l : list NewsItem) : storable (VArray (map item_value l)).
Proof.
  cbn [storable]. induction l as [|n l IH]; [exact I|].
  split; [apply storable_item|exact IH].
Qed.

Lemma storable_titles (l : list jsstring) : storable (VArray (map VString l)).
Proof.
  cbn [storable]. induction l as [|s l IH]; [exact I|]. split; [exact I|exact IH].
Qed.

Lemma readable_items (l : list NewsItem) :
  forallb readable (map item_value l) = true.
Proof. induction l as [|n l IH]; [reflexivity|exact IH]. Qed.

Lemma titles_of_items (l : list NewsItem) :
  map title_of (map item_value l) = map VString (map item_title l).
Proof. rewrite !map_map. reflexivity. Qed.

Lemma headlines_of_written `{Float64} (v : jsval) :
  storable v -> headlines_of (JSON_stringify v) = v.
Proof.
  intros St. destruct (JSON_parse_stringify v St) as (t & -> & P).
  unfold headlines_of. rewrite P. reflexivity.
Qed.

Lemma digest_of_written `{Float64} (v : jsval) :
  storable v -> digest_of (JSON_stringify v) = Normal v.
Proof.
  intros St. destruct (JSON_parse_stringify v St) as (t & -> & P). exact P.
Qed.

Lemma saveHeadlines_keeps `{Float64} (w : World) (appended b : list NewsItem) :
  stores_hold w appended ->
  stores_hold (snd (saveHeadlines (map item_value b) w)) (appended ++ b).
Proof.
  intros [Hh Hd].
  destruct (saveHeadlines_appends (map item_value b) _ _ w
              (readable_items b) Hh Hd) as (_ & S1 & S2 & _).
  split.
  - rewrite S1, titles_of_items, <- map_app, <- lastn_map, lastn_app, <- map_app.
    apply headlines_of_written, storable_titles.
  - rewrite S2, <- map_app, <- lastn_map, lastn_app.
    apply digest_of_written, storable_items.
Qed.

Lemma save_all_keeps `{Float64} (batches : list (list NewsItem)) (w : World)
      (appended : list NewsItem) :
  stores_hold w appended ->
  stores_hold (save_all batches w) (appended ++ concat batches).
Proof.
  revert w appended. induction batches as [|b batches IH]; intros w appended Hw.
  - cbn [concat save_all fold_left]. rewrite app_nil_r. exact Hw.
  - cbn [concat]. rewrite app_assoc.
    change (save_all (b :: batches) w)
      with (save_all batches (snd (saveHeadlines (map item_value b) w))).
    apply IH. apply saveHeadlines_keeps. exact Hw.
Qed.

(** C1. Starting without history files, after any sequence of calls of
    saveHeadlines with news records, the headline file reads as the last
    50 titles of all those appended, in order, and the digest file as the
    last 20 records: each is a suffix of the whole history, of length at
    most 50 and 20 (the oldest entries are the ones dropped). *)
Theorem history_stores_fifo `{Float64} (batches : list (list NewsItem)) (w : World) :
  history_file w = None ->
  dashboard_file w = None ->
  let w' := save_all batches w in
  let appended := concat batches in
  let titles := lastn 50 (map item_title appended) in
  let records := lastn 20 appended in
  fst (getPastHeadlines w') = Normal (VArray (map VString titles))
  /\ fst (api_data_history w') = Normal (VArray (map item_value records))
  /\ length titles = Nat.min 50 (length appended)
  /\ length records = Nat.min 20 (length appended)
  /\ (exists dropped, map item_title appended = dropped ++ titles)
  /\ (exists dropped, appended = dropped ++ records).
Proof.
  intros Hh Hd w' appended titles records.
  assert (I0 : stores_hold w []).
  { unfold stores_hold. rewrite Hh, Hd. split; reflexivity. }
  destruct (save_all_keeps batches w [] I0) as [S1 S2]. cbn [app] in S1, S2.
  fold w' appended in S1, S2. fold titles in S1. fold records in S2.
  split; [rewrite getPastHeadlines_value; f_equal; exact S1|].
  split.
  { unfold api_data_history, try_catch, bind, existsSync, readFileSync, lift.
    unfold digest_of in S2.
    destruct (dashboard_file w') as [t|] eqn:E; cbn [fst].
    - rewrite E, S2. reflexivity.
    - exact S2. }
  split; [unfold titles; rewrite lastn_length, length_map; reflexivity|].
  split; [apply lastn_length|].
  split; apply lastn_suffix.
Qed.

Lemma history_stores_fifo_witness :
  history_file fresh = None
  /\ dashboard_file fresh = None
  /\ fst (getPastHeadlines
            (@save_all literal_numbers [firstn 45 sixty_records; skipn 45 sixty_records]
               fresh))
     = Normal (VArray (map VString (map item_title (skipn 10 sixty_records))))
  /\ fst (api_data_history
            (@save_all literal_numbers [firstn 45 sixty_records; skipn 45 sixty_records]
               fresh))
     = Normal (VArray (map item_value (skipn 40 sixty_records))).
Proof.
  destruct (@history_stores_fifo literal_numbers
              [firstn 45 sixty_records; skipn 45 sixty_records] fresh
              eq_refl eq_refl) as (Hh & Hd & _).
  exact (conj eq_refl (conj eq_refl (conj Hh Hd))).
Defined.

(** ** The fuel of JSON_parse is enough for every text *)

Lemma skip_ws_length (s : jsstring) : length (skip_ws s) <= length s.
Proof.
  induction s as [|c s IH]; [apply le_n|].
  cbn [skip_ws]. destruct (is_json_space c); cbn [length]; lia.
Qed.

Lemma parse_chars_shorter (n : nat) :
  forall s str r, length s <= n -> parse_chars s = Some (str, r) -> length r < length s.
Proof.
  induction n as [|n IH]; intros s str r L P.
  - destruct s; [discriminate P|cbn [length] in L; lia].
  - destruct s as [|c s]; [discriminate P|].
    cbn [parse_chars] in P. cbn [length] in L |- *.
    destruct (c =? 34)%N; [injection P as _ <-; lia|].
    destruct (c =? 92)%N.
    + destruct s as [|e s]; [discriminate P|].
      destruct (e =? 117)%N.
      * destruct s as [|h1 [|h2 [|h3 [|h4 s]]]]; try discriminate P.
        destruct (hex4 h1 h2 h3 h4); [|discriminate P].
        destruct (parse_chars s) as [[str' r']|] eqn:Q; [|discriminate P].
        injection P as _ <-. apply IH in Q; cbn [length] in *; lia.
      * destruct (simple_escape e); [|discriminate P].
        destruct (parse_chars s) as [[str' r']|] eqn:Q; [|discriminate P].
        injection P as _ <-. apply IH in Q; cbn [length] in *; lia.
    + destruct (c <? 32)%N; [discriminate P|].
      destruct (parse_chars s) as [[str' r']|] eqn:Q; [|discriminate P].
      injection P as _ <-. apply IH in Q; lia.
Qed.

Lemma digits_length (s d r : jsstring) :
  digits s = (d, r) -> length r <= length s.
Proof.
  revert d r. induction s as [|c s IH]; intros d r E; cbn [digits] in E.
  - injection E as _ <-. apply le_n.
  - destruct (is_digit c).
    + destruct (digits s) as [d' r'] eqn:Q. injection E as _ <-.
      specialize (IH _ _ eq_refl). cbn [length]. lia.
    + injection E as _ <-. apply le_n.
Qed.

Lemma parse_int_shorter (s i r : jsstring) :
  parse_int s = Some (i, r) -> length r < length s.
Proof.
  unfold parse_int. destruct s as [|c s]; [discriminate|].
  destruct (c =? 48)%N; [intros E; injection E as _ <-; cbn [length]; lia|].
  destruct (is_digit c); [|discriminate].
  destruct (digits s) as [d r'] eqn:Q. intros E. injection E as _ <-.
  apply digits_length in Q. cbn [length]. lia.
Qed.

Lemma parse_frac_length (s f r : jsstring) :
  parse_frac s = Some (f, r) -> length r <= length s.
Proof.
  unfold parse_frac. destruct s as [|c s]; [intros E; injection E as _ <-; apply le_n|].
  destruct (c =? 46)%N; [|intros E; injection E as _ <-; apply le_n].
  destruct (digits s) as [[|d0 d] r'] eqn:Q; [discriminate|].
  intros E. injection E as _ <-. apply digits_length in Q. cbn [length]. lia.
Qed.

Lemma parse_exp_length (s e r : jsstring) :
  parse_exp s = Some (e, r) -> length r <= length s.
Proof.
  unfold parse_exp. destruct s as [|c s]; [intros E; injection E as _ <-; apply le_n|].
  destruct ((c =? 101) || (c =? 69))%N; [|intros E; injection E as _ <-; apply le_n].
  destruct s as [|g s].
  - cbn [digits]. discriminate.
  - destruct ((g =? 43) || (g =? 45))%N.
    + destruct (digits s) as [[|d0 d] r'] eqn:Q; [discriminate|].
      intros E. injection E as _ <-. apply digits_length in Q. cbn [length]. lia.
    + destruct (digits (g :: s)) as [[|d0 d] r'] eqn:Q; [discriminate|].
      intros E. injection E as _ <-. apply digits_length in Q. cbn [length] in *. lia.
Qed.

Lemma parse_number_shorter (s lit r : jsstring) :
  parse_number s = Some (lit, r) -> length r < length s.
Proof.
  unfold parse_number.
  set (p := match s with
            | [] => ([], s)
            | c :: r0 => if (c =? 45)%N then ([c], r0) else ([], s)
            end).
  assert (L : length (snd p) <= length s).
  { unfold p. destruct s as [|c s]; [apply le_n|].
    destruct (c =? 45)%N; cbn [snd length]; lia. }
  destruct p as [sign s1]. cbn [snd] in L.
  destruct (parse_int s1) as [[i s2]|] eqn:I; [|discriminate].
  destruct (parse_frac s2) as [[f s3]|] eqn:Fr; [|discriminate].
  destruct (parse_exp s3) as [[e s4]|] eqn:Ex; [|discriminate].
  intros E. injection E as _ <-.
  apply parse_int_shorter in I. apply parse_frac_length in Fr.
  apply parse_exp_length in Ex. lia.
Qed.

Lemma starts_with_length (p s : jsstring) :
  starts_with p s = true -> length p <= length s.
Proof.
  revert s. induction p as [|x p IH]; intros s E; [cbn [length]; lia|].
  destruct s as [|y s]; [discriminate E|].
  cbn [starts_with] in E. apply andb_prop in E as [_ E].
  specialize (IH _ E). cbn [length]. lia.
Qed.

Lemma parse_literal_shorter (name : jsstring) (v v' : jsval) (s r : jsstring) :
  name <> [] -> parse_literal name v s = Parsed v' r -> length r < length s.
Proof.
  unfold parse_literal. intros N. destruct (starts_with name s) eqn:E; [|discriminate].
  intros P. injection P as _ <-. apply starts_with_length in E.
  rewrite length_skipn. destruct name; [contradiction|]. cbn [length] in *. lia.
Qed.

Lemma parse_rest_shorter (f : nat) :
  (forall s v r, parse_value f s = Parsed v r -> length r < length s)
  /\ (forall s vs r, parse_elements f s = Parsed vs r -> length r < length s)
  /\ (forall s ms r, parse_members f s = Parsed ms r -> length r < length s).
Proof.
  induction f as [|f (IHv & IHe & IHm)]; [repeat split; intros; discriminate|].
  split; [|split].
  - intros s v r P. cbn [parse_value] in P.
    pose proof (skip_ws_length s) as L0.
    destruct (skip_ws s) as [|c r0]; [discriminate P|]. cbn [length] in L0.
    destruct (c =? 123)%N.
    { pose proof (skip_ws_length r0) as L1.
      destruct (skip_ws r0) as [|c' r']; [discriminate P|]. cbn [length] in L1.
      destruct (c' =? 125)%N; [injection P as _ <-; lia|].
      destruct (parse_members f (c' :: r')) as [ms rest| |] eqn:Q; try discriminate P.
      injection P as _ <-. apply IHm in Q. cbn [length] in Q. lia. }
    destruct (c =? 91)%N.
    { pose proof (skip_ws_length r0) as L1.
      destruct (skip_ws r0) as [|c' r']; [discriminate P|]. cbn [length] in L1.
      destruct (c' =? 93)%N; [injection P as _ <-; lia|].
      destruct (parse_elements f (c' :: r')) as [vs rest| |] eqn:Q; try discriminate P.
      injection P as _ <-. apply IHe in Q. cbn [length] in Q. lia. }
    destruct (c =? 34)%N.
    { destruct (parse_chars r0) as [[str rest]|] eqn:Q; [|discriminate P].
      injection P as _ <-. apply (parse_chars_shorter (length r0)) in Q; lia. }
    destruct (c =? 116)%N;
      [apply parse_literal_shorter in P; [cbn [length] in P; lia|discriminate]|].
    destruct (c =? 102)%N;
      [apply parse_literal_shorter in P; [cbn [length] in P; lia|discriminate]|].
    destruct (c =? 110)%N;
      [apply parse_literal_shorter in P; [cbn [length] in P; lia|discriminate]|].
    destruct (parse_number (c :: r0)) as [[lit rest]|] eqn:Q; [|discriminate P].
    injection P as _ <-. apply parse_number_shorter in Q. cbn [length] in Q. lia.
  - intros s vs r P. cbn [parse_elements] in P.
    destruct (parse_value f s) as [v r0| |] eqn:Q; try discriminate P.
    apply IHv in Q. pose proof (skip_ws_length r0) as L0.
    destruct (skip_ws r0) as [|c r']; [discriminate P|]. cbn [length] in L0.
    destruct (c =? 44)%N.
    { destruct (parse_elements f r') as [vs' rest| |] eqn:Q'; try discriminate P.
      injection P as _ <-. apply IHe in Q'. lia. }
    destruct (c =? 93)%N; [|discriminate P]. injection P as _ <-. lia.
  - intros s ms r P. cbn [parse_members] in P.
    pose proof (skip_ws_length s) as L0.
    destruct (skip_ws s) as [|q r0]; [discriminate P|]. cbn [length] in L0.
    destruct (q =? 34)%N; [|discriminate P].
    destruct (parse_chars r0) as [[key r1]|] eqn:Q; [|discriminate P].
    apply (parse_chars_shorter (length r0)) in Q; [|lia].
    pose proof (skip_ws_length r1) as L1.
    destruct (skip_ws r1) as [|colon r2]; [discriminate P|]. cbn [length] in L1.
    destruct (colon =? 58)%N; [|discriminate P].
    destruct (parse_value f r2) as [v r3| |] eqn:Q2; try discriminate P.
    apply IHv in Q2. pose proof (skip_ws_length r3) as L3.
    destruct (skip_ws r3) as [|c r4]; [discriminate P|]. cbn [length] in L3.
    destruct (c =? 44)%N.
    { destruct (parse_members f r4) as [ms' rest| |] eqn:Q4; try discriminate P.
      injection P as _ <-. apply IHm in Q4. lia. }
    destruct (c =? 125)%N; [|discriminate P]. injection P as _ <-. lia.
Qed.

Lemma parse_fuel (f : nat) :
  (forall s, 2 * length s + 1 <= f -> parse_value f s <> OutOfFuel)
  /\ (forall s, 2 * length s + 2 <= f -> parse_elements f s <> OutOfFuel)
  /\ (forall s, 2 * length s + 2 <= f -> parse_members f s <> OutOfFuel).
Proof.
  induction f as [|f (IHv & IHe & IHm)]; [repeat split; intros; lia|].
  split; [|split].
  - intros s L. cbn [parse_value].
    pose proof (skip_ws_length s) as L0.
    destruct (skip_ws s) as [|c r0]; [discriminate|]. cbn [length] in L0.
    destruct (c =? 123)%N.
    { pose proof (skip_ws_length r0) as L1.
      destruct (skip_ws r0) as [|c' r'] eqn:E; [discriminate|].
      destruct (c' =? 125)%N; [discriminate|].
      specialize (IHm (c' :: r')). rewrite <- E in *.
      destruct (parse_members f (skip_ws r0)); try discriminate.
      exfalso. apply IHm; [lia|reflexivity]. }
    destruct (c =? 91)%N.
    { pose proof (skip_ws_length r0) as L1.
      destruct (skip_ws r0) as [|c' r'] eqn:E; [discriminate|].
      destruct (c' =? 93)%N; [discriminate|].
      specialize (IHe (c' :: r')). rewrite <- E in *.
      destruct (parse_elements f (skip_ws r0)); try discriminate.
      exfalso. apply IHe; [lia|reflexivity]. }
    destruct (c =? 34)%N; [destruct (parse_chars r0) as [[? ?]|]; discriminate|].
    unfold parse_literal.
    destruct (c =? 116)%N; [destruct (starts_with _ _); discriminate|].
    destruct (c =? 102)%N; [destruct (starts_with _ _); discriminate|].
    destruct (c =? 110)%N; [destruct (starts_with _ _); discriminate|].
    destruct (parse_number (c :: r0)) as [[? ?]|]; discriminate.
  - intros s L. cbn [parse_elements].
    specialize (IHv s ltac:(lia)).
    destruct (parse_value f s) as [v r0| |] eqn:Q; [|discriminate|contradiction].
    apply (proj1 (parse_rest_shorter f)) in Q.
    pose proof (skip_ws_length r0) as L0.
    destruct (skip_ws r0) as [|c r']; [discriminate|]. cbn [length] in L0.
    destruct (c =? 44)%N.
    { specialize (IHe r' ltac:(lia)).
      destruct (parse_elements f r'); [discriminate|discriminate|contradiction]. }
    destruct (c =? 93)%N; discriminate.
  - intros s L. cbn [parse_members].
    pose proof (skip_ws_length s) as L0.
    destruct (skip_ws s) as [|q r0]; [discriminate|]. cbn [length] in L0.
    destruct (q =? 34)%N; [|discriminate].
    destruct (parse_chars r0) as [[key r1]|] eqn:Q; [|discriminate].
    apply (parse_chars_shorter (length r0)) in Q; [|lia].
    pose proof (skip_ws_length r1) as L1.
    destruct (skip_ws r1) as [|colon r2]; [discriminate|]. cbn [length] in L1.
    destruct (colon =? 58)%N; [|discriminate].
    specialize (IHv r2 ltac:(lia)).
    destruct (parse_value f r2) as [v r3| |] eqn:Q2; [|discriminate|contradiction].
    apply (proj1 (parse_rest_shorter f)) in Q2.
    pose proof (skip_ws_length r3) as L3.
    destruct (skip_ws r3) as [|c r4]; [discriminate|]. cbn [length] in L3.
    destruct (c =? 44)%N.
    { specialize (IHm r4 ltac:(lia)).
      destruct (parse_members f r4); [discriminate|discriminate|contradiction]. }
    destruct (c =? 125)%N; discriminate.
Qed.

(** JSON_parse gives the parser enough fuel: it never reports a syntax
    error because the fuel ran out. *)
Lemma JSON_parse_fuel (text : jsstring) :
  parse_value (2 * length text + 2) text <> OutOfFuel.
Proof. apply (proj1 (parse_fuel _)). lia. Qed.

(** ** Rendering of records *)

Lemma filter_items (t : jsstring) (l : list NewsItem) :
  filter (has_type t) (map item_value l) = map item_value (of_type t l).
Proof.
  unfold of_type. induction l as [|n l IH]; [reflexivity|].
  cbn [map filter]. change (has_type t (item_value n)) with (str_eqb (item_type n) t).
  destruct (str_eqb (item_type n) t); cbn [map]; rewrite IH; reflexivity.
Qed.

Lemma cards_of_items `{Float64} (color : jsstring) (l : list NewsItem) :
  sequence (map (fun item => createCard item color) (map item_value l))
  = Normal (map (card color) l).
Proof.
  induction l as [|n l IH]; [reflexivity|].
  cbn [map sequence].
  change (createCard (item_value n) color) with (Normal (card color n)).
  rewrite IH. reflexivity.
Qed.

Lemma section_of_items `{Float64} (heading close color : jsstring) (l : list NewsItem) :
  section heading close color (map item_value l)
  = Normal (section_of heading close color l).
Proof.
  destruct l as [|n l]; [reflexivity|].
  change (map item_value (n :: l)) with (item_value n :: map item_value l).
  rewrite section_cons.
  change (item_value n :: map item_value l) with (map item_value (n :: l)).
  rewrite cards_of_items. reflexivity.
Qed.

(** generateHtml on records with text fields always gives the document. *)
Lemma generateHtml_records `{Float64} (date : jsstring) (l : list NewsItem) :
  generateHtml date (map item_value l)
  = Normal (doc_before_logo ++ LOGO_URL ++ doc_before_date ++ date ++ doc_before_good
            ++ section_of good_heading good_close (js "#27ae60") (of_type (js "good") l)
            ++ doc_between_sections
            ++ section_of shocking_heading shocking_close (js "#c0392b")
                 (of_type (js "shocking") l)
            ++ doc_after_shocking).
Proof.
  unfold generateHtml.
  rewrite !(filter_type_readable _ _ (readable_items l)), !filter_items.
  cbn [cbind]. rewrite !section_of_items. reflexivity.
Qed.

(** ** The log *)

Lemma lastn_snoc {A : Type} (n : nat) (l : list A) (x : A) :
  lastn (S n) (l ++ [x]) = lastn n l ++ [x].
Proof.
  unfold lastn. rewrite length_app. cbn [length].
  replace (length l + 1 - S n) with (length l - n) by lia.
  rewrite skipn_app.
  replace (length l - n - length l) with 0 by lia. reflexivity.
Qed.

Lemma logs_logged (m : log_message) (t : log_type) (w : World) :
  length (logs w) <= 100 ->
  logs (logged m t w) = lastn 99 (logs w) ++ [{| message := m; type := t |}].
Proof.
  intros L. unfold logged, log, bind, read, set_logs. cbn [snd logs].
  rewrite <- lastn_snoc. unfold lastn.
  destruct (100 <? length (logs w ++ [{| message := m; type := t |}])) eqn:E.
  - apply Nat.ltb_lt in E. rewrite length_app in *. cbn [length] in *.
    replace (length (logs w) + 1 - 100) with 1 by lia.
    destruct (logs w ++ [{| message := m; type := t |}]); reflexivity.
  - apply Nat.ltb_ge in E. rewrite length_app in *. cbn [length] in *.
    replace (length (logs w) + 1 - 100) with 0 by lia. reflexivity.
Qed.

Lemma logged_newest (m : log_message) (t : log_type) (w : World) :
  exists older, logs (logged m t w) = older ++ [{| message := m; type := t |}].
Proof.
  unfold logged, log, bind, read, set_logs. cbn [snd logs].
  destruct (100 <? length (logs w ++ [{| message := m; type := t |}])) eqn:E.
  - destruct (logs w) as [|x l]; [discriminate E|].
    exists l. reflexivity.
  - exists (logs w). reflexivity.
Qed.

(** X1. log, index.js:30-39.  On a log of at most 100 entries the call adds
    the entry at the end and keeps the 100 most recent ones: the result is
    the last 99 of the old entries followed by the new one.  Nothing else
    of the state changes and the call returns. *)
Theorem log_keeps_last_100 (m : log_message) (t : log_type) (w : World) :
  length (logs w) <= 100 ->
  fst (log m t w) = Normal tt
  /\ logs (snd (log m t w)) = lastn 99 (logs w) ++ [{| message := m; type := t |}]
  /\ length (logs (snd (log m t w))) = Nat.min 100 (S (length (logs w)))
  /\ history_file (snd (log m t w)) = history_file w
  /\ dashboard_file (snd (log m t w)) = dashboard_file w
  /\ nextRunTime (snd (log m t w)) = nextRunTime w
  /\ currentGeneration (snd (log m t w)) = currentGeneration w
  /\ outbox (snd (log m t w)) = outbox w.
Proof.
  intros L. split; [reflexivity|].
  pose proof (logs_logged m t w L) as E. unfold logged in E.
  split; [exact E|]. split; [|repeat split].
  rewrite E, length_app, lastn_length. cbn [length]. lia.
Qed.

Lemma log_keeps_last_100_witness :
  length (logs full_log) <= 100
  /\ logs (snd (log (Msg (js "new")) TError full_log))
     = repeat {| message := Msg (js "old"); type := TInfo |} 99
       ++ [{| message := Msg (js "new"); type := TError |}].
Proof.
  assert (L : length (logs full_log) <= 100) by (vm_compute; lia).
  destruct (log_keeps_last_100 (Msg (js "new")) TError full_log L) as (_ & E & _).
  exact (conj L E).
Defined.

(** ** Relations between the state before and after a call *)

Section Respects.
Context (R : World -> World -> Prop) `{!Steady R}.

Lemma respects_bind {A B : Type} (m : M A) (k : A -> M B) :
  respects R m -> (forall a, respects R (k a)) -> respects R (bind m k).
Proof.
  intros Hm Hk w. unfold bind. specialize (Hm w).
  destruct (m w) as [[a|e] w1]; cbn [snd] in *; [|exact Hm].
  exact (steady_trans _ _ _ Hm (Hk a w1)).
Qed.

Lemma respects_try_catch {A : Type} (m : M A) (h : js_error -> M A) :
  respects R m -> (forall e, respects R (h e)) -> respects R (try_catch m h).
Proof.
  intros Hm Hh w. unfold try_catch. specialize (Hm w).
  destruct (m w) as [[a|e] w1]; cbn [snd] in *; [exact Hm|].
  exact (steady_trans _ _ _ Hm (Hh e w1)).
Qed.

Lemma respects_ret {A : Type} (a : A) : respects R (ret a).
Proof. intros w. apply steady_refl. Qed.

Lemma respects_lift {A : Type} (c : completion A) : respects R (lift c).
Proof. intros w. apply steady_refl. Qed.

Lemma respects_existsSync (f : file_name) : respects R (existsSync f).
Proof. intros w. apply steady_refl. Qed.

Lemma respects_readFileSync (f : file_name) : respects R (readFileSync f).
Proof. intros w. apply steady_refl. Qed.

End Respects.

Lemma log_within_bound (m : log_message) (t : log_type) :
  respects within_log_bound (log m t).
Proof.
  intros w L. fold (logged m t w). rewrite (logs_logged m t w L).
  rewrite length_app, lastn_length. cbn [length]. lia.
Qed.

Lemma set_currentGeneration_within_bound (g : jsval) :
  respects within_log_bound (set_currentGeneration g).
Proof. intros w L. exact L. Qed.

Lemma set_nextRunTime_within_bound (t : Z) :
  respects within_log_bound (set_nextRunTime t).
Proof. intros w L. exact L. Qed.

Lemma push_outbox_within_bound (html : jsstring) :
  respects within_log_bound (push_outbox html).
Proof. intros w L. exact L. Qed.

Lemma writeFileSync_within_bound (f : file_name) (data : option jsstring) :
  respects within_log_bound (writeFileSync f data).
Proof. intros w L. destruct data as [t|]; [destruct f|]; exact L. Qed.

Lemma log_same_mail (m : log_message) (t : log_type) : respects same_mail (log m t).
Proof. intros w. split; reflexivity. Qed.

Lemma set_currentGeneration_same_mail (g : jsval) :
  respects same_mail (set_currentGeneration g).
Proof. intros w. split; reflexivity. Qed.

Lemma writeFileSync_same_mail (f : file_name) (data : option jsstring) :
  respects same_mail (writeFileSync f data).
Proof. intros w. destruct data as [t|]; [destruct f|]; split; reflexivity. Qed.

Create HintDb respects.
#[export] Hint Resolve respects_ret respects_lift respects_existsSync
  respects_readFileSync log_within_bound set_currentGeneration_within_bound
  set_nextRunTime_within_bound push_outbox_within_bound writeFileSync_within_bound
  log_same_mail set_currentGeneration_same_mail writeFileSync_same_mail : respects.

Ltac steady := solve [auto with respects typeclass_instances].

Ltac respects :=
  repeat first
    [ solve [auto with respects typeclass_instances]
    | apply respects_bind; [typeclasses eauto | | intros ?; cbv beta]
    | apply respects_try_catch; [typeclasses eauto | | intros ?; cbv beta]
    | match goal with
      | |- respects _ (if ?b then _ else _) => destruct b
      | |- respects _ (match ?x with _ => _ end) => destruct x
      end ].

Lemma getPastHeadlines_respects (R : World -> World -> Prop) `{!Steady R} :
  (forall m t, respects R (log m t)) -> respects R getPastHeadlines.
Proof. intros Hlog. unfold getPastHeadlines. respects. Qed.

Lemma saveHeadlines_respects `{Float64} (R : World -> World -> Prop) `{!Steady R}
      (items : list jsval) :
  (forall m t, respects R (log m t)) ->
  (forall f data, respects R (writeFileSync f data)) ->
  respects R (saveHeadlines items).
Proof.
  intros Hlog Hwrite. unfold saveHeadlines.
  apply respects_try_catch; [typeclasses eauto| |intros ?; apply Hlog].
  apply respects_bind;
    [typeclasses eauto|apply getPastHeadlines_respects; [typeclasses eauto|exact Hlog]|].
  intros ?. respects.
Qed.

Lemma fetchNews_respects `{Float64} (R : World -> World -> Prop) `{!Steady R}
      (p : jsval) (g : generator_outcome) :
  (forall m t, respects R (log m t)) ->
  (forall v, respects R (set_currentGeneration v)) ->
  respects R (fetchNews p g).
Proof. intros Hlog Hset. unfold fetchNews, extract. respects. Qed.

Lemma sendEmail_within_bound (html : jsstring) (m : mail_outcome) :
  respects within_log_bound (sendEmail html m).
Proof. unfold sendEmail. respects. Qed.

(** X2. The log never grows beyond 100 entries: a cycle of runBot that starts
    with at most 100 entries ends with at most 100, whether it returns or
    throws, and so do getPastHeadlines, saveHeadlines, fetchNews and
    sendEmail on their own. *)
Theorem runBot_log_bound `{Float64} (c : Cycle) (w : World) :
  length (logs w) <= 100 ->
  length (logs (snd (runBot c w))) <= 100
  /\ length (logs (snd (getPastHeadlines w))) <= 100
  /\ (forall items, length (logs (snd (saveHeadlines items w))) <= 100)
  /\ (forall p g, length (logs (snd (fetchNews p g w))) <= 100)
  /\ (forall html m, length (logs (snd (sendEmail html m w))) <= 100).
Proof.
  assert (G : respects within_log_bound getPastHeadlines)
    by (apply getPastHeadlines_respects; [typeclasses eauto|steady]).
  assert (S : forall items, respects within_log_bound (saveHeadlines items))
    by (intros items; apply saveHeadlines_respects;
        [typeclasses eauto|steady|steady]).
  assert (F : forall p g, respects within_log_bound (fetchNews p g))
    by (intros p g; apply fetchNews_respects;
        [typeclasses eauto|steady|steady]).
  intros L. split.
  - revert w L. change (respects within_log_bound (runBot c)). unfold runBot.
    apply respects_bind; [typeclasses eauto|steady|intros _].
    apply respects_bind; [typeclasses eauto|steady|intros _].
    apply respects_bind; [typeclasses eauto|exact G|intros p].
    apply respects_bind; [typeclasses eauto|apply F|intros r].
    apply respects_bind; [typeclasses eauto| |intros _; respects].
    destruct r as [[|item rest]|]; [steady| |steady].
    apply respects_bind; [typeclasses eauto|steady|intros html].
    apply respects_bind; [typeclasses eauto|apply sendEmail_within_bound|intros _].
    apply respects_bind; [typeclasses eauto|apply S|intros _].
    steady.
  - split; [exact (G w L)|].
    split; [intros items; exact (S items w L)|].
    split; [intros p g; exact (F p g w L)|].
    intros html m; exact (sendEmail_within_bound html m w L).
Qed.

Lemma runBot_log_bound_witness :
  length (logs full_log) <= 100
  /\ length (logs (snd (@runBot literal_numbers example_cycle full_log))) <= 100.
Proof.
  assert (L : length (logs full_log) <= 100) by (vm_compute; lia).
  exact (conj L (proj1 (@runBot_log_bound literal_numbers example_cycle full_log L))).
Defined.

(** ** The readers of the history files *)

(** X3. getPastHeadlines, index.js:81-91, never throws and writes no file.
    Without a file the answer is the empty array and the state is
    untouched; a file that parses gives the parsed value, whatever its
    kind; a file that does not parse gives the empty array and one error
    entry in the log. *)
Theorem getPastHeadlines_recovers (w : World) :
  (history_file w = None -> getPastHeadlines w = (Normal (VArray []), w))
  /\ (forall t v, history_file w = Some t -> JSON_parse t = Normal v ->
        getPastHeadlines w = (Normal v, w))
  /\ (forall t e, history_file w = Some t -> JSON_parse t = Throw e ->
        getPastHeadlines w
        = (Normal (VArray []),
           snd (log (MsgError (js "Error reading history file: ") e) TError w)))
  /\ (exists v, fst (getPastHeadlines w) = Normal v)
  /\ history_file (snd (getPastHeadlines w)) = history_file w
  /\ dashboard_file (snd (getPastHeadlines w)) = dashboard_file w.
Proof.
  rewrite getPastHeadlines_spec.
  split; [intros ->; reflexivity|].
  split; [intros t v -> ->; reflexivity|].
  split; [intros t e -> ->; reflexivity|].
  destruct (history_file w) as [t|] eqn:E.
  - destruct (JSON_parse t) as [v|e]; (split; [eexists; reflexivity|]); split;
      cbn [snd]; try assumption; reflexivity.
  - split; [eexists; reflexivity|]. split; [exact E|reflexivity].
Qed.

Lemma api_data_spec (w : World) :
  api_data w
  = (Normal {| answer_logs := logs w;
               answer_history := match digest_of (dashboard_file w) with
                                 | Normal v => v
                                 | Throw _ => VArray []
                                 end;
               answer_nextRun := nextRunTime w;
               answer_currentGeneration := currentGeneration w |}, w).
Proof.
  unfold api_data, api_data_history, try_catch, bind, existsSync, readFileSync, lift,
    read, ret, digest_of.
  destruct (dashboard_file w) as [t|] eqn:E; [|reflexivity].
  rewrite E. destruct (JSON_parse t); reflexivity.
Qed.

(** X4. The handler of GET /api/data, index.js:44-58, only reads: the state
    after it is the state before, nothing is logged, and the answer
    carries the log, nextRunTime and currentGeneration as they are.  Its
    history is the parsed digest file, and the empty array when the file
    is absent or does not parse. *)
Theorem api_data_read_only (w : World) :
  snd (api_data w) = w
  /\ exists h,
       fst (api_data w)
       = Normal {| answer_logs := logs w; answer_history := h;
                   answer_nextRun := nextRunTime w;
                   answer_currentGeneration := currentGeneration w |}
       /\ (dashboard_file w = None -> h = VArray [])
       /\ (forall t v, dashboard_file w = Some t -> JSON_parse t = Normal v -> h = v)
       /\ (forall t e, dashboard_file w = Some t -> JSON_parse t = Throw e -> h = VArray []).
Proof.
  rewrite api_data_spec. split; [reflexivity|].
  eexists. split; [reflexivity|]. unfold digest_of.
  split; [intros ->; reflexivity|].
  split; [intros t v -> ->; reflexivity|intros t e -> ->; reflexivity].
Qed.

(** ** saveHeadlines, step by step *)

Lemma getPastHeadlines_world (w : World) :
  getPastHeadlines w = (Normal (headlines_of (history_file w)), snd (getPastHeadlines w)).
Proof.
  pose proof (getPastHeadlines_value w) as V.
  destruct (getPastHeadlines w) as [[v|e] w1]; simpl in *; congruence.
Qed.

Lemma getPastHeadlines_frame (w : World) :
  history_file (snd (getPastHeadlines w)) = history_file w
  /\ dashboard_file (snd (getPastHeadlines w)) = dashboard_file w
  /\ nextRunTime (snd (getPastHeadlines w)) = nextRunTime w
  /\ currentGeneration (snd (getPastHeadlines w)) = currentGeneration w
  /\ outbox (snd (getPastHeadlines w)) = outbox w.
Proof.
  rewrite getPastHeadlines_spec.
  destruct (history_file w) as [t|] eqn:E; [|repeat split; exact E].
  destruct (JSON_parse t); repeat split; exact E.
Qed.

(** The statements of saveHeadlines in order: the titles, the spread of
    the headline history, the first write, the read and the spread of the
    digest history, the second write; the first one that throws sends the
    call to the catch block, in the state reached so far. *)
Lemma saveHeadlines_steps `{Float64} (items : list jsval) (w : World) :
  saveHeadlines items w
  = let w1 := snd (getPastHeadlines w) in
    match sequence (map (fun n => get_prop n (js "title")) items) with
    | Throw e => save_failed e w1
    | Normal titles =>
        match spread (headlines_of (history_file w)) with
        | Throw e => save_failed e w1
        | Normal old =>
            let w2 := snd (writeFileSync HISTORY_FILE
                             (JSON_stringify (VArray (lastn 50 (old ++ titles)))) w1) in
            match cbind (digest_of (dashboard_file w)) spread with
            | Throw e => save_failed e w2
            | Normal old' =>
                (Normal tt,
                 snd (writeFileSync DASHBOARD_FILE
                        (JSON_stringify (VArray (lastn 20 (old' ++ items)))) w2))
            end
        end
    end.
Proof.
  cbv zeta. unfold saveHeadlines, try_catch, save_failed.
  unfold bind at 1. rewrite (getPastHeadlines_world w).
  destruct (getPastHeadlines_frame w) as (_ & K2 & _).
  set (w1 := snd (getPastHeadlines w)) in *.
  unfold bind at 1. cbn [lift].
  destruct (sequence (map (fun n => get_prop n (js "title")) items)) as [titles|e];
    [|reflexivity].
  unfold bind at 1. cbn [lift].
  destruct (spread (headlines_of (history_file w))) as [old|e]; [|reflexivity].
  rewrite keep_last.
  destruct (JSON_stringify_array (lastn 50 (old ++ titles))) as [t1 E1].
  rewrite E1.
  unfold bind at 1. cbn [writeFileSync snd].
  unfold bind at 1. cbn [existsSync dashboard_file].
  unfold bind at 1.
  rewrite K2. unfold digest_of.
  destruct (dashboard_file w) as [t|] eqn:D.
  - unfold bind at 1. cbn [readFileSync lift dashboard_file]. try rewrite K2. try rewrite D.
    destruct (JSON_parse t) as [dv|e]; cbn [cbind]; [|reflexivity].
    unfold bind at 1. cbn [lift].
    destruct (spread dv) as [old'|e]; [|reflexivity].
    rewrite keep_last.
    destruct (JSON_stringify_array (lastn 20 (old' ++ items))) as [t2 E2].
    rewrite E2. reflexivity.
  - cbn [ret cbind spread].
    unfold bind at 1. cbn [lift spread].
    rewrite keep_last.
    destruct (JSON_stringify_array (lastn 20 ([] ++ items))) as [t2 E2].
    rewrite E2. reflexivity.
Qed.

Lemma write_history_array `{Float64} (l : list jsval) (w : World) :
  let w' := snd (writeFileSync HISTORY_FILE (JSON_stringify (VArray l)) w) in
  history_file w' = JSON_stringify (VArray l)
  /\ dashboard_file w' = dashboard_file w
  /\ logs w' = logs w
  /\ nextRunTime w' = nextRunTime w
  /\ currentGeneration w' = currentGeneration w
  /\ outbox w' = outbox w.
Proof.
  destruct (JSON_stringify_array l) as [t E]. rewrite E. repeat split.
Qed.

Lemma write_dashboard_array `{Float64} (l : list jsval) (w : World) :
  let w' := snd (writeFileSync DASHBOARD_FILE (JSON_stringify (VArray l)) w) in
  history_file w' = history_file w
  /\ dashboard_file w' = JSON_stringify (VArray l)
  /\ logs w' = logs w
  /\ nextRunTime w' = nextRunTime w
  /\ currentGeneration w' = currentGeneration w
  /\ outbox w' = outbox w.
Proof.
  destruct (JSON_stringify_array l) as [t E]. rewrite E. repeat split.
Qed.

Lemma save_failed_spec (e : js_error) (w : World) :
  fst (save_failed e w) = Normal tt
  /\ history_file (snd (save_failed e w)) = history_file w
  /\ dashboard_file (snd (save_failed e w)) = dashboard_file w
  /\ nextRunTime (snd (save_failed e w)) = nextRunTime w
  /\ currentGeneration (snd (save_failed e w)) = currentGeneration w
  /\ outbox (snd (save_failed e w)) = outbox w
  /\ exists older,
       logs (snd (save_failed e w))
       = older ++ [{| message := MsgError (js "Error saving history: ") e;
                      type := TError |}].
Proof.
  repeat (split; [reflexivity|]).
  exact (logged_newest (MsgError (js "Error saving history: ") e) TError w).
Qed.

(** X5. saveHeadlines, index.js:93-115, never throws, for any list of items
    and any state of the files, and it leaves nextRunTime,
    currentGeneration and the mails alone.  Afterwards either no file was
    written, or the headline file holds the text of an array of at most
    50 elements and the digest file is either untouched or holds the text
    of an array of at most 20 elements: the digest file is never written
    without the headline file. *)
Theorem saveHeadlines_never_throws `{Float64} (items : list jsval) (w : World) :
  let w' := snd (saveHeadlines items w) in
  fst (saveHeadlines items w) = Normal tt
  /\ nextRunTime w' = nextRunTime w
  /\ currentGeneration w' = currentGeneration w
  /\ outbox w' = outbox w
  /\ ((history_file w' = history_file w /\ dashboard_file w' = dashboard_file w)
      \/ exists hs,
           length hs <= 50
           /\ history_file w' = JSON_stringify (VArray hs)
           /\ (dashboard_file w' = dashboard_file w
               \/ exists ds,
                    length ds <= 20
                    /\ dashboard_file w' = JSON_stringify (VArray ds))).
Proof.
  cbv zeta. rewrite saveHeadlines_steps. cbv zeta.
  destruct (getPastHeadlines_frame w) as (K1 & K2 & K3 & K4 & K5).
  set (w1 := snd (getPastHeadlines w)) in *.
  destruct (sequence (map (fun n => get_prop n (js "title")) items)) as [titles|e].
  2:{ destruct (save_failed_spec e w1) as (F1 & F2 & F3 & F4 & F5 & F6 & _).
      repeat split; try congruence. left. split; congruence. }
  destruct (spread (headlines_of (history_file w))) as [old|e].
  2:{ destruct (save_failed_spec e w1) as (F1 & F2 & F3 & F4 & F5 & F6 & _).
      repeat split; try congruence. left. split; congruence. }
  destruct (write_history_array (lastn 50 (old ++ titles)) w1)
    as (W1 & W2 & _ & W4 & W5 & W6).
  set (w2 := snd (writeFileSync HISTORY_FILE _ w1)) in *.
  assert (L50 : length (lastn 50 (old ++ titles)) <= 50)
    by (rewrite lastn_length; lia).
  destruct (cbind (digest_of (dashboard_file w)) spread) as [old'|e].
  - destruct (write_dashboard_array (lastn 20 (old' ++ items)) w2)
      as (D1 & D2 & _ & D4 & D5 & D6).
    cbn [fst snd].
    repeat split; try congruence.
    right. exists (lastn 50 (old ++ titles)).
    split; [exact L50|]. split; [congruence|].
    right. exists (lastn 20 (old' ++ items)).
    split; [rewrite lastn_length; lia|exact D2].
  - destruct (save_failed_spec e w2) as (F1 & F2 & F3 & F4 & F5 & F6 & _).
    repeat split; try congruence.
    right. exists (lastn 50 (old ++ titles)).
    split; [exact L50|]. split; [congruence|]. left. congruence.
Qed.

Lemma titles_unreadable (items : list jsval) :
  forallb readable items = false ->
  sequence (map (fun n => get_prop n (js "title")) items) = Throw TypeError.
Proof.
  induction items as [|item rest IH]; intros E; [discriminate E|].
  cbn [forallb] in E. cbn [map sequence].
  destruct (readable item) eqn:R.
  - destruct (get_prop_readable item (js "title") R) as [v ->].
    rewrite (IH E). reflexivity.
  - destruct item; try discriminate R; reflexivity.
Qed.

(** X6. A list with an item that is null or undefined is not persisted at
    all: [n.title] throws inside the try block before the first write, so
    saveHeadlines returns with both files as they were, also for the
    other items of the list, and the error is the newest log entry. *)
Theorem saveHeadlines_unreadable_item `{Float64} (items : list jsval) (w : World) :
  forallb readable items = false ->
  fst (saveHeadlines items w) = Normal tt
  /\ history_file (snd (saveHeadlines items w)) = history_file w
  /\ dashboard_file (snd (saveHeadlines items w)) = dashboard_file w
  /\ exists older,
       logs (snd (saveHeadlines items w))
       = older ++ [{| message := MsgError (js "Error saving history: ") TypeError;
                      type := TError |}].
Proof.
  intros Hr. rewrite saveHeadlines_steps. cbv zeta.
  rewrite (titles_unreadable items Hr).
  destruct (getPastHeadlines_frame w) as (K1 & K2 & _).
  destruct (save_failed_spec TypeError (snd (getPastHeadlines w)))
    as (F1 & F2 & F3 & _ & _ & _ & F7).
  split; [exact F1|]. split; [congruence|]. split; [congruence|]. exact F7.
Qed.

Lemma saveHeadlines_unreadable_item_witness :
  forallb readable [news_record (js "A") (js "B") (js "good"); VNull] = false
  /\ history_file (snd (@saveHeadlines literal_numbers
                          [news_record (js "A") (js "B") (js "good"); VNull] fresh))
     = None
  /\ dashboard_file (snd (@saveHeadlines literal_numbers
                            [news_record (js "A") (js "B") (js "good"); VNull] fresh))
     = None.
Proof.
  assert (Hr : forallb readable [news_record (js "A") (js "B") (js "good"); VNull]
               = false) by reflexivity.
  destruct (@saveHeadlines_unreadable_item literal_numbers _ fresh Hr)
    as (_ & F2 & F3 & _).
  exact (conj Hr (conj F2 F3)).
Defined.

(** X7. When the digest history cannot be taken up (the digest file does not
    parse, or holds JSON that is neither an array nor a string), the
    headline file has already been rewritten with the new titles: the
    call ends in the catch block, the digest file keeps its content and
    the error is the newest log entry. *)
Theorem saveHeadlines_digest_failure `{Float64} (items old : list jsval) (e : js_error)
        (w : World) :
  forallb readable items = true ->
  spread (headlines_of (history_file w)) = Normal old ->
  cbind (digest_of (dashboard_file w)) spread = Throw e ->
  fst (saveHeadlines items w) = Normal tt
  /\ history_file (snd (saveHeadlines items w))
     = JSON_stringify (VArray (lastn 50 (old ++ map title_of items)))
  /\ dashboard_file (snd (saveHeadlines items w)) = dashboard_file w
  /\ exists older,
       logs (snd (saveHeadlines items w))
       = older ++ [{| message := MsgError (js "Error saving history: ") e;
                      type := TError |}].
Proof.
  intros Hr Hh Hd. rewrite saveHeadlines_steps. cbv zeta.
  rewrite (titles_readable items Hr), Hh, Hd.
  destruct (getPastHeadlines_frame w) as (K1 & K2 & _).
  destruct (write_history_array (lastn 50 (old ++ map title_of items))
              (snd (getPastHeadlines w))) as (W1 & W2 & _).
  set (w2 := snd (writeFileSync HISTORY_FILE _ _)) in *.
  destruct (save_failed_spec e w2) as (F1 & F2 & F3 & _ & _ & _ & F7).
  split; [exact F1|]. split; [congruence|]. split; [congruence|]. exact F7.
Qed.

Lemma saveHeadlines_digest_failure_witness :
  forallb readable example_items = true
  /\ spread (headlines_of (history_file corrupt_digest)) = Normal []
  /\ cbind (digest_of (dashboard_file corrupt_digest)) spread = Throw SyntaxError
  /\ history_file (snd (@saveHeadlines literal_numbers example_items corrupt_digest))
     = @JSON_stringify literal_numbers (VArray [VString (js "A")])
  /\ dashboard_file (snd (@saveHeadlines literal_numbers example_items corrupt_digest))
     = Some (js "oops").
Proof.
  assert (H1 : forallb readable example_items = true) by reflexivity.
  assert (H2 : spread (headlines_of (history_file corrupt_digest)) = Normal [])
    by reflexivity.
  assert (H3 : cbind (digest_of (dashboard_file corrupt_digest)) spread
               = Throw SyntaxError) by reflexivity.
  destruct (@saveHeadlines_digest_failure literal_numbers example_items [] SyntaxError
              corrupt_digest H1 H2 H3) as (_ & S1 & S2 & _).
  exact (conj H1 (conj H2 (conj H3 (conj S1 S2)))).
Defined.

(** X8. A record without [title] property, index.js:97-100 and 220-225: its
    card prints the text undefined where the title goes, and
    saveHeadlines stores [null] for it ([JSON.stringify] has no text for
    undefined inside an array), so that on a first save the past
    headlines read back as the one-element array of null. *)
Theorem item_without_title `{Float64} (o : props) (summary color : jsstring) (w : World) :
  get_own o (js "title") = None ->
  get_own o (js "summary") = Some (VString summary) ->
  history_file w = None ->
  createCard (VObject o) color
  = Normal (card_open ++ color ++ card_before_title ++ js "undefined"
            ++ card_before_summary ++ summary ++ card_close)
  /\ history_file (snd (saveHeadlines [VObject o] w))
     = Some (js "[" ++ nl ++ js "  null" ++ nl ++ js "]")
  /\ fst (getPastHeadlines (snd (saveHeadlines [VObject o] w)))
     = Normal (VArray [VNull]).
Proof.
  intros Ht Hs Hh.
  split; [unfold createCard; cbn [get_prop]; rewrite Ht, Hs; reflexivity|].
  assert (E : history_file (snd (saveHeadlines [VObject o] w))
              = Some (js "[" ++ nl ++ js "  null" ++ nl ++ js "]")).
  { rewrite saveHeadlines_steps. cbv zeta.
    cbn [map sequence get_prop]. rewrite Ht, Hh.
    cbn [headlines_of spread app].
    destruct (cbind (digest_of (dashboard_file w)) spread) as [old'|e].
    - cbn [snd].
      destruct (write_dashboard_array (lastn 20 (old' ++ [VObject o]))
                  (snd (writeFileSync HISTORY_FILE
                          (JSON_stringify (VArray (lastn 50 [VUndefined])))
                          (snd (getPastHeadlines w))))) as (D1 & _).
      rewrite D1. reflexivity.
    - reflexivity. }
  split; [exact E|].
  rewrite getPastHeadlines_value, E. reflexivity.
Qed.

Lemma item_without_title_witness :
  get_own [(js "summary", VString (js "D"))] (js "title") = None
  /\ get_own [(js "summary", VString (js "D"))] (js "summary") = Some (VString (js "D"))
  /\ history_file fresh = None
  /\ fst (getPastHeadlines
            (snd (@saveHeadlines literal_numbers
                    [VObject [(js "summary", VString (js "D"))]] fresh)))
     = Normal (VArray [VNull]).
Proof.
  destruct (@item_without_title literal_numbers [(js "summary", VString (js "D"))]
              (js "D") (js "#27ae60") fresh eq_refl eq_refl eq_refl) as (_ & _ & R).
  exact (conj eq_refl (conj eq_refl (conj eq_refl R))).
Defined.

(** ** Extraction: what surrounds the object is ignored *)

Lemma lacks_app (c : char16) (a b : jsstring) :
  lacks c (a ++ b) = lacks c a && lacks c b.
Proof. apply forallb_app. Qed.

Lemma lacks_rev (c : char16) (s : jsstring) : lacks c (rev s) = lacks c s.
Proof.
  induction s as [|x s IH]; [reflexivity|].
  cbn [rev]. rewrite lacks_app, IH. cbn [lacks forallb].
  rewrite andb_true_r. apply andb_comm.
Qed.

Lemma indexOf_range (c : char16) (s : jsstring) : (-1 <= indexOf c s)%Z.
Proof.
  induction s as [|x s IH]; cbn [indexOf]; [lia|].
  destruct (chr_eqb x c); [lia|]. destruct (indexOf c s <? 0)%Z eqn:E; [lia|].
  apply Z.ltb_ge in E. lia.
Qed.

Lemma indexOf_lacks (c : char16) (s : jsstring) :
  indexOf c s = (-1)%Z <-> lacks c s = true.
Proof.
  induction s as [|x s IH]; cbn [indexOf lacks forallb]; [tauto|].
  fold (lacks c s). pose proof (indexOf_range c s) as R.
  destruct (chr_eqb x c); cbn [negb andb].
  - split; discriminate.
  - destruct (indexOf c s <? 0)%Z eqn:E.
    + apply Z.ltb_lt in E. rewrite <- IH. split; intros _; [lia|reflexivity].
    + apply Z.ltb_ge in E. rewrite <- IH. split; intros E'; lia.
Qed.

Lemma lastIndexOf_range (c : char16) (s : jsstring) : (-1 <= lastIndexOf c s)%Z.
Proof.
  induction s as [|x s IH]; cbn [lastIndexOf]; [lia|].
  destruct (0 <=? lastIndexOf c s)%Z eqn:E; [apply Z.leb_le in E; lia|].
  destruct (chr_eqb x c); lia.
Qed.

Lemma lastIndexOf_lacks (c : char16) (s : jsstring) :
  lastIndexOf c s = (-1)%Z <-> lacks c s = true.
Proof.
  induction s as [|x s IH]; cbn [lastIndexOf lacks forallb]; [tauto|].
  fold (lacks c s). pose proof (lastIndexOf_range c s) as R.
  destruct (0 <=? lastIndexOf c s)%Z eqn:E.
  - apply Z.leb_le in E. split; intros E'; [lia|].
    apply andb_prop in E' as [_ E']. apply IH in E'. lia.
  - apply Z.leb_gt in E. destruct (chr_eqb x c); cbn [negb andb].
    + split; discriminate.
    + rewrite <- IH. split; intros _; [lia|reflexivity].
Qed.

Lemma indexOf_first (c : char16) (a r : jsstring) :
  lacks c a = true -> indexOf c (a ++ c :: r) = Z.of_nat (length a).
Proof.
  induction a as [|x a IH]; intros L.
  - apply indexOf_head.
  - cbn [lacks forallb] in L. apply andb_prop in L as [L1 L2].
    cbn [app indexOf]. apply negb_true_iff in L1. rewrite L1, (IH L2).
    destruct (Z.of_nat (length a) <? 0)%Z eqn:E; [apply Z.ltb_lt in E; lia|].
    cbn [length]. lia.
Qed.

Lemma lastIndexOf_final (c : char16) (r b : jsstring) :
  lacks c b = true -> lastIndexOf c (r ++ c :: b) = Z.of_nat (length r).
Proof.
  intros L. apply lastIndexOf_lacks in L.
  induction r as [|x r IH].
  - cbn [app lastIndexOf]. rewrite L. cbn. unfold chr_eqb. rewrite N.eqb_refl. reflexivity.
  - cbn [app lastIndexOf]. rewrite IH.
    destruct (0 <=? Z.of_nat (length r))%Z eqn:E; [|apply Z.leb_gt in E; lia].
    cbn [length]. lia.
Qed.

Lemma trim_start_app (a r : jsstring) (x : char16) :
  is_js_space x = false -> trim_start (a ++ x :: r) = trim_start a ++ x :: r.
Proof.
  intros E. induction a as [|c a IH].
  - cbn [app trim_start]. rewrite E. reflexivity.
  - cbn [app trim_start]. destruct (is_js_space c); [exact IH|reflexivity].
Qed.

Lemma trim_end_app (r b : jsstring) (y : char16) :
  is_js_space y = false -> trim_end (r ++ y :: b) = r ++ y :: trim_end b.
Proof.
  intros E. unfold trim_end.
  rewrite rev_app_distr. cbn [rev]. rewrite <- app_assoc. cbn [app].
  rewrite (trim_start_app _ _ _ E), rev_app_distr. cbn [rev].
  rewrite rev_involutive, <- app_assoc. reflexivity.
Qed.

Lemma lacks_trim_start (c : char16) (s : jsstring) :
  lacks c s = true -> lacks c (trim_start s) = true.
Proof.
  induction s as [|x s IH]; intros L; [reflexivity|].
  cbn [trim_start]. destruct (is_js_space x); [|exact L].
  cbn [lacks forallb] in L. apply andb_prop in L as [_ L]. exact (IH L).
Qed.

Lemma lacks_trim_end (c : char16) (s : jsstring) :
  lacks c s = true -> lacks c (trim_end s) = true.
Proof.
  intros L. unfold trim_end. rewrite lacks_rev. apply lacks_trim_start.
  rewrite lacks_rev. exact L.
Qed.

Lemma starts_with_before (pat a r : jsstring) (x : char16) :
  lacks x pat = true -> starts_with pat (a ++ x :: r) = starts_with pat a.
Proof.
  revert a. induction pat as [|p pat IH]; intros a L; [reflexivity|].
  cbn [lacks forallb] in L. apply andb_prop in L as [L1 L2].
  destruct a as [|c a]; cbn [app starts_with].
  - apply negb_true_iff in L1. rewrite L1. reflexivity.
  - rewrite (IH a L2). reflexivity.
Qed.

(** A match of the pattern cannot reach into a text that begins with a
    character the pattern does not contain. *)
Lemma remove_from_before (pat a r : jsstring) (x : char16) (k : nat) :
  lacks x pat = true -> k <= length a ->
  remove_from pat k (a ++ x :: r) = remove_from pat k a ++ remove_from pat 0 (x :: r).
Proof.
  intros L. revert k. induction a as [|c a IH]; intros k K.
  - cbn [length] in K. replace k with 0 by lia. reflexivity.
  - cbn [app]. cbn [remove_from]. destruct k as [|k].
    + change (c :: a ++ x :: r) with ((c :: a) ++ x :: r).
      rewrite (starts_with_before pat (c :: a) r x L).
      destruct (starts_with pat (c :: a)) eqn:S.
      * apply starts_with_length in S. cbn [length] in S.
        apply IH. lia.
      * cbn [app]. f_equal. apply IH. lia.
    + apply IH. cbn [length] in K. lia.
Qed.

(** No match begins in a text without the first character of the pattern. *)
Lemma remove_from_plain (p : char16) (pat a s : jsstring) :
  lacks p a = true ->
  remove_from (p :: pat) 0 (a ++ s) = a ++ remove_from (p :: pat) 0 s.
Proof.
  induction a as [|c a IH]; intros L; [reflexivity|].
  cbn [lacks forallb] in L. apply andb_prop in L as [L1 L2].
  cbn [app]. cbn [remove_from starts_with].
  apply negb_true_iff in L1. unfold chr_eqb in *. rewrite N.eqb_sym, L1.
  cbn [andb]. f_equal. exact (IH L2).
Qed.

Lemma lacks_remove_from (c : char16) (pat s : jsstring) (k : nat) :
  lacks c s = true -> lacks c (remove_from pat k s) = true.
Proof.
  revert k. induction s as [|x s IH]; intros k L; [reflexivity|].
  cbn [lacks forallb] in L. apply andb_prop in L as [L1 L2].
  cbn [remove_from]. destruct k as [|k]; [|exact (IH k L2)].
  destruct (starts_with pat (x :: s)); [exact (IH _ L2)|].
  cbn [lacks forallb]. rewrite L1. exact (IH 0 L2).
Qed.

(** The deletion of a pattern that begins with a backtick, around a text
    that begins with [x] and has no backtick. *)
Lemma remove_all_around (pat pre M post : jsstring) (x : char16) :
  lacks x (backtick :: pat) = true ->
  lacks backtick (x :: M) = true ->
  remove_all (backtick :: pat) (pre ++ (x :: M) ++ post)
  = remove_all (backtick :: pat) pre ++ (x :: M) ++ remove_all (backtick :: pat) post.
Proof.
  intros Lx Lm. unfold remove_all.
  change (pre ++ (x :: M) ++ post) with (pre ++ x :: (M ++ post)).
  rewrite (remove_from_before _ pre (M ++ post) x 0 Lx) by lia.
  change (x :: M ++ post) with ((x :: M) ++ post).
  rewrite (remove_from_plain backtick pat (x :: M) post Lm). reflexivity.
Qed.

Lemma substring_middle (a m b : jsstring) :
  substring (a ++ m ++ b) (Z.of_nat (length a)) (Z.of_nat (length a + length m)) = m.
Proof.
  unfold substring, clamp. rewrite !length_app.
  set (x := length a). set (y := length m). set (z := length b).
  replace (Z.min (Z.max (Z.of_nat x) 0) (Z.of_nat (x + (y + z)))) with (Z.of_nat x) by lia.
  replace (Z.min (Z.max (Z.of_nat (x + y)) 0) (Z.of_nat (x + (y + z))))
    with (Z.of_nat (x + y)) by lia.
  replace (Z.min (Z.of_nat x) (Z.of_nat (x + y))) with (Z.of_nat x) by lia.
  replace (Z.max (Z.of_nat x) (Z.of_nat (x + y)) - Z.of_nat x)%Z with (Z.of_nat y) by lia.
  rewrite !Nat2Z.id. unfold x, y.
  rewrite skipn_app, skipn_all, Nat.sub_diag. cbn [app skipn].
  rewrite firstn_app, firstn_all, Nat.sub_diag. cbn [firstn]. apply app_nil_r.
Qed.

(** X9. The cleaning of a response that carries one object: with no opening
    brace before it, no closing brace after it and no backtick inside it,
    whatever else surrounds the object (prose, white space, fences with
    or without the json tag) is dropped, and JSON.parse receives the
    object alone; the extraction then returns what it would return for
    the object alone. *)
Theorem clean_object_in_prose (pre body post : jsstring) :
  indexOf (ch "{") pre = (-1)%Z ->
  lastIndexOf (ch "}") post = (-1)%Z ->
  indexOf backtick body = (-1)%Z ->
  clean (pre ++ ch "{" :: body ++ ch "}" :: post) = ch "{" :: body ++ [ch "}"]
  /\ forall `{Float64} w,
       fst (extract (pre ++ ch "{" :: body ++ ch "}" :: post) w)
       = Normal (news_array (JSON_parse (ch "{" :: body ++ [ch "}"]))).
Proof.
  intros Hpre Hpost Hbody.
  apply indexOf_lacks in Hpre. apply lastIndexOf_lacks in Hpost.
  apply indexOf_lacks in Hbody.
  assert (C : clean (pre ++ ch "{" :: body ++ ch "}" :: post)
              = ch "{" :: body ++ [ch "}"]).
  { unfold clean.
    assert (T : trim (pre ++ ch "{" :: body ++ ch "}" :: post)
                = trim_start pre ++ (ch "{" :: body ++ [ch "}"]) ++ trim_end post).
    { unfold trim. rewrite trim_start_app by reflexivity.
      change (trim_start pre ++ ch "{" :: body ++ ch "}" :: post)
        with (trim_start pre ++ (ch "{" :: body) ++ ch "}" :: post).
      rewrite app_assoc, trim_end_app by reflexivity.
      rewrite <- !app_assoc. cbn [app]. rewrite <- !app_assoc. reflexivity. }
    rewrite T. clear T.
    assert (Lm : lacks backtick (ch "{" :: body ++ [ch "}"]) = true).
    { change (ch "{" :: body ++ [ch "}"]) with ([ch "{"] ++ body ++ [ch "}"]).
      rewrite !lacks_app, Hbody. reflexivity. }
    rewrite (remove_all_around (js "``json") _ (body ++ [ch "}"]) _ (ch "{") eq_refl Lm).
    rewrite (remove_all_around (js "``") _ (body ++ [ch "}"]) _ (ch "{") eq_refl Lm).
    set (pre' := remove_all (backtick :: js "``")
                   (remove_all (backtick :: js "``json") (trim_start pre))).
    set (post' := remove_all (backtick :: js "``")
                    (remove_all (backtick :: js "``json") (trim_end post))).
    assert (Lpre : lacks (ch "{") pre' = true)
      by (apply lacks_remove_from, lacks_remove_from, lacks_trim_start, Hpre).
    assert (Lpost : lacks (ch "}") post' = true)
      by (apply lacks_remove_from, lacks_remove_from, lacks_trim_end, Hpost).
    assert (I : indexOf (ch "{") (pre' ++ (ch "{" :: body ++ [ch "}"]) ++ post')
                = Z.of_nat (length pre')).
    { change (pre' ++ (ch "{" :: body ++ [ch "}"]) ++ post')
        with (pre' ++ ch "{" :: (body ++ [ch "}"]) ++ post').
      exact (indexOf_first _ pre' _ Lpre). }
    assert (J : lastIndexOf (ch "}") (pre' ++ (ch "{" :: body ++ [ch "}"]) ++ post')
                = Z.of_nat (length (pre' ++ ch "{" :: body))).
    { replace (pre' ++ (ch "{" :: body ++ [ch "}"]) ++ post')
        with ((pre' ++ ch "{" :: body) ++ ch "}" :: post')
        by (rewrite <- !app_assoc; cbn [app]; rewrite <- app_assoc; reflexivity).
      exact (lastIndexOf_final _ (pre' ++ ch "{" :: body) _ Lpost). }
    rewrite !I, !J.
    assert (E1 : (Z.of_nat (length pre') =? -1)%Z = false) by (apply Z.eqb_neq; lia).
    assert (E2 : (Z.of_nat (length (pre' ++ ch "{" :: body)) =? -1)%Z = false)
      by (apply Z.eqb_neq; lia).
    rewrite E1, E2. cbn [negb andb].
    replace (Z.of_nat (length (pre' ++ ch "{" :: body)) + 1)%Z
      with (Z.of_nat (length pre' + length (ch "{" :: body ++ [ch "}"])))
      by (rewrite !length_app; cbn [length]; rewrite length_app; cbn [length]; lia).
    apply substring_middle. }
  split; [exact C|].
  intros F w. rewrite extract_spec, C. reflexivity.
Qed.

Lemma clean_object_in_prose_witness :
  indexOf (ch "{") (js "Here it is: ```json ") = (-1)%Z
  /\ lastIndexOf (ch "}") (js " ``` Bye.") = (-1)%Z
  /\ indexOf backtick clean_body = (-1)%Z
  /\ clean (js "Here it is: ```json " ++ ch "{" :: clean_body ++ ch "}" :: js " ``` Bye.")
     = ch "{" :: clean_body ++ [ch "}"].
Proof.
  assert (H1 : indexOf (ch "{") (js "Here it is: ```json ") = (-1)%Z) by reflexivity.
  assert (H2 : lastIndexOf (ch "}") (js " ``` Bye.") = (-1)%Z) by reflexivity.
  assert (H3 : indexOf backtick clean_body = (-1)%Z) by reflexivity.
  exact (conj H1 (conj H2 (conj H3
           (proj1 (clean_object_in_prose _ clean_body _ H1 H2 H3))))).
Defined.

Lemma skip_ws_suffix (s : jsstring) : exists ws, s = ws ++ skip_ws s.
Proof.
  induction s as [|c s [ws IH]]; [exists []; reflexivity|].
  cbn [skip_ws]. destruct (is_json_space c).
  - exists (c :: ws). cbn [app]. f_equal. exact IH.
  - exists []. reflexivity.
Qed.

(** Only a text whose first character after the white space is the
    opening brace is read as an object. *)
Lemma parse_value_object (f : nat) (s rest : jsstring) (o : props) :
  parse_value f s = Parsed (VObject o) rest -> exists t, skip_ws s = ch "{" :: t.
Proof.
  destruct f as [|f]; [discriminate|]. cbn [parse_value].
  destruct (skip_ws s) as [|c r]; [discriminate|].
  destruct (c =? 123)%N eqn:E.
  - apply N.eqb_eq in E. subst c. intros _. exists r. reflexivity.
  - destruct (c =? 91)%N.
    { destruct (skip_ws r) as [|c' r']; [discriminate|].
      destruct (c' =? 93)%N; [discriminate|].
      destruct (parse_elements f (c' :: r')); discriminate. }
    destruct (c =? 34)%N.
    { destruct (parse_chars r) as [[str rest']|]; discriminate. }
    unfold parse_literal.
    destruct (c =? 116)%N; [destruct (starts_with _ _); discriminate|].
    destruct (c =? 102)%N; [destruct (starts_with _ _); discriminate|].
    destruct (c =? 110)%N; [destruct (starts_with _ _); discriminate|].
    destruct (parse_number (c :: r)) as [[lit rest']|]; discriminate.
Qed.

Lemma news_array_brace (text : jsstring) (items : list jsval) :
  news_array (JSON_parse text) = Some items -> lacks (ch "{") text = false.
Proof.
  unfold news_array, JSON_parse. intros E.
  destruct (parse_value (2 * length text + 2) text) as [v rest| |] eqn:P;
    try discriminate E.
  destruct (skip_ws rest); [|discriminate E].
  destruct v as [| |b|n|s|l|o]; try discriminate E.
  destruct (parse_value_object _ _ _ _ P) as [t Ht].
  destruct (skip_ws_suffix text) as [ws Hws].
  rewrite Hws, Ht, lacks_app. cbn [lacks forallb].
  unfold chr_eqb. rewrite N.eqb_refl. cbn [negb andb]. apply andb_false_r.
Qed.

Lemma lacks_clean (text : jsstring) :
  lacks (ch "{") text = true -> lacks (ch "{") (clean text) = true.
Proof.
  intros L. unfold clean.
  assert (L' : lacks (ch "{")
                 (remove_all (js "```") (remove_all (js "```json") (trim text))) = true).
  { apply lacks_remove_from, lacks_remove_from. unfold trim.
    apply lacks_trim_end, lacks_trim_start, L. }
  pose proof L' as I. apply indexOf_lacks in I. rewrite I. exact L'.
Qed.

(** X10. A response without an opening brace gives the sentinel: the cleaned
    text has none either, so JSON.parse cannot read an object from it. *)
Theorem extract_without_brace `{Float64} (text : jsstring) (w : World) :
  indexOf (ch "{") text = (-1)%Z ->
  fst (extract text w) = Normal None.
Proof.
  intros E. apply indexOf_lacks in E.
  rewrite extract_spec. f_equal.
  destruct (news_array (JSON_parse (clean text))) as [items|] eqn:N; [|reflexivity].
  apply news_array_brace in N. rewrite (lacks_clean text E) in N. discriminate N.
Qed.

Lemma extract_without_brace_witness :
  indexOf (ch "{") (js "[1, 2, 3]") = (-1)%Z
  /\ fst (@extract literal_numbers (js "[1, 2, 3]") fresh) = Normal None.
Proof.
  assert (E : indexOf (ch "{") (js "[1, 2, 3]") = (-1)%Z) by reflexivity.
  exact (conj E (@extract_without_brace literal_numbers (js "[1, 2, 3]") fresh E)).
Defined.

(** ** fetchNews: requests that fail *)

Lemma logged_newest_two (m1 m2 : log_message) (t1 t2 : log_type) (w : World) :
  exists older,
    logs (logged m2 t2 (logged m1 t1 w))
    = older ++ [{| message := m1; type := t1 |}; {| message := m2; type := t2 |}].
Proof.
  destruct (logged_newest m1 t1 w) as [older E].
  unfold logged at 1. unfold log, bind, read, set_logs. cbn [snd logs].
  rewrite E.
  destruct (100 <? length ((older ++ [{| message := m1; type := t1 |}])
                           ++ [{| message := m2; type := t2 |}])) eqn:L.
  - destruct older as [|x older].
    + discriminate L.
    + exists older. cbn [app tl]. rewrite <- app_assoc. reflexivity.
  - exists older. rewrite <- app_assoc. reflexivity.
Qed.

Lemma Array_join_not_array `{Float64} (p : jsval) (sep : jsstring) :
  isArray p = false -> Array_join p sep = Throw TypeError.
Proof. destruct p; try reflexivity. discriminate. Qed.






(** ** fetchNews: an answer that came back *)

Lemma extract_frame `{Float64} (text : jsstring) (w : World) :
  history_file (snd (extract text w)) = history_file w
  /\ dashboard_file (snd (extract text w)) = dashboard_file w
  /\ outbox (snd (extract text w)) = outbox w
  /\ nextRunTime (snd (extract text w)) = nextRunTime w
  /\ currentGeneration (snd (extract text w)) = currentGeneration w.
Proof.
  unfold extract, try_catch, bind, lift, ret.
  destruct (parse_news (clean text)); repeat split.
Qed.

(** X13. Once the answer has passed the check of the envelope, index.js:168-173,
    currentGeneration is the content of the answer, also when that
    content is no text or when nothing can be extracted from it; the
    result is the news array read from the cleaned text, and null for a
    content that is not a text. *)
Theorem fetchNews_shows_answer `{Float64} (p data content : jsval) (ex : jsstring)
        (w : World) :
  Array_join p (js ", ") = Normal ex ->
  response_content data = Normal content ->
  let w' := snd (fetchNews p (Response data) w) in
  currentGeneration w' = content
  /\ fst (fetchNews p (Response data) w)
     = Normal match content with
              | VString text => news_array (JSON_parse (clean text))
              | _ => None
              end
  /\ history_file w' = history_file w /\ dashboard_file w' = dashboard_file w
  /\ outbox w' = outbox w /\ nextRunTime w' = nextRunTime w.
Proof.
  intros J C w'.
  assert (R : fst (fetchNews p (Response data) w)
              = Normal match content with
                       | VString text => news_array (JSON_parse (clean text))
                       | _ => None
                       end).
  { rewrite fetchNews_result. unfold fetched. rewrite J, C.
    destruct content; reflexivity. }
  split; [|split; [exact R|]].
  - unfold w', fetchNews, try_catch. rewrite bind_log.
    unfold bind at 1. cbn [set_currentGeneration].
    unfold bind at 1. cbn [lift]. rewrite J.
    unfold bind at 1. cbn [ret].
    unfold bind at 1. cbn [lift]. rewrite C.
    unfold bind at 1. cbn [set_currentGeneration].
    rewrite bind_log.
    destruct content as [| |b|n|text|l|o]; try reflexivity.
    match goal with |- context [extract text ?w0] =>
      destruct (extract_frame text w0) as (_ & _ & _ & _ & G);
      pose proof (extract_spec text w0) as S;
      destruct (extract text w0) as [[r|e] w1] end;
      cbn [fst snd] in *; [exact G|discriminate S].
  - destruct (keeps_files_fetchNews p (Response data) w) as [K1 K2].
    destruct (fetchNews_respects same_mail p (Response data)
                log_same_mail set_currentGeneration_same_mail w) as [K3 K4].
    auto.
Qed.

Lemma fetchNews_shows_answer_witness :
  @Array_join literal_numbers (VArray []) (js ", ") = Normal []
  /\ @response_content literal_numbers prose_answer = Normal (VString (js "sorry, no news"))
  /\ currentGeneration (snd (@fetchNews literal_numbers (VArray []) (Response prose_answer) fresh))
     = VString (js "sorry, no news")
  /\ fst (@fetchNews literal_numbers (VArray []) (Response prose_answer) fresh) = Normal None.
Proof.
  destruct (@fetchNews_shows_answer literal_numbers (VArray []) prose_answer
              (VString (js "sorry, no news")) [] fresh eq_refl eq_refl) as (R1 & R2 & _).
  exact (conj eq_refl (conj eq_refl (conj R1 R2))).
Defined.

(** ** Rendering and mailing *)

Lemma str_eqb_eq (a b : jsstring) : str_eqb a b = true -> a = b.
Proof.
  revert b. induction a as [|x a IH]; intros [|y b] E; try discriminate E;
    [reflexivity|].
  cbn [str_eqb] in E. apply andb_prop in E as [E1 E2].
  apply N.eqb_eq in E1. rewrite E1, (IH b E2). reflexivity.
Qed.

Lemma filter_idem {A : Type} (p : A -> bool) (l : list A) :
  filter p (filter p l) = filter p l.
Proof. apply filter_narrow. auto. Qed.

Lemma filter_disjoint {A : Type} (p q : A -> bool) (l : list A) :
  (forall x, p x = true -> q x = false) -> filter q (filter p l) = [].
Proof.
  intros D. induction l as [|x l IH]; [reflexivity|].
  cbn [filter]. destruct (p x) eqn:P; [|exact IH].
  cbn [filter]. rewrite (D x P). exact IH.
Qed.

Lemma of_type_regrouped (t : jsstring) (l : list NewsItem) :
  t = js "good" \/ t = js "shocking" ->
  of_type t (of_type (js "good") l ++ of_type (js "shocking") l) = of_type t l.
Proof.
  unfold of_type. intros [-> | ->]; rewrite filter_app.
  - rewrite filter_idem, filter_disjoint, app_nil_r; [reflexivity|].
    intros n E. apply str_eqb_eq in E. rewrite E. reflexivity.
  - rewrite filter_idem, filter_disjoint; [reflexivity|].
    intros n E. apply str_eqb_eq in E. rewrite E. reflexivity.
Qed.

(** X14. generateHtml on news records (title, summary and type are texts)
    always returns a document: the fixed frame with the date, then the
    good section made of the cards of the good records, then the shocking
    section made of the cards of the shocking ones; a section without
    record is left out and the cards of a section keep the order of the
    list.  How the two kinds are interleaved in the list does not show:
    the document is the one of the good records followed by the shocking
    ones. *)
Theorem generateHtml_groups_records `{Float64} (date : jsstring) (l : list NewsItem) :
  generateHtml date (map item_value l)
  = Normal (doc_before_logo ++ LOGO_URL ++ doc_before_date ++ date ++ doc_before_good
            ++ section_of good_heading good_close (js "#27ae60") (of_type (js "good") l)
            ++ doc_between_sections
            ++ section_of shocking_heading shocking_close (js "#c0392b")
                 (of_type (js "shocking") l)
            ++ doc_after_shocking)
  /\ generateHtml date (map item_value l)
     = generateHtml date
         (map item_value (of_type (js "good") l ++ of_type (js "shocking") l)).
Proof.
  split; [apply generateHtml_records|].
  rewrite !generateHtml_records, !of_type_regrouped by auto. reflexivity.
Qed.

Lemma concat_cards_split (color : jsstring) (n : NewsItem) (l : list NewsItem) :
  In n l ->
  exists before after,
    concat (map (card color) l) = before ++ card color n ++ after.
Proof.
  intros I. apply in_split in I as (l1 & l2 & ->).
  exists (concat (map (card color) l1)), (concat (map (card color) l2)).
  rewrite map_app, concat_app. reflexivity.
Qed.

(** X15. The title and the summary of a record go into the document as they
    are: generateHtml escapes nothing.  For every good or shocking record
    of the list the document contains its title, the fixed text between
    title and summary, and its summary, unchanged. *)
Theorem generateHtml_verbatim `{Float64} (date : jsstring) (l : list NewsItem)
        (n : NewsItem) :
  In n l ->
  item_type n = js "good" \/ item_type n = js "shocking" ->
  exists before after,
    generateHtml date (map item_value l)
    = Normal (before ++ item_title n ++ card_before_summary ++ item_summary n ++ after).
Proof.
  intros I T. rewrite generateHtml_records.
  destruct T as [T|T].
  - assert (I' : In n (of_type (js "good") l)).
    { unfold of_type. apply filter_In. split; [exact I|]. rewrite T. reflexivity. }
    destruct (concat_cards_split (js "#27ae60") n _ I') as (b & a & E).
    unfold section_of at 1.
    destruct (of_type (js "good") l) as [|x g] eqn:G; [contradiction|].
    rewrite E. unfold card.
    eexists (doc_before_logo ++ LOGO_URL ++ doc_before_date ++ date ++ doc_before_good
             ++ good_heading ++ b ++ card_open ++ js "#27ae60" ++ card_before_title), _.
    f_equal. rewrite <- !app_assoc. reflexivity.
  - assert (I' : In n (of_type (js "shocking") l)).
    { unfold of_type. apply filter_In. split; [exact I|]. rewrite T. reflexivity. }
    destruct (concat_cards_split (js "#c0392b") n _ I') as (b & a & E).
    unfold section_of at 2.
    destruct (of_type (js "shocking") l) as [|x g] eqn:G; [contradiction|].
    rewrite E. unfold card.
    eexists (doc_before_logo ++ LOGO_URL ++ doc_before_date ++ date ++ doc_before_good
             ++ section_of good_heading good_close (js "#27ae60") (of_type (js "good") l)
             ++ doc_between_sections
             ++ shocking_heading ++ b ++ card_open ++ js "#c0392b" ++ card_before_title), _.
    f_equal. rewrite <- !app_assoc. reflexivity.
Qed.

Lemma generateHtml_verbatim_witness :
  In example_record [example_record]
  /\ (item_type example_record = js "good" \/ item_type example_record = js "shocking")
  /\ exists before after,
       @generateHtml literal_numbers (js "1/1/2026") (map item_value [example_record])
       = Normal (before ++ js "A" ++ card_before_summary ++ js "B" ++ after).
Proof.
  assert (H1 : In example_record [example_record]) by (left; reflexivity).
  assert (H2 : item_type example_record = js "good"
               \/ item_type example_record = js "shocking") by (left; reflexivity).
  exact (conj H1 (conj H2
           (@generateHtml_verbatim literal_numbers (js "1/1/2026") [example_record]
              example_record H1 H2))).
Defined.

(** X16. sendEmail, index.js:273-290, never throws.  For the empty text it
    does nothing at all.  Otherwise it hands the document to the
    transport once and logs the outcome: the success entry with the
    message id, or, when the transport fails, the error entry; the
    failure itself does not leave the function.  The files, nextRunTime
    and currentGeneration are not touched. *)
Theorem sendEmail_never_throws (c : char16) (html : jsstring) (m : mail_outcome)
        (w : World) :
  sendEmail [] m w = (Normal tt, w)
  /\ (let w' := snd (sendEmail (c :: html) m w) in
      fst (sendEmail (c :: html) m w) = Normal tt
      /\ outbox w' = outbox w ++ [c :: html]
      /\ (exists older,
            logs w'
            = older ++ [info (js "Sending email..."); mail_entry m])
      /\ history_file w' = history_file w /\ dashboard_file w' = dashboard_file w
      /\ nextRunTime w' = nextRunTime w /\ currentGeneration w' = currentGeneration w).
Proof.
  split; [reflexivity|]. cbv zeta.
  destruct m as [messageId|e].
  - assert (E : sendEmail (c :: html) (Sent messageId) w
                = (Normal tt,
                   logged (MsgValue (js "Email sent successfully! ID: ") messageId) TSuccess
                     (snd (push_outbox (c :: html)
                             (logged (Msg (js "Sending email...")) TInfo w)))))
      by reflexivity.
    rewrite E. cbn [fst snd].
    split; [reflexivity|]. split; [reflexivity|].
    split; [|repeat split].
    destruct (logged_newest_two (Msg (js "Sending email..."))
                (MsgValue (js "Email sent successfully! ID: ") messageId)
                TInfo TSuccess w) as [older L].
    exists older. exact L.
  - assert (E : sendEmail (c :: html) (SendFailed e) w
                = (Normal tt,
                   logged (MsgError (js "Error sending email: ") e) TError
                     (snd (push_outbox (c :: html)
                             (logged (Msg (js "Sending email...")) TInfo w)))))
      by reflexivity.
    rewrite E. cbn [fst snd].
    split; [reflexivity|]. split; [reflexivity|].
    split; [|repeat split].
    destruct (logged_newest_two (Msg (js "Sending email..."))
                (MsgError (js "Error sending email: ") e) TInfo TError w) as [older L].
    exists older. exact L.
Qed.

(** ** The run cycle: what it mails, when it throws *)

Lemma cycle_news_same_mail `{Float64} (c : Cycle) : respects same_mail (cycle_news c).
Proof.
  unfold cycle_news.
  apply respects_bind; [typeclasses eauto|steady|intros _].
  apply respects_bind; [typeclasses eauto|steady|intros _].
  apply respects_bind; [typeclasses eauto| |intros p].
  - apply getPastHeadlines_respects; [typeclasses eauto|exact log_same_mail].
  - apply fetchNews_respects;
      [typeclasses eauto|exact log_same_mail|exact set_currentGeneration_same_mail].
Qed.

Lemma cycle_news_world `{Float64} (c : Cycle) (w : World) :
  cycle_news c w
  = (Normal (fetched (headlines_of (history_file w)) (generator c)),
     snd (cycle_news c w)).
Proof.
  pose proof (cycle_news_value c w) as V.
  destruct (cycle_news c w) as [[r|e] w1]; simpl in *; congruence.
Qed.

Lemma cycle_news_frame `{Float64} (c : Cycle) (w : World) :
  history_file (snd (cycle_news c w)) = history_file w
  /\ dashboard_file (snd (cycle_news c w)) = dashboard_file w
  /\ outbox (snd (cycle_news c w)) = outbox w
  /\ nextRunTime (snd (cycle_news c w)) = nextRunTime w.
Proof.
  destruct (keeps_files_cycle_news c w) as [K1 K2].
  destruct (cycle_news_same_mail c w) as [K3 K4]. auto.
Qed.

Lemma filter_type_unreadable (t : jsstring) (items : list jsval) :
  forallb readable items = false -> filter_type t items = Throw TypeError.
Proof.
  induction items as [|item rest IH]; intros E; [discriminate E|].
  cbn [forallb] in E. cbn [filter_type].
  destruct (readable item) eqn:R.
  - destruct (get_prop_readable item (js "type") R) as [v ->].
    cbn [cbind]. rewrite (IH E). reflexivity.
  - destruct item; try discriminate R; reflexivity.
Qed.

Lemma deliver_throws `{Float64} (c : Cycle) (items : list jsval) (e : js_error)
      (w : World) :
  generateHtml (date c) items = Throw e -> deliver c items w = (Throw e, w).
Proof.
  intros G. unfold deliver. unfold bind at 1 2. cbn [lift]. rewrite G. reflexivity.
Qed.

(** X17. An item that is null or undefined makes generateHtml throw a
    TypeError at its first filter, index.js:214, outside every try block:
    a cycle whose news list has such an item throws out of runBot before
    the mail, the persistence and the scheduling of the next run. *)
Theorem runBot_unreadable_item `{Float64} (c : Cycle) (items : list jsval) (w : World) :
  fst (cycle_news c w) = Normal (Some items) ->
  forallb readable items = false ->
  generateHtml (date c) items = Throw TypeError
  /\ fst (runBot c w) = Throw TypeError
  /\ history_file (snd (runBot c w)) = history_file w
  /\ dashboard_file (snd (runBot c w)) = dashboard_file w
  /\ outbox (snd (runBot c w)) = outbox w
  /\ nextRunTime (snd (runBot c w)) = nextRunTime w.
Proof.
  intros Hn Hr.
  assert (G : generateHtml (date c) items = Throw TypeError).
  { unfold generateHtml. rewrite (filter_type_unreadable _ _ Hr). reflexivity. }
  split; [exact G|].
  destruct (cycle_news_frame c w) as (K1 & K2 & K3 & K4).
  rewrite runBot_split.
  destruct (cycle_news c w) as [[r|e] w1]; cbn [fst snd] in *; [|discriminate Hn].
  injection Hn as ->.
  destruct items as [|item rest]; [discriminate Hr|].
  rewrite (deliver_throws c _ _ w1 G). cbn [fst snd]. auto.
Qed.

Lemma runBot_unreadable_item_witness :
  fst (@cycle_news literal_numbers null_item_cycle fresh) = Normal (Some [VNull])
  /\ forallb readable [VNull] = false
  /\ fst (@runBot literal_numbers null_item_cycle fresh) = Throw TypeError
  /\ nextRunTime (snd (@runBot literal_numbers null_item_cycle fresh)) = None.
Proof.
  assert (H1 : fst (@cycle_news literal_numbers null_item_cycle fresh)
               = Normal (Some [VNull])) by (vm_compute; reflexivity).
  assert (H2 : forallb readable [VNull] = false) by reflexivity.
  destruct (@runBot_unreadable_item literal_numbers null_item_cycle [VNull] fresh H1 H2)
    as (_ & R1 & _ & _ & _ & R2).
  exact (conj H1 (conj H2 (conj R1 R2))).
Defined.

(** X18. runBot, index.js:293-313, either returns with nextRunTime set to the
    time read at its end plus ten minutes, or it throws the exception of
    generateHtml on a non-empty news list; in that case the files, the
    mails and nextRunTime are what they were before the cycle.  No other
    failure (of the history read, the request, the extraction, the mail
    or the persistence) leaves the cycle. *)
Theorem runBot_outcome `{Float64} (c : Cycle) (w : World) :
  (fst (runBot c w) = Normal tt
   /\ nextRunTime (snd (runBot c w)) = Some (now c + 10 * 60000)%Z)
  \/ exists items e,
       fst (cycle_news c w) = Normal (Some items)
       /\ items <> []
       /\ generateHtml (date c) items = Throw e
       /\ fst (runBot c w) = Throw e
       /\ history_file (snd (runBot c w)) = history_file w
       /\ dashboard_file (snd (runBot c w)) = dashboard_file w
       /\ outbox (snd (runBot c w)) = outbox w
       /\ nextRunTime (snd (runBot c w)) = nextRunTime w.
Proof.
  destruct (cycle_news_frame c w) as (K1 & K2 & K3 & K4).
  rewrite runBot_split, (cycle_news_world c w) in *.
  set (w1 := snd (cycle_news c w)) in *. cbn [fst].
  destruct (fetched (headlines_of (history_file w)) (generator c)) as [[|item rest]|].
  - left. destruct (skip_cycle_spec c w1) as (S1 & _ & _ & S4). auto.
  - destruct (generateHtml (date c) (item :: rest)) as [html|e] eqn:G.
    + left. destruct (deliver_files c _ html w1 G) as (D1 & _ & _ & D4). auto.
    + right. exists (item :: rest), e.
      rewrite (deliver_throws c _ _ w1 G). cbn [fst snd].
      split; [reflexivity|]. split; [discriminate|]. auto 10.
  - left. destruct (skip_cycle_spec c w1) as (S1 & _ & _ & S4). auto.
Qed.

Lemma fetched_not_array `{Float64} (p : jsval) (g : generator_outcome) :
  isArray p = false -> fetched p g = None.
Proof.
  intros E. unfold fetched. rewrite (Array_join_not_array p _ E). reflexivity.
Qed.

(** X19. A headline file that holds JSON other than an array (an object, a
    string, a number, true, false or null) stops every cycle before the
    request: [pastHeadlines.join] throws inside fetchNews (index.js:123),
    which returns null whatever the generator would answer.  The cycle
    ends normally without mail and without touching the files, schedules
    the next run, and currentGeneration is left at the text set before
    the request. *)
Theorem runBot_history_not_array `{Float64} (c : Cycle) (w : World)
        (text : jsstring) (v : jsval) :
  history_file w = Some text ->
  JSON_parse text = Normal v ->
  isArray v = false ->
  fst (cycle_news c w) = Normal None
  /\ fst (runBot c w) = Normal tt
  /\ history_file (snd (runBot c w)) = history_file w
  /\ dashboard_file (snd (runBot c w)) = dashboard_file w
  /\ outbox (snd (runBot c w)) = outbox w
  /\ nextRunTime (snd (runBot c w)) = Some (now c + 10 * 60000)%Z
  /\ currentGeneration (snd (runBot c w)) = thinking.
Proof.
  intros Hf Hp Ha.
  assert (N : fst (cycle_news c w) = Normal None).
  { rewrite cycle_news_value. unfold headlines_of. rewrite Hf, Hp.
    rewrite (fetched_not_array v _ Ha). reflexivity. }
  split; [exact N|].
  destruct (runBot_skips c w (or_introl N)) as (R1 & R2 & R3 & R4).
  split; [exact R1|]. split; [exact R2|]. split; [exact R3|].
  assert (E : runBot c w
              = skip_cycle c
                  (logged (MsgError (js "Error fetching news: ") TypeError) TError
                     (snd (set_currentGeneration thinking
                             (logged (Msg (js "Fetching latest news from OpenRouter (Perplexity)..."))
                                TInfo
                                (logged (Msg (js "Bot Routine Started")) TInfo
                                   (logged (Msg (js "--------------------------------------------------"))
                                      TInfo w))))))).
  { rewrite runBot_split. unfold cycle_news. rewrite !bind_log.
    unfold bind at 1. rewrite getPastHeadlines_spec.
    cbn [history_file logged log bind read set_logs snd].
    rewrite Hf, Hp.
    unfold fetchNews, try_catch. rewrite bind_log.
    unfold bind at 1. cbn [set_currentGeneration].
    unfold bind at 1. cbn [lift]. rewrite (Array_join_not_array v _ Ha). reflexivity. }
  rewrite E. repeat split.
Qed.

Lemma runBot_history_not_array_witness :
  history_file object_history = Some (js "{}")
  /\ JSON_parse (js "{}") = Normal (VObject [])
  /\ isArray (VObject []) = false
  /\ fst (@runBot literal_numbers example_cycle object_history) = Normal tt
  /\ outbox (snd (@runBot literal_numbers example_cycle object_history)) = []
  /\ history_file (snd (@runBot literal_numbers example_cycle object_history))
     = Some (js "{}").
Proof.
  destruct (@runBot_history_not_array literal_numbers example_cycle object_history
              (js "{}") (VObject []) eq_refl eq_refl eq_refl)
    as (_ & R1 & R2 & _ & R3 & _).
  exact (conj eq_refl (conj eq_refl (conj eq_refl (conj R1 (conj R3 R2))))).
Defined.

Lemma generateHtml_not_empty `{Float64} (date html : jsstring) (items : list jsval) :
  generateHtml date items = Normal html -> html <> [].
Proof.
  unfold generateHtml. intros E.
  destruct (filter_type (js "good") items) as [g|e]; [|discriminate E].
  destruct (filter_type (js "shocking") items) as [s|e]; [|discriminate E].
  cbn [cbind] in E.
  destruct (section good_heading good_close (js "#27ae60") g) as [gs|e];
    [|discriminate E].
  destruct (section shocking_heading shocking_close (js "#c0392b") s) as [ss|e];
    [|discriminate E].
  cbn [cbind] in E. injection E as <-. discriminate.
Qed.

Lemma deliver_outbox `{Float64} (c : Cycle) (items : list jsval) (html : jsstring)
      (w : World) :
  generateHtml (date c) items = Normal html ->
  outbox (snd (deliver c items w)) = outbox w ++ [html].
Proof.
  intros Hg. pose proof (generateHtml_not_empty _ _ _ Hg) as Hne.
  remember (deliver c items w) as R eqn:ER.
  unfold deliver in ER. unfold bind at 1 2 in ER. cbn [lift] in ER. rewrite Hg in ER.
  unfold bind at 1 in ER.
  destruct (sendEmail_spec html (mail c) w) as (M1 & _ & _ & M4).
  destruct (sendEmail html (mail c) w) as [[u|e] w2]; simpl in M1, M4;
    [|discriminate M1].
  unfold bind at 1 in ER.
  destruct (saveHeadlines_files items w2) as [l S].
  rewrite S in ER. subst R. cbn. rewrite M4.
  destruct html; [contradiction|reflexivity].
Qed.

(** X20. A cycle hands at most one message to the mail transport.  When the
    extraction gives at least one item and the document is rendered, it
    is exactly one, the document itself, which is never the empty text
    (so the guard of sendEmail, index.js:274, does not fire), and this
    whether the transport then accepts it or fails.  When the extraction
    gives nothing or an empty list there is no mail. *)
Theorem runBot_sends_one_mail `{Float64} (c : Cycle) (w : World) :
  (forall items html,
     fst (cycle_news c w) = Normal (Some items) ->
     items <> [] ->
     generateHtml (date c) items = Normal html ->
     html <> [] /\ outbox (snd (runBot c w)) = outbox w ++ [html])
  /\ (fst (cycle_news c w) = Normal None \/ fst (cycle_news c w) = Normal (Some []) ->
      outbox (snd (runBot c w)) = outbox w).
Proof.
  destruct (cycle_news_frame c w) as (_ & _ & K3 & _).
  split.
  - intros items html Hn Hne Hg.
    split; [exact (generateHtml_not_empty _ _ _ Hg)|].
    rewrite runBot_split.
    destruct (cycle_news c w) as [[r|e] w1]; cbn [fst snd] in *; [|discriminate Hn].
    injection Hn as ->. destruct items as [|item rest]; [contradiction|].
    rewrite (deliver_outbox c _ html w1 Hg), K3. reflexivity.
  - intros Hn. rewrite runBot_split.
    destruct (cycle_news c w) as [[r|e] w1]; cbn [fst snd] in *.
    + assert (R : r = None \/ r = Some []) by (destruct Hn as [E|E]; inversion E; auto).
      destruct R as [-> | ->]; exact K3.
    + destruct Hn as [E|E]; discriminate E.
Qed.

Lemma runBot_sends_one_mail_witness :
  fst (@cycle_news literal_numbers example_cycle fresh) = Normal (Some example_items)
  /\ example_items <> []
  /\ @generateHtml literal_numbers (date example_cycle) example_items
     = Normal example_html
  /\ outbox (snd (@runBot literal_numbers example_cycle fresh)) = [example_html].
Proof.
  assert (H1 : fst (@cycle_news literal_numbers example_cycle fresh)
               = Normal (Some example_items)) by (vm_compute; reflexivity).
  assert (H2 : example_items <> []) by discriminate.
  assert (H3 : @generateHtml literal_numbers (date example_cycle) example_items
               = Normal example_html) by (vm_compute; reflexivity).
  destruct (proj1 (@runBot_sends_one_mail literal_numbers example_cycle fresh)
              example_items example_html H1 H2 H3) as (_ & O).
  exact (conj H1 (conj H2 (conj H3 O))).
Defined.

(** ** The log of a cycle *)











(** ** Cycles in sequence *)

Lemma Array_join_titles `{Float64} (l : list jsstring) (sep : jsstring) :
  Array_join (VArray (map VString l)) sep = Normal (join sep l).
Proof.
  unfold Array_join.
  assert (E : sequence (map (fun x => match x with
                                      | VUndefined | VNull => Normal []
                                      | _ => ToString x
                                      end) (map VString l)) = Normal l).
  { induction l as [|s l IH]; [reflexivity|].
    cbn [map sequence ToString]. cbn [map] in IH. rewrite IH. reflexivity. }
  rewrite E. reflexivity.
Qed.

Lemma fetched_titles `{Float64} (l : list jsstring) (g : generator_outcome) :
  fetched (VArray (map VString l)) g = fetched (VArray []) g.
Proof. unfold fetched. rewrite Array_join_titles. reflexivity. Qed.

Lemma stores_hold_files (w1 w2 : World) (appended : list NewsItem) :
  history_file w2 = history_file w1 -> dashboard_file w2 = dashboard_file w1 ->
  stores_hold w1 appended -> stores_hold w2 appended.
Proof. unfold stores_hold. intros -> ->. auto. Qed.

(** One cycle on stores that read as the history so far. *)
Lemma runBot_keeps `{Float64} (c : Cycle) (b appended : list NewsItem) (w : World) :
  stores_hold w appended -> yields c b ->
  fst (runBot c w) = Normal tt
  /\ stores_hold (snd (runBot c w)) (appended ++ b)
  /\ nextRunTime (snd (runBot c w)) = Some (now c + 10 * 60000)%Z.
Proof.
  intros Hw Hy.
  pose proof (cycle_news_value c w) as V.
  destruct Hw as [Hh Hd]. rewrite Hh, fetched_titles in V.
  assert (Hw : stores_hold w appended) by (split; assumption).
  assert (Skip : fst (cycle_news c w) = Normal None
                 \/ fst (cycle_news c w) = Normal (Some []) ->
                 b = [] ->
                 fst (runBot c w) = Normal tt
                 /\ stores_hold (snd (runBot c w)) (appended ++ b)
                 /\ nextRunTime (snd (runBot c w)) = Some (now c + 10 * 60000)%Z).
  { intros Hn ->. destruct (runBot_skips c w Hn) as (R1 & R2 & R3 & R4).
    rewrite app_nil_r. split; [exact R1|]. split; [|exact R4].
    exact (stores_hold_files w _ appended R2 R3 Hw). }
  destruct Hy as [Hy | [Hy ->]].
  2:{ apply Skip; [left; rewrite V, Hy; reflexivity|reflexivity]. }
  destruct b as [|n b]; [apply Skip; [right; rewrite V, Hy; reflexivity|reflexivity]|].
  rewrite Hy in V.
  destruct (keeps_files_cycle_news c w) as [K1 K2].
  rewrite runBot_split.
  destruct (cycle_news c w) as [[r|e] w1]; cbn [fst snd] in *; [|discriminate V].
  injection V as ->. cbn [map].
  change (item_value n :: map item_value b) with (map item_value (n :: b)).
  destruct (deliver_files c (map item_value (n :: b)) _ w1
              (generateHtml_records (date c) (n :: b))) as (D1 & D2 & D3 & D4).
  split; [exact D1|]. split; [|exact D4].
  pose proof (saveHeadlines_keeps w appended (n :: b) Hw) as S.
  destruct (saveHeadlines_files (map item_value (n :: b)) w) as [l E].
  rewrite E in S. cbn [snd] in S.
  refine (stores_hold_files _ _ _ _ _ S); cbn [history_file dashboard_file].
  - rewrite D2, K1, K2. reflexivity.
  - rewrite D3, K1, K2. reflexivity.
Qed.

Lemma last_cons_default {A : Type} (x d d' : A) (l : list A) :
  last (x :: l) d = last (x :: l) d'.
Proof.
  revert x. induction l as [|y l IH]; intros x; [reflexivity|].
  change (last (x :: y :: l) d) with (last (y :: l) d).
  change (last (x :: y :: l) d') with (last (y :: l) d'). apply IH.
Qed.

Lemma run_cycles_keeps `{Float64} (cycles : list Cycle) (batches : list (list NewsItem)) :
  Forall2 yields cycles batches ->
  forall (appended : list NewsItem) (w : World),
    stores_hold w appended ->
    fst (run_cycles cycles w) = Normal tt
    /\ stores_hold (snd (run_cycles cycles w)) (appended ++ concat batches)
    /\ nextRunTime (snd (run_cycles cycles w))
       = last (map (fun c => Some (now c + 10 * 60000)%Z) cycles) (nextRunTime w).
Proof.
  induction 1 as [|c b cycles batches Hy _ IH]; intros appended w Hw.
  - cbn [concat]. rewrite app_nil_r. auto.
  - destruct (runBot_keeps c b appended w Hw Hy) as (R1 & R2 & R3).
    cbn [run_cycles concat]. unfold bind.
    destruct (runBot c w) as [[u|e] w1]; cbn [fst snd] in *; [|discriminate R1].
    destruct (IH _ w1 R2) as (I1 & I2 & I3).
    split; [exact I1|]. split; [rewrite app_assoc; exact I2|].
    rewrite I3, R3. cbn [map].
    destruct cycles as [|c' cycles]; [reflexivity|].
    cbn [map].
    exact (last_cons_default (Some (now c' + 10 * 60000)%Z) _ (nextRunTime w) _).
Qed.

(** X23. Cycles that run one after the other from a first start, each with a
    generator that has a list of news records or nothing: every cycle
    returns, the past headlines are then the last 50 titles of all the
    records obtained, in order, and the answer of GET /api/data shows the
    last 20 records and the next run ten minutes after the time read by
    the last cycle. *)
Theorem dashboard_after_cycles `{Float64} (cycles : list Cycle)
        (batches : list (list NewsItem)) (w : World) :
  history_file w = None ->
  dashboard_file w = None ->
  Forall2 yields cycles batches ->
  let w' := snd (run_cycles cycles w) in
  fst (run_cycles cycles w) = Normal tt
  /\ fst (getPastHeadlines w')
     = Normal (VArray (map VString (lastn 50 (map item_title (concat batches)))))
  /\ exists a,
       fst (api_data w') = Normal a
       /\ answer_history a = VArray (map item_value (lastn 20 (concat batches)))
       /\ answer_nextRun a
          = last (map (fun c => Some (now c + 10 * 60000)%Z) cycles) (nextRunTime w).
Proof.
  intros Hh Hd Hy w'.
  assert (I0 : stores_hold w []).
  { unfold stores_hold. rewrite Hh, Hd. split; reflexivity. }
  destruct (run_cycles_keeps cycles batches Hy [] w I0) as (R1 & [S1 S2] & R3).
  cbn [app] in S1, S2. fold w' in S1, S2, R3.
  split; [exact R1|].
  split; [rewrite getPastHeadlines_value, S1; reflexivity|].
  rewrite api_data_spec. eexists. split; [reflexivity|].
  cbn [answer_history answer_nextRun]. rewrite S2. split; [reflexivity|exact R3].
Qed.

Lemma dashboard_after_cycles_witness :
  history_file fresh = None
  /\ dashboard_file fresh = None
  /\ Forall2 (@yields literal_numbers) [example_cycle; failing_cycle] [[example_record]; []]
  /\ fst (@run_cycles literal_numbers [example_cycle; failing_cycle] fresh) = Normal tt
  /\ fst (getPastHeadlines
            (snd (@run_cycles literal_numbers [example_cycle; failing_cycle] fresh)))
     = Normal (VArray [VString (js "A")]).
Proof.
  assert (Hy : Forall2 (@yields literal_numbers) [example_cycle; failing_cycle]
                 [[example_record]; []]).
  { constructor; [left; reflexivity|].
    constructor; [right; split; reflexivity|constructor]. }
  destruct (@dashboard_after_cycles literal_numbers [example_cycle; failing_cycle]
              [[example_record]; []] fresh eq_refl eq_refl Hy) as (R1 & R2 & _).
  exact (conj eq_refl (conj eq_refl (conj Hy (conj R1 R2)))).
Defined.
